(** * go-proxyproto: the codecs of versions 1 and 2, the TLV vector and the
      connection wrapper

    A shallow embedding of the PROXY protocol library (a fork of
    pires/go-proxyproto) and the properties its specification states about
    it.  Go values are modelled as follows.

    - a [byte] is [Byte.byte]; a [[]byte] is a [list byte] (a nil slice and
      an empty slice are both [[]]);
    - a Go [int] that only ever holds a length or an offset is a [nat]; the
      arithmetic the code does on lengths (shifts, 16-bit truncation, the
      comparison with [math.MaxUint16]) is done in [Z];
    - a [uint16] is a [Z] together with its wrap-around [mod 65536];
    - [(value, error)] results are a [result]; where the code can panic,
      the panic is the [None] of an [option], and so is an outcome that Go
      does not define (an invalid use of [unsafe]);
    - a [*bufio.Reader] is a record threaded through the parser, by a
      small state monad in the version 2 parser. *)

From Stdlib Require Import String ZArith List Lia Bool FunInd Recdef.
From Stdlib.Strings Require Import Byte.
Import ListNotations.

Open Scope Z_scope.

(* ------------------------------------------------------------------ *)
(** ** Bytes and fixed-width integers *)

Definition byte_to_Z (b : byte) : Z := Z.of_N (Byte.to_N b).

(** Go's conversion [byte(x)]: the low eight bits. *)
Definition byte_of_Z (z : Z) : byte :=
  match Byte.of_N (Z.to_N (z mod 256)) with
  | Some b => b
  | None => x00
  end.

(** Go's conversion [uint16(x)]. *)
Definition uint16 (z : Z) : Z := z mod 65536.

Definition MaxUint16 : Z := 65535.

Definition len {A} (l : list A) : Z := Z.of_nat (length l).

(** [binary.BigEndian.PutUint16]. *)
Definition PutUint16 (v : Z) : list byte :=
  [byte_of_Z (Z.shiftr v 8); byte_of_Z v].

(** [binary.BigEndian.Uint16] on the two bytes [hi], [lo]. *)
Definition Uint16 (hi lo : byte) : Z :=
  Z.lor (Z.shiftl (byte_to_Z hi) 8) (byte_to_Z lo).

(** The slice expression [raw[lo:hi]] and the index expression [raw[i]]
    (used only where the code has already checked the bounds). *)
Definition slice (raw : list byte) (lo hi : nat) : list byte :=
  firstn (hi - lo) (skipn lo raw).

Definition idx (raw : list byte) (i : nat) : byte := nth i raw x00.

(* ------------------------------------------------------------------ *)
(** ** Errors and results *)

Abbreviation PP2Type := byte (only parsing).

(** The error values the code returns.  Those of header.go are modelled
    from the spec (header.go is not under src/): v2.go and protocol.go use
    them by name. *)
Inductive error : Type :=
  (* tlv.go *)
  | ErrTruncatedTLV
  | ErrMalformedTLV
  | ErrIncompatibleTLV
  (** [fmt.Errorf("proxyproto: cannot format TLV %v with length %d", ...)] *)
  | ErrCannotFormatTLV (t : PP2Type) (n : Z)
  (* v2.go *)
  | errUint16Overflow
  (* header.go *)
  | ErrCantReadVersion1Header
  | ErrVersion1HeaderTooLong
  | ErrLineMustEndWithCrlf
  | ErrCantReadProtocolVersionAndCommand
  | ErrCantReadAddressFamilyAndProtocol
  | ErrCantReadLength
  | ErrUnsupportedProtocolVersionAndCommand
  | ErrUnsupportedAddressFamilyAndProtocol
  | ErrInvalidLength
  | ErrInvalidAddress
  | ErrInvalidPortNumber
  | ErrSuperfluousProxyHeader
  | ErrNoProxyProtocol
  (* protocol.go *)
  | ErrInvalidUpstream
  (* io, bufio, net *)
  | EOF
  | ErrUnexpectedEOF
  | ErrBufferFull
  (** a [net.Error] whose [Timeout()] is true *)
  | ErrDeadlineExceeded
  (** any other error of the transport *)
  | ErrIO (code : nat)
  (** an error made by the embedder (a validator or a policy function) *)
  | ErrUser (code : nat).

Definition error_eqb (a b : error) : bool :=
  match a, b with
  | ErrTruncatedTLV, ErrTruncatedTLV
  | ErrMalformedTLV, ErrMalformedTLV
  | ErrIncompatibleTLV, ErrIncompatibleTLV
  | errUint16Overflow, errUint16Overflow
  | ErrCantReadVersion1Header, ErrCantReadVersion1Header
  | ErrVersion1HeaderTooLong, ErrVersion1HeaderTooLong
  | ErrLineMustEndWithCrlf, ErrLineMustEndWithCrlf
  | ErrCantReadProtocolVersionAndCommand, ErrCantReadProtocolVersionAndCommand
  | ErrCantReadAddressFamilyAndProtocol, ErrCantReadAddressFamilyAndProtocol
  | ErrCantReadLength, ErrCantReadLength
  | ErrUnsupportedProtocolVersionAndCommand,
    ErrUnsupportedProtocolVersionAndCommand
  | ErrUnsupportedAddressFamilyAndProtocol,
    ErrUnsupportedAddressFamilyAndProtocol
  | ErrInvalidLength, ErrInvalidLength
  | ErrInvalidAddress, ErrInvalidAddress
  | ErrInvalidPortNumber, ErrInvalidPortNumber
  | ErrSuperfluousProxyHeader, ErrSuperfluousProxyHeader
  | ErrNoProxyProtocol, ErrNoProxyProtocol
  | ErrInvalidUpstream, ErrInvalidUpstream
  | EOF, EOF
  | ErrUnexpectedEOF, ErrUnexpectedEOF
  | ErrBufferFull, ErrBufferFull
  | ErrDeadlineExceeded, ErrDeadlineExceeded => true
  | ErrCannotFormatTLV t n, ErrCannotFormatTLV t' n' =>
    Byte.eqb t t' && (n =? n')
  | ErrIO c, ErrIO c' => Nat.eqb c c'
  | ErrUser c, ErrUser c' => Nat.eqb c c'
  | _, _ => false
  end.

(** [netErr, ok := err.(net.Error); ok && netErr.Timeout()] *)
Definition isTimeout (e : error) : bool :=
  match e with
  | ErrDeadlineExceeded => true
  | _ => false
  end.

Inductive result (A : Type) : Type :=
  | Ok (a : A)
  | Err (e : error).

Arguments Ok {A} a.
Arguments Err {A} e.

(* ------------------------------------------------------------------ *)
(** ** The TLV vector (tlv.go) *)

Definition PP2_TYPE_ALPN : PP2Type := x01.
Definition PP2_TYPE_AUTHORITY : PP2Type := x02.
Definition PP2_TYPE_CRC32C : PP2Type := x03.
Definition PP2_TYPE_NOOP : PP2Type := x04.
Definition PP2_TYPE_UNIQUE_ID : PP2Type := x05.

Record TLV : Type := mkTLV { Type_ : PP2Type; Value : list byte }.

Set Warnings "-funind-cannot-define-principle,-funind-cannot-build-inversion".

(** The loop of [SplitTLVs], [for i := 0; i < len(raw); { ... }]: [i] is
    the loop index and [tlvs] the entries appended so far.  The index grows
    by at least three at every turn. *)
Function splitLoop (raw : list byte) (i : nat) (tlvs : list TLV)
  {measure (fun i => (length raw - i)%nat) i} : result (list TLV) :=
  if (i <? length raw)%nat then
    if (length raw - i <? 3)%nat then Err ErrTruncatedTLV else
    let tlvType := idx raw i in
    let i1 := (i + 1)%nat in
    let tlvLen := Z.to_nat (Uint16 (idx raw i1) (idx raw (i1 + 1))) in
    let i2 := (i1 + 2)%nat in
    if (length raw <? i2 + tlvLen)%nat then Err ErrTruncatedTLV else
    let tlvs' :=
      if Byte.eqb tlvType PP2_TYPE_NOOP then tlvs
      else tlvs ++ [ {| Type_ := tlvType;
                       Value := slice raw i2 (i2 + tlvLen) |} ] in
    splitLoop raw (i2 + tlvLen)%nat tlvs'
  else Ok tlvs.
Proof.
  intros raw i tlvs Hlt _ _. apply Nat.ltb_lt in Hlt. lia.
Defined.

Set Warnings "funind-cannot-define-principle,funind-cannot-build-inversion".

Definition SplitTLVs (raw : list byte) : result (list TLV) :=
  if (length raw =? 0)%nat then Ok [] else splitLoop raw 0 [].

(** The first loop of [JoinTLVs]: the size of the output, or the error of
    the first entry whose value does not fit a 16-bit length. *)
Fixpoint joinSize (tlvs : list TLV) (totalSize : Z) : result Z :=
  match tlvs with
  | [] => Ok totalSize
  | tlv :: rest =>
    if len (Value tlv) >? MaxUint16
    then Err (ErrCannotFormatTLV (Type_ tlv) (len (Value tlv)))
    else joinSize rest (totalSize + (3 + len (Value tlv)))
  end.

(** [raw[i] = b]; [None] is the index-out-of-range panic. *)
Definition store (raw : list byte) (i : nat) (b : byte) : option (list byte) :=
  if (i <? length raw)%nat
  then Some (firstn i raw ++ b :: skipn (S i) raw)
  else None.

(** [copy(raw[lo:hi], src)]; [None] is the slice-bounds panic. *)
Definition copyInto (raw : list byte) (lo hi : nat) (src : list byte)
  : option (list byte) :=
  if (hi <=? length raw)%nat
  then let n := Nat.min (hi - lo) (length src) in
       Some (firstn lo raw ++ firstn n src ++ skipn (lo + n) raw)
  else None.

(** The second loop of [JoinTLVs], writing into the buffer allocated by the
    caller. *)
Fixpoint joinFill (tlvs : list TLV) (raw : list byte) (offset : nat)
  : option (list byte) :=
  match tlvs with
  | [] => Some raw
  | tlv :: rest =>
    let valueLen := length (Value tlv) in
    match store raw offset (Type_ tlv) with
    | None => None
    | Some raw1 =>
      let offset1 := (offset + 1)%nat in
      match store raw1 offset1 (byte_of_Z (Z.shiftr (Z.of_nat valueLen) 8)) with
      | None => None
      | Some raw2 =>
        match store raw2 (offset1 + 1) (byte_of_Z (Z.of_nat valueLen)) with
        | None => None
        | Some raw3 =>
          let offset2 := (offset1 + 2)%nat in
          if (0 <? valueLen)%nat
          then match copyInto raw3 offset2 (offset2 + valueLen) (Value tlv) with
               | None => None
               | Some raw4 => joinFill rest raw4 (offset2 + valueLen)
               end
          else joinFill rest raw3 offset2
        end
      end
    end
  end.

(** [JoinTLVs]; [None] is a panic of one of the writes into the buffer. *)
Definition JoinTLVs (tlvs : list TLV) : option (result (list byte)) :=
  if (length tlvs =? 0)%nat then Some (Ok []) else
  match joinSize tlvs 0 with
  | Err e => Some (Err e)
  | Ok totalSize =>
    if totalSize =? 0 then Some (Ok []) else
    match joinFill tlvs (repeat x00 (Z.to_nat totalSize)) 0 with
    | Some raw => Some (Ok raw)
    | None => None
    end
  end.

(** The wire form of one entry and of a list of entries, used to state what
    [JoinTLVs] writes. *)
Definition encodeTLV (tlv : TLV) : list byte :=
  Type_ tlv :: PutUint16 (len (Value tlv)) ++ Value tlv.

Definition encodeTLVs (tlvs : list TLV) : list byte := flat_map encodeTLV tlvs.

Definition fitsUint16 (tlv : TLV) : Prop := len (Value tlv) <= MaxUint16.

Definition notNoop (tlv : TLV) : Prop := Type_ tlv <> PP2_TYPE_NOOP.

(** The other types of tlv.go and the bounds of the reserved ranges. *)
Definition PP2_TYPE_SSL : PP2Type := x20.
Definition PP2_SUBTYPE_SSL_VERSION : PP2Type := x21.
Definition PP2_SUBTYPE_SSL_CN : PP2Type := x22.
Definition PP2_SUBTYPE_SSL_CIPHER : PP2Type := x23.
Definition PP2_SUBTYPE_SSL_SIG_ALG : PP2Type := x24.
Definition PP2_SUBTYPE_SSL_KEY_ALG : PP2Type := x25.
Definition PP2_TYPE_NETNS : PP2Type := x30.
Definition PP2_TYPE_MIN_CUSTOM : PP2Type := xe0.
Definition PP2_TYPE_MAX_CUSTOM : PP2Type := xef.
Definition PP2_TYPE_MIN_EXPERIMENT : PP2Type := xf0.
Definition PP2_TYPE_MAX_EXPERIMENT : PP2Type := xf7.
Definition PP2_TYPE_MIN_FUTURE : PP2Type := xf8.
Definition PP2_TYPE_MAX_FUTURE : PP2Type := xff.

(** The order [<=] of two bytes, as Go compares two values of a byte
    type. *)
Definition byte_leb (a b : byte) : bool := byte_to_Z a <=? byte_to_Z b.

Module PP2Type.

Definition Registered (p : PP2Type) : bool :=
  Byte.eqb p PP2_TYPE_ALPN
  || Byte.eqb p PP2_TYPE_AUTHORITY
  || Byte.eqb p PP2_TYPE_CRC32C
  || Byte.eqb p PP2_TYPE_NOOP
  || Byte.eqb p PP2_TYPE_UNIQUE_ID
  || Byte.eqb p PP2_TYPE_SSL
  || Byte.eqb p PP2_SUBTYPE_SSL_VERSION
  || Byte.eqb p PP2_SUBTYPE_SSL_CN
  || Byte.eqb p PP2_SUBTYPE_SSL_CIPHER
  || Byte.eqb p PP2_SUBTYPE_SSL_SIG_ALG
  || Byte.eqb p PP2_SUBTYPE_SSL_KEY_ALG
  || Byte.eqb p PP2_TYPE_NETNS.

Definition App (p : PP2Type) : bool :=
  byte_leb PP2_TYPE_MIN_CUSTOM p && byte_leb p PP2_TYPE_MAX_CUSTOM.

Definition Experiment (p : PP2Type) : bool :=
  byte_leb PP2_TYPE_MIN_EXPERIMENT p && byte_leb p PP2_TYPE_MAX_EXPERIMENT.

Definition Future (p : PP2Type) : bool := byte_leb PP2_TYPE_MIN_FUTURE p.

Definition Spec (p : PP2Type) : bool :=
  Registered p || App p || Experiment p || Future p.

End PP2Type.

(** The entries that [SplitTLVs] keeps: all but the NOOP padding. *)
Definition isNoop (tlv : TLV) : bool := Byte.eqb (Type_ tlv) PP2_TYPE_NOOP.

Definition dropNoop (tlvs : list TLV) : list TLV :=
  filter (fun tlv => negb (isNoop tlv)) tlvs.


(* ------------------------------------------------------------------ *)
(** ** Commands, transports and addresses *)

Abbreviation ProtocolVersionAndCommand := byte (only parsing).
Abbreviation AddressFamilyAndProtocol := byte (only parsing).

(** Modelled from the spec: version_cmd.go is not under src/.  The byte is
    [(version << 4) | command] with version 2 and the command LOCAL = 0. *)
Definition LOCAL : ProtocolVersionAndCommand := x20.

(** Modelled from the spec: version_cmd.go is not under src/.  Version 2
    and the command PROXY = 1. *)
Definition PROXY : ProtocolVersionAndCommand := x21.

(** Modelled from the spec: version_cmd.go is not under src/.  The map
    [supportedCommand] has the two commands as its keys. *)
Definition supportedCommand (c : ProtocolVersionAndCommand) : bool :=
  Byte.eqb c LOCAL || Byte.eqb c PROXY.

Module Command.

(** Modelled from the spec: version_cmd.go is not under src/. *)
Definition IsLocal (pvc : ProtocolVersionAndCommand) : bool :=
  Byte.eqb pvc LOCAL.

(** Modelled from the spec: version_cmd.go is not under src/. *)
Definition IsProxy (pvc : ProtocolVersionAndCommand) : bool :=
  Byte.eqb pvc PROXY.

(** Modelled from the spec: version_cmd.go is not under src/.  The two
    supported commands are written as they are; the library this one is
    forked from writes LOCAL for any other value. *)
Definition toByte (pvc : ProtocolVersionAndCommand) : byte :=
  if IsLocal pvc then LOCAL else if IsProxy pvc then PROXY else LOCAL.

End Command.

(** Modelled from the spec: addr_proto.go is not under src/.  The byte is
    [(family << 4) | protocol] with the families UNSPEC = 0, INET = 1,
    INET6 = 2, UNIX = 3 and the protocols UNSPEC = 0, STREAM = 1,
    DGRAM = 2. *)
Definition UNSPEC : AddressFamilyAndProtocol := x00.

(** Modelled from the spec: addr_proto.go is not under src/. *)
Definition TCPv4 : AddressFamilyAndProtocol := x11.

(** Modelled from the spec: addr_proto.go is not under src/. *)
Definition UDPv4 : AddressFamilyAndProtocol := x12.

(** Modelled from the spec: addr_proto.go is not under src/. *)
Definition TCPv6 : AddressFamilyAndProtocol := x21.

(** Modelled from the spec: addr_proto.go is not under src/. *)
Definition UDPv6 : AddressFamilyAndProtocol := x22.

(** Modelled from the spec: addr_proto.go is not under src/. *)
Definition UnixStream : AddressFamilyAndProtocol := x31.

(** Modelled from the spec: addr_proto.go is not under src/. *)
Definition UnixDatagram : AddressFamilyAndProtocol := x32.

Module Transport.

(** The two halves of the byte, in place: [ap & 0xF0] and [ap & 0x0F]. *)
Definition family (ap : AddressFamilyAndProtocol) : Z :=
  Z.land (byte_to_Z ap) 240.

Definition protocol (ap : AddressFamilyAndProtocol) : Z :=
  Z.land (byte_to_Z ap) 15.

(** Modelled from the spec: addr_proto.go is not under src/. *)
Definition IsIPv4 (ap : AddressFamilyAndProtocol) : bool := family ap =? 16.

(** Modelled from the spec: addr_proto.go is not under src/. *)
Definition IsIPv6 (ap : AddressFamilyAndProtocol) : bool := family ap =? 32.

(** Modelled from the spec: addr_proto.go is not under src/. *)
Definition IsUnix (ap : AddressFamilyAndProtocol) : bool := family ap =? 48.

(** Modelled from the spec: addr_proto.go is not under src/. *)
Definition IsStream (ap : AddressFamilyAndProtocol) : bool := protocol ap =? 1.

(** Modelled from the spec: addr_proto.go is not under src/. *)
Definition IsDatagram (ap : AddressFamilyAndProtocol) : bool :=
  protocol ap =? 2.

(** Modelled from the spec: addr_proto.go is not under src/.  Either half
    of the byte being UNSPEC makes the pair unspecified. *)
Definition IsUnspec (ap : AddressFamilyAndProtocol) : bool :=
  (family ap =? 0) || (protocol ap =? 0).

(** Modelled from the spec: addr_proto.go is not under src/.  The six
    family and protocol pairs are written as they are, anything else as
    UNSPEC. *)
Definition toByte (ap : AddressFamilyAndProtocol) : byte :=
  if IsIPv4 ap && IsStream ap then TCPv4
  else if IsIPv4 ap && IsDatagram ap then UDPv4
  else if IsIPv6 ap && IsStream ap then TCPv6
  else if IsIPv6 ap && IsDatagram ap then UDPv6
  else if IsUnix ap && IsStream ap then UnixStream
  else if IsUnix ap && IsDatagram ap then UnixDatagram
  else UNSPEC.

End Transport.

(** [net.IP] is a byte slice; the nil IP is the empty list. *)
Abbreviation IP := (list byte) (only parsing).

(** [net.IP.To4] and [net.IP.To16] of Go's standard library; [None] is the
    nil result. *)
Definition v4InV6Prefix : list byte :=
  [x00; x00; x00; x00; x00; x00; x00; x00; x00; x00; xff; xff].

Definition bytes_eqb (a b : list byte) : bool :=
  if list_eq_dec Byte.byte_eq_dec a b then true else false.

Definition To4 (ip : IP) : option IP :=
  if (length ip =? 4)%nat then Some ip
  else if (length ip =? 16)%nat && bytes_eqb (firstn 12 ip) v4InV6Prefix
       then Some (slice ip 12 16)
       else None.

Definition To16 (ip : IP) : option IP :=
  if (length ip =? 4)%nat then Some (v4InV6Prefix ++ ip)
  else if (length ip =? 16)%nat then Some ip
  else None.

(** The implementations of [net.Addr] the library handles; a nil [net.Addr]
    is [None].  A Go string is its byte sequence. *)
Inductive Addr : Type :=
  | TCPAddr (ip : IP) (port : Z)
  | UDPAddr (ip : IP) (port : Z)
  | UnixAddr (net : string) (name : list byte).

Record Header : Type := mkHeader {
  Version : Z;
  Command : ProtocolVersionAndCommand;
  TransportProtocol : AddressFamilyAndProtocol;
  SourceAddr : option Addr;
  DestinationAddr : option Addr;
  rawTLVs : list byte
}.

(** Modelled from the spec: header.go is not under src/.  The address
    accessors give the two addresses when the transport and both address
    values are of the asked kind. *)
Definition TCPAddrs (header : Header)
  : option (IP * Z) * option (IP * Z) * bool :=
  if negb (Transport.IsStream (TransportProtocol header))
  then (None, None, false)
  else match SourceAddr header, DestinationAddr header with
       | Some (TCPAddr sip sp), Some (TCPAddr dip dp) =>
         (Some (sip, sp), Some (dip, dp), true)
       | Some (TCPAddr sip sp), _ => (Some (sip, sp), None, false)
       | _, Some (TCPAddr dip dp) => (None, Some (dip, dp), false)
       | _, _ => (None, None, false)
       end.

(** Modelled from the spec: header.go is not under src/. *)
Definition UDPAddrs (header : Header)
  : option (IP * Z) * option (IP * Z) * bool :=
  if negb (Transport.IsDatagram (TransportProtocol header))
  then (None, None, false)
  else match SourceAddr header, DestinationAddr header with
       | Some (UDPAddr sip sp), Some (UDPAddr dip dp) =>
         (Some (sip, sp), Some (dip, dp), true)
       | Some (UDPAddr sip sp), _ => (Some (sip, sp), None, false)
       | _, Some (UDPAddr dip dp) => (None, Some (dip, dp), false)
       | _, _ => (None, None, false)
       end.

(** Modelled from the spec: header.go is not under src/.  The result is the
    two socket paths. *)
Definition UnixAddrs (header : Header) : list byte * list byte * bool :=
  if negb (Transport.IsUnix (TransportProtocol header)) then ([], [], false)
  else match SourceAddr header, DestinationAddr header with
       | Some (UnixAddr _ sname), Some (UnixAddr _ dname) =>
         (sname, dname, true)
       | _, _ => ([], [], false)
       end.

(** Modelled from the spec: header.go is not under src/.  Without a pair of
    TCP or UDP addresses the IPs are nil. *)
Definition IPs (header : Header) : IP * IP * bool :=
  match TCPAddrs header with
  | (Some (sip, _), Some (dip, _), true) => (sip, dip, true)
  | _ =>
    match UDPAddrs header with
    | (Some (sip, _), Some (dip, _), true) => (sip, dip, true)
    | _ => ([], [], false)
    end
  end.

(** Modelled from the spec: header.go is not under src/. *)
Definition Ports (header : Header) : Z * Z * bool :=
  match TCPAddrs header with
  | (Some (_, sp), Some (_, dp), true) => (sp, dp, true)
  | _ =>
    match UDPAddrs header with
    | (Some (_, sp), Some (_, dp), true) => (sp, dp, true)
    | _ => (0, 0, false)
    end
  end.

(** Modelled from the spec: header.go is not under src/.  The twelve bytes
    that open a version 2 header. *)
Definition SIGV2 : list byte :=
  [x0d; x0a; x0d; x0a; x00; x0d; x0a; x51; x55; x49; x54; x0a].

(** Modelled from the spec: header.go is not under src/.  The text
    ["PROXY"] that opens a version 1 header. *)
Definition SIGV1 : list byte := [x50; x52; x4f; x58; x59].

(* ------------------------------------------------------------------ *)
(** ** The buffered byte source

    A [*bufio.Reader] over a blocking source.  [pending] holds the bytes
    the source delivers before it fails, in order (those already in the
    buffer and those still to come); [srcErr] is what the source reports
    once they are consumed: [EOF], a deadline expiry or another error;
    [bufSize] is the size of the buffer. *)

Record Reader : Type := mkReader {
  bufSize : nat;
  pending : list byte;
  srcErr : error
}.

Definition advance (r : Reader) (n : nat) : Reader :=
  {| bufSize := bufSize r; pending := skipn n (pending r);
     srcErr := srcErr r |}.

(** A computation that reads from the byte source. *)
Definition M (A : Type) : Type := Reader -> result A * Reader.

Definition ret {A} (a : A) : M A := fun r => (Ok a, r).

Definition fail {A} (e : error) : M A := fun r => (Err e, r).

Definition bind {A B} (m : M A) (k : A -> M B) : M B :=
  fun r =>
    match m r with
    | (Ok a, r') => k a r'
    | (Err e, r') => (Err e, r')
    end.

(** [if ..., err := m; err != nil { return nil, e }] *)
Definition orFail {A} (m : M A) (e : error) : M A :=
  fun r =>
    match m r with
    | (Err _, r') => (Err e, r')
    | other => other
    end.

Declare Scope reader_scope.
Delimit Scope reader_scope with reader.
Notation "x <- m ;; k" := (bind m (fun x => k))
  (at level 61, m at next level, right associativity) : reader_scope.
Notation "m ;;; k" := (bind m (fun _ => k))
  (at level 61, right associativity) : reader_scope.

(** [bufio.Reader.ReadByte]. *)
Definition ReadByte : M byte :=
  fun r =>
    match pending r with
    | b :: _ => (Ok b, advance r 1)
    | [] => (Err (srcErr r), r)
    end.

(** [bufio.Reader.Peek]: [n] bytes without consuming them.  More than the
    buffer holds is [ErrBufferFull]; fewer than [n] bytes before the
    source fails is the error of the source. *)
Definition Peek (n : nat) : M (list byte) :=
  fun r =>
    if (bufSize r <? n)%nat then (Err ErrBufferFull, r)
    else if (length (pending r) <? n)%nat then (Err (srcErr r), r)
    else (Ok (firstn n (pending r)), r).

(** What [io.ReadAtLeast] makes of the error of a short read that got
    [got] bytes. *)
Definition shortReadErr (got : nat) (e : error) : error :=
  if (0 <? got)%nat && error_eqb e EOF then ErrUnexpectedEOF else e.

(** [io.ReadFull(reader, buf)] for a buffer of [n] bytes. *)
Definition ReadFull (n : nat) : M (list byte) :=
  fun r =>
    if (n <=? length (pending r))%nat
    then (Ok (firstn n (pending r)), advance r n)
    else (Err (shortReadErr (length (pending r)) (srcErr r)),
          advance r (length (pending r))).

(** [io.ReadFull(payloadReader, buf)] for a buffer of [n] bytes, where
    [payloadReader] is an [io.LimitedReader] over the byte source with [N]
    bytes left.  On success the caller has [N - n] bytes left. *)
Definition limitedReadFull (N n : nat) : M (list byte) :=
  fun r =>
    let k := Nat.min n N in
    if (k <=? length (pending r))%nat
    then if (n <=? N)%nat
         then (Ok (firstn n (pending r)), advance r n)
         else (Err (shortReadErr k EOF), advance r k)
    else (Err (shortReadErr (length (pending r)) (srcErr r)),
          advance r (length (pending r))).

(* ------------------------------------------------------------------ *)
(** ** The version 2 codec (v2.go) *)

Definition lengthUnspec : Z := 0.
Definition lengthV4 : Z := 12.
Definition lengthV6 : Z := 36.
Definition lengthUnix : Z := 216.

Definition validateLength (header : Header) (length : Z) : bool :=
  let tp := TransportProtocol header in
  if Transport.IsIPv4 tp then length >=? lengthV4
  else if Transport.IsIPv6 tp then length >=? lengthV6
  else if Transport.IsUnix tp then length >=? lengthUnix
  else if Transport.IsUnspec tp then length >=? lengthUnspec
  else false.

Definition newIPAddr (transport : AddressFamilyAndProtocol) (ip : IP) (port : Z)
  : option Addr :=
  if Transport.IsStream transport then Some (TCPAddr ip port)
  else if Transport.IsDatagram transport then Some (UDPAddr ip port)
  else None.

(** [bytes.IndexByte(b, 0)] and the prefix before it. *)
Fixpoint parseUnixName (b : list byte) : list byte :=
  match b with
  | [] => []
  | c :: rest => if Byte.eqb c x00 then [] else c :: parseUnixName rest
  end.

(** The loop that skips the signature. *)
Fixpoint skipSignature (n : nat) : M unit :=
  match n with
  | O => ret tt
  | S k =>
    (orFail ReadByte ErrCantReadProtocolVersionAndCommand ;;;
     skipSignature k)%reader
  end.

(** The address block of [parseVersion2]: the header with its addresses
    and the number of payload bytes left to the limited reader. *)
Definition parseAddresses (header : Header) (N : nat) : M (Header * nat) :=
  let tp := TransportProtocol header in
  if negb (Byte.eqb tp UNSPEC) then
    if Transport.IsIPv4 tp then
      (addr <- orFail (limitedReadFull N 12) ErrInvalidAddress ;;
       let src := slice addr 0 4 in
       let dst := slice addr 4 8 in
       let srcPort := Uint16 (idx addr 8) (idx addr 9) in
       let dstPort := Uint16 (idx addr 10) (idx addr 11) in
       ret ({| Version := Version header; Command := Command header;
               TransportProtocol := tp;
               SourceAddr := newIPAddr tp src srcPort;
               DestinationAddr := newIPAddr tp dst dstPort;
               rawTLVs := rawTLVs header |}, (N - 12)%nat))%reader
    else if Transport.IsIPv6 tp then
      (addr <- orFail (limitedReadFull N 36) ErrInvalidAddress ;;
       let src := slice addr 0 16 in
       let dst := slice addr 16 32 in
       let srcPort := Uint16 (idx addr 32) (idx addr 33) in
       let dstPort := Uint16 (idx addr 34) (idx addr 35) in
       ret ({| Version := Version header; Command := Command header;
               TransportProtocol := tp;
               SourceAddr := newIPAddr tp src srcPort;
               DestinationAddr := newIPAddr tp dst dstPort;
               rawTLVs := rawTLVs header |}, (N - 36)%nat))%reader
    else if Transport.IsUnix tp then
      (addr <- orFail (limitedReadFull N 216) ErrInvalidAddress ;;
       let network :=
         if Transport.IsDatagram tp then "unixgram"%string else "unix"%string in
       ret ({| Version := Version header; Command := Command header;
               TransportProtocol := tp;
               SourceAddr :=
                 Some (UnixAddr network (parseUnixName (slice addr 0 108)));
               DestinationAddr :=
                 Some (UnixAddr network (parseUnixName (slice addr 108 216)));
               rawTLVs := rawTLVs header |}, (N - 216)%nat))%reader
    else ret (header, N)
  else ret (header, N).

(** The copy of the TLV vector at the end of [parseVersion2].  A read that
    ends in [io.EOF] is not an error for the code: the header is returned
    with the zeroed buffer. *)
Definition readRawTLVs (header : Header) (remainingLength : nat) : M Header :=
  let withTLVs (tlvs : list byte) :=
    {| Version := Version header; Command := Command header;
       TransportProtocol := TransportProtocol header;
       SourceAddr := SourceAddr header;
       DestinationAddr := DestinationAddr header;
       rawTLVs := tlvs |} in
  if (0 <? remainingLength)%nat then
    fun r =>
      match limitedReadFull remainingLength remainingLength r with
      | (Ok tlvs, r') => (Ok (withTLVs tlvs), r')
      | (Err e, r') =>
        if error_eqb e EOF
        then (Ok (withTLVs (repeat x00 remainingLength)), r')
        else (Err e, r')
      end
  else ret header.

Definition parseVersion2 : M Header :=
  (skipSignature 12 ;;;
   b13 <- orFail ReadByte ErrCantReadProtocolVersionAndCommand ;;
   if negb (supportedCommand b13)
   then fail ErrUnsupportedProtocolVersionAndCommand else
   b14 <- orFail ReadByte ErrCantReadAddressFamilyAndProtocol ;;
   if Byte.eqb b14 UNSPEC && negb (Byte.eqb b13 LOCAL)
   then fail ErrUnsupportedAddressFamilyAndProtocol else
   let header :=
     {| Version := 2; Command := b13; TransportProtocol := b14;
        SourceAddr := None; DestinationAddr := None; rawTLVs := [] |} in
   lengthBytes <- orFail (ReadFull 2) ErrCantReadLength ;;
   let length := Uint16 (idx lengthBytes 0) (idx lengthBytes 1) in
   if negb (validateLength header length) then fail ErrInvalidLength else
   if length =? 0 then ret header else
   orFail (Peek (Z.to_nat length)) ErrInvalidLength ;;;
   hn <- parseAddresses header (Z.to_nat length) ;;
   readRawTLVs (fst hn) (snd hn))%reader.

(** [formatUnixNameZeroCopy]: the path in a field of 108 bytes, cut if it
    is longer and followed by zero bytes if it is shorter. *)
Definition formatUnixNameZeroCopy (name : list byte) : list byte :=
  let nameLen := Nat.min 108 (length name) in
  firstn nameLen name ++ repeat x00 (108 - nameLen).

(** The length field for a family whose fixed block is [baseLength] bytes:
    the three identical computations of [formatVersion2]. *)
Definition lengthWithTLVs (baseLength : Z) (header : Header) : result Z :=
  let totalLength := baseLength in
  if 0 <? len (rawTLVs header) then
    let newLength := totalLength + len (rawTLVs header) in
    if newLength >? MaxUint16 then Err errUint16Overflow
    else Ok (uint16 newLength)
  else Ok totalLength.

(** The ports, when the header has them. *)
Definition appendPorts (result : list byte) (header : Header) : list byte :=
  match Ports header with
  | (sourcePort, destPort, true) =>
    result ++ PutUint16 (uint16 sourcePort) ++ PutUint16 (uint16 destPort)
  | _ => result
  end.

Definition appendTLVs (result : list byte) (header : Header) : list byte :=
  if 0 <? len (rawTLVs header) then result ++ rawTLVs header else result.

(** [putUnixAddrSlice], which [formatVersion2] defers on the two path
    fields of a Unix header.  The capacity of a slice is not modelled: the
    function is called on the slices of [formatUnixNameZeroCopy] only, whose
    108 bytes are the whole of a pooled buffer, and a slice of 108 bytes or
    more passes its test [cap(slice) >= 108].  It then converts the address
    of a variable that holds one pointer into a [*[]byte] and hands it to
    [putUnixAddrBuffer]: the length over which the buffer is cleared, and
    the length and capacity with which it is kept in the pool, are read
    from the memory that follows this variable.  Go defines no outcome for
    this, neither for the call nor for a later one that takes the buffer
    from the pool and slices it to 108 bytes: [None] stands for it.  A
    shorter slice is left alone. *)
Definition putUnixAddrSlice (slice : list byte) : option unit :=
  if (108 <=? length slice)%nat then None else Some tt.

(** [formatVersion2].  The size computed up front only sets the capacity of
    the output buffer and is left out.  In the branch of the Unix
    transports the two path fields, which are never nil, are returned to
    their pool by a deferred function, which runs after the result has been
    computed and on every way out of the branch once the two addresses have
    been found; the result of the call is [None] where that function has no
    defined outcome. *)
Definition formatVersion2 (header : Header) : option (result (list byte)) :=
  let tp := TransportProtocol header in
  let result0 :=
    SIGV2 ++ [Command.toByte (Command header)] ++ [Transport.toByte tp] in
  if Transport.IsIPv4 tp then
    let '(sourceIP, destIP, _) := IPs header in
    let addrSrc := To4 sourceIP in
    let addrDst := To4 destIP in
    match lengthWithTLVs lengthV4 header with
    | Err e => Some (Err e)
    | Ok totalLength =>
      let result1 := result0 ++ PutUint16 totalLength in
      match addrSrc, addrDst with
      | Some src, Some dst =>
        Some (Ok (appendTLVs (appendPorts (result1 ++ src ++ dst) header)
                    header))
      | _, _ => Some (Err ErrInvalidAddress)
      end
    end
  else if Transport.IsIPv6 tp then
    let '(sourceIP, destIP, _) := IPs header in
    let addrSrc := To16 sourceIP in
    let addrDst := To16 destIP in
    match lengthWithTLVs lengthV6 header with
    | Err e => Some (Err e)
    | Ok totalLength =>
      let result1 := result0 ++ PutUint16 totalLength in
      match addrSrc, addrDst with
      | Some src, Some dst =>
        Some (Ok (appendTLVs (appendPorts (result1 ++ src ++ dst) header)
                    header))
      | _, _ => Some (Err ErrInvalidAddress)
      end
    end
  else if Transport.IsUnix tp then
    let '(sourceName, destName, ok) := UnixAddrs header in
    if negb ok then Some (Err ErrInvalidAddress) else
    let addrSrc := formatUnixNameZeroCopy sourceName in
    let addrDst := formatUnixNameZeroCopy destName in
    let returned :=
      match lengthWithTLVs lengthUnix header with
      | Err e => Err e
      | Ok totalLength =>
        let result1 := result0 ++ PutUint16 totalLength in
        Ok (appendTLVs (appendPorts (result1 ++ addrSrc ++ addrDst) header)
              header)
      end in
    match putUnixAddrSlice addrSrc with
    | None => None
    | Some _ =>
      match putUnixAddrSlice addrDst with
      | None => None
      | Some _ => Some returned
      end
    end
  else
    let length :=
      if 0 <? len (rawTLVs header) then uint16 (len (rawTLVs header)) else 0 in
    if (0 <? len (rawTLVs header)) && (length >? MaxUint16)
    then Some (Err errUint16Overflow)
    else Some (Ok (appendTLVs (result0 ++ PutUint16 length) header)).

(** [addTLVLen]: the length field [cur] plus the length of a TLV vector.
    [None] is the panic of [binary.BigEndian.Uint16] on a slice of fewer
    than two bytes. *)
Definition addTLVLen (cur : list byte) (tlvLen : Z)
  : option (result (list byte)) :=
  if tlvLen =? 0 then Some (Ok cur) else
  if (length cur <? 2)%nat then None else
  let curLen := Uint16 (idx cur 0) (idx cur 1) in
  let newLen := curLen + tlvLen in
  if newLen >=? 65536 then Some (Err errUint16Overflow)
  else Some (Ok (PutUint16 (uint16 newLen))).

(* ------------------------------------------------------------------ *)
(** ** The version 1 codec (v1.go) *)

(** *** What the codec takes from Go's standard library *)

(** [strings.Split(s, sep)] for a separator of one byte: the pieces of [s]
    between the separators, at least one. *)
Fixpoint Split (s : list byte) (sep : byte) : list (list byte) :=
  match s with
  | [] => [[]]
  | c :: rest =>
    if Byte.eqb c sep then [] :: Split rest sep
    else match Split rest sep with
         | token :: tokens => (c :: token) :: tokens
         | [] => [[c]]
         end
  end.

(** The value of a decimal digit ([ch -= '0'; ch > 9] is the test for
    anything else). *)
Definition digitValue (ch : byte) : option Z :=
  let v := byte_to_Z ch - 48 in
  if (0 <=? v) && (v <=? 9) then Some v else None.

Fixpoint digitsValue (s : list byte) (n : Z) : option Z :=
  match s with
  | [] => Some n
  | ch :: rest =>
    match digitValue ch with
    | Some d => digitsValue rest (n * 10 + d)
    | None => None
    end
  end.

(** [strconv.Atoi] with a 64-bit [int]: an optional sign and at least one
    decimal digit; [None] is its error (a syntax error, or a value out of
    range). *)
Definition Atoi (s : list byte) : option Z :=
  match s with
  | [] => None
  | c :: rest =>
    let neg := Byte.eqb c x2d in
    let body := if neg || Byte.eqb c x2b then rest else s in
    match body with
    | [] => None
    | _ =>
      match digitsValue body 0 with
      | Some n =>
        let v := if neg then - n else n in
        if (- 2 ^ 63 <=? v) && (v <? 2 ^ 63) then Some v else None
      | None => None
      end
    end
  end.

(** The decimal digits of a number that is not negative, the most
    significant first; [fuel] bounds their number. *)
Fixpoint utoa (fuel : nat) (n : Z) : list byte :=
  match fuel with
  | O => []
  | S fuel' =>
    if n <? 10 then [byte_of_Z (48 + n)]
    else utoa fuel' (n / 10) ++ [byte_of_Z (48 + n mod 10)]
  end.

(** [strconv.Itoa] on a 64-bit [int], which has at most nineteen digits. *)
Definition Itoa (i : Z) : list byte :=
  if i <? 0 then x2d :: utoa 19 (- i) else utoa 19 i.

(** A [netip.Addr] as the codec looks at it: its family ([Is4], [Is6]) and
    its bytes ([AsSlice]), four or sixteen; an address of the form
    [::ffff:a.b.c.d] ([Is4In6]) is one of the second kind. *)
Inductive netipAddr : Type :=
  | Addr4 (a : IP)
  | Addr6 (a : IP).

(** The buffered reader as [parseVersion1] sees it.  [parseVersion1] asks
    how many bytes are in the buffer, so that the reads of the source show:
    [buffered] is what the buffer holds, [incoming] what the next reads of
    the source return, in order, and [endErr] the error that comes after
    them.  A read of the source returns at least one byte or fails, as the
    reads of a [net.Conn] do: an element of [incoming] is the first byte of
    a read and the bytes that follow it. *)
Record BufReader : Type := mkBufReader {
  buffered : list byte;
  incoming : list (byte * list byte);
  endErr : error
}.

(** The buffer is empty: [fill] reads the source once. *)
Definition fillByte (chunks : list (byte * list byte)) (e : error)
  : result byte * BufReader :=
  match chunks with
  | [] => (Err e, mkBufReader [] [] e)
  | (b, chunk) :: rest => (Ok b, mkBufReader chunk rest e)
  end.

(** [bufio.Reader.ReadByte] and [bufio.Reader.Buffered]. *)
Definition BufReader_ReadByte (r : BufReader) : result byte * BufReader :=
  match buffered r with
  | b :: tl => (Ok b, mkBufReader tl (incoming r) (endErr r))
  | [] => fillByte (incoming r) (endErr r)
  end.

Definition Buffered (r : BufReader) : nat := length (buffered r).

(** *** The codec *)

(** The errors of [parseVersion1]: the error values of the package, and
    the error that [fmt.Errorf] makes of the text of
    [ErrCantReadVersion1Header] and of the error of a failed read, which is
    none of them. *)
Inductive errorV1 : Type :=
  | V1 (err : error)
  | V1ReadFailed (cause : error).

Inductive resultV1 (A : Type) : Type :=
  | OkV1 (a : A)
  | ErrV1 (e : errorV1).

Arguments OkV1 {A} a.
Arguments ErrV1 {A} e.

Definition crlf : list byte := [x0d; x0a].
Definition separator : byte := x20.

Definition TCP4 : list byte := list_byte_of_string "TCP4".
Definition TCP6 : list byte := list_byte_of_string "TCP6".
Definition UNKNOWN : list byte := list_byte_of_string "UNKNOWN".

Definition initVersion1 : Header :=
  {| Version := 1; Command := PROXY; TransportProtocol := UNSPEC;
     SourceAddr := None; DestinationAddr := None; rawTLVs := [] |}.

(** The loop of [parseVersion1] that reads the line; [buf] is the pooled
    buffer, empty when the function starts.  The loop returns at the latest
    when [buf] holds 107 bytes: [fuel] counts the turns that are left until
    then, and its end is not reached. *)
Fixpoint readLine (fuel : nat) (buf : list byte) (reader : BufReader)
  : resultV1 (list byte) * BufReader :=
  match fuel with
  | O => (ErrV1 (V1 ErrVersion1HeaderTooLong), reader)
  | S fuel' =>
    match BufReader_ReadByte reader with
    | (Err err, reader1) => (ErrV1 (V1ReadFailed err), reader1)
    | (Ok b, reader1) =>
      let buf1 := buf ++ [b] in
      if Byte.eqb b x0a then (OkV1 buf1, reader1)
      else if (length buf1 =? 107)%nat
      then (ErrV1 (V1 ErrVersion1HeaderTooLong), reader1)
      else if (Buffered reader1 =? 0)%nat
      then (ErrV1 (V1 ErrCantReadVersion1Header), reader1)
      else readLine fuel' buf1 reader1
    end
  end.

Definition parseV1PortNumber (portStr : list byte) : result Z :=
  match Atoi portStr with
  | Some port =>
    if (port <? 0) || (port >? 65535) then Err ErrInvalidPortNumber
    else Ok port
  | None => Err ErrInvalidPortNumber
  end.

Section Version1.

(** [netip.ParseAddr] and [net.IP.String] are parameters of the codec;
    [None] is the error of the first. *)
Variable ParseAddr : list byte -> option netipAddr.
Variable IPString : IP -> list byte.

Definition parseV1IPAddress (protocol : AddressFamilyAndProtocol)
           (addrStr : list byte) : result IP :=
  match ParseAddr addrStr with
  | None => Err ErrInvalidAddress
  | Some addr =>
    if Byte.eqb protocol TCPv4 then
      match addr with
      | Addr4 a => Ok a
      | Addr6 _ => Err ErrInvalidAddress
      end
    else if Byte.eqb protocol TCPv6 then
      match addr with
      | Addr6 a => Ok a
      | Addr4 _ => Err ErrInvalidAddress
      end
    else Err ErrInvalidAddress
  end.

(** The part of [parseVersion1] that follows the split of the line into
    [tokens]. *)
Definition parseTokens (tokens : list (list byte)) : resultV1 Header :=
  if (length tokens <? 2)%nat
  then ErrV1 (V1 ErrCantReadAddressFamilyAndProtocol) else
  let token i := nth i tokens [] in
  let transport :=
    if bytes_eqb (token 1%nat) TCP4 then Some TCPv4
    else if bytes_eqb (token 1%nat) TCP6 then Some TCPv6
    else if bytes_eqb (token 1%nat) UNKNOWN then Some UNSPEC
    else None in
  match transport with
  | None => ErrV1 (V1 ErrCantReadAddressFamilyAndProtocol)
  | Some transportProtocol =>
    if negb (Byte.eqb transportProtocol UNSPEC) && (length tokens <? 6)%nat
    then ErrV1 (V1 ErrCantReadAddressFamilyAndProtocol) else
    if Byte.eqb transportProtocol UNSPEC then
      OkV1 {| Version := Version initVersion1; Command := LOCAL;
              TransportProtocol := transportProtocol;
              SourceAddr := None; DestinationAddr := None; rawTLVs := [] |}
    else
      match parseV1IPAddress transportProtocol (token 2%nat) with
      | Err err => ErrV1 (V1 err)
      | Ok sourceIP =>
        match parseV1IPAddress transportProtocol (token 3%nat) with
        | Err err => ErrV1 (V1 err)
        | Ok destIP =>
          match parseV1PortNumber (token 4%nat) with
          | Err err => ErrV1 (V1 err)
          | Ok sourcePort =>
            match parseV1PortNumber (token 5%nat) with
            | Err err => ErrV1 (V1 err)
            | Ok destPort =>
              OkV1 {| Version := Version initVersion1;
                      Command := Command initVersion1;
                      TransportProtocol := transportProtocol;
                      SourceAddr := Some (TCPAddr sourceIP sourcePort);
                      DestinationAddr := Some (TCPAddr destIP destPort);
                      rawTLVs := [] |}
            end
          end
        end
      end
  end.

(** The part of [parseVersion1] that follows the loop: the line [buf],
    with its line feed, is examined. *)
Definition parseLine (buf : list byte) : resultV1 Header :=
  if (length buf <? 2)%nat
     || negb (Byte.eqb (idx buf (length buf - 2)) x0d)
  then ErrV1 (V1 ErrLineMustEndWithCrlf)
  else parseTokens (Split (firstn (length buf - 2) buf) separator).

Definition parseVersion1 (reader : BufReader) : resultV1 Header * BufReader :=
  match readLine 107 [] reader with
  | (ErrV1 e, reader1) => (ErrV1 e, reader1)
  | (OkV1 buf, reader1) => (parseLine buf, reader1)
  end.

Definition formatVersion1 (header : Header) : result (list byte) :=
  let tp := TransportProtocol header in
  if negb (Byte.eqb tp TCPv4) && negb (Byte.eqb tp TCPv6)
  then Ok (SIGV1 ++ [separator] ++ UNKNOWN ++ crlf) else
  match SourceAddr header, DestinationAddr header with
  | Some (TCPAddr srcIP srcPort), Some (TCPAddr dstIP dstPort) =>
    let converted :=
      if Byte.eqb tp TCPv4 then (To4 srcIP, To4 dstIP)
      else (To16 srcIP, To16 dstIP) in
    match converted with
    | (Some sourceIP, Some destIP) =>
      Ok (SIGV1 ++ [separator]
            ++ (if Byte.eqb tp TCPv4 then TCP4 else TCP6)
            ++ [separator] ++ IPString sourceIP
            ++ [separator] ++ IPString destIP
            ++ [separator] ++ Itoa srcPort
            ++ [separator] ++ Itoa dstPort
            ++ crlf)
    | _ => Err ErrInvalidAddress
    end
  | _, _ => Err ErrInvalidAddress
  end.

End Version1.

(* ------------------------------------------------------------------ *)
(** ** Platforms (optimizations.go and the per-architecture files) *)

Inductive GOARCH : Type := amd64 | arm64 | otherArch.
Inductive GOOS : Type := linux | darwin | windows | otherOS.

Definition amd64GetOptimalBufferSize (os : GOOS) : nat :=
  match os with
  | linux => 4096
  | darwin => 16 * 1024
  | windows => 8 * 1024
  | otherOS => 8 * 1024
  end.

Definition arm64GetOptimalBufferSize (os : GOOS) : nat :=
  match os with
  | linux => 4096
  | darwin => 16 * 1024
  | windows => 8 * 1024
  | otherOS => 8 * 1024
  end.

Definition genericGetOptimalBufferSize (os : GOOS) : nat :=
  match os with
  | linux => 8 * 1024
  | darwin => 8 * 1024
  | windows => 4 * 1024
  | otherOS => 4 * 1024
  end.

Definition GetOptimalBufferSize (arch : GOARCH) (os : GOOS) : nat :=
  match arch with
  | amd64 => amd64GetOptimalBufferSize os
  | arm64 => arm64GetOptimalBufferSize os
  | otherArch => genericGetOptimalBufferSize os
  end.

(* ------------------------------------------------------------------ *)
(** ** The connection wrapper (protocol.go) *)

(** Modelled from the spec: policy.go is not under src/.  The policies, in
    the order of the specification; the first is the zero value. *)
Inductive Policy : Type := USE | IGNORE | REJECT | REQUIRE | SKIP.

(** [time.Time] and [time.Duration] in nanoseconds; the zero [time.Time]
    means no deadline. *)
Abbreviation Time := Z (only parsing).
Abbreviation Duration := Z (only parsing).

Definition zeroTime : Time := 0.
Definition Second : Duration := 1000000000.
Definition DefaultReadHeaderTimeout : Duration := 10 * Second.

(** The underlying [net.Conn]: its two addresses, its read deadline, the
    bytes its peer delivers and the error that ends them, and the error of
    [SetReadDeadline], if it has one (a closed connection). *)
Record NetConn : Type := mkNetConn {
  connLocalAddr : option Addr;
  connRemoteAddr : option Addr;
  connReadDeadline : Time;
  connDeadlineErr : option error;
  connStream : list byte;
  connStreamErr : error
}.

Definition NetConn_SetReadDeadline (c : NetConn) (t : Time)
  : option error * NetConn :=
  match connDeadlineErr c with
  | Some err => (Some err, c)
  | None =>
    (None,
     {| connLocalAddr := connLocalAddr c; connRemoteAddr := connRemoteAddr c;
        connReadDeadline := t; connDeadlineErr := None;
        connStream := connStream c; connStreamErr := connStreamErr c |})
  end.

Definition Validator : Type := Header -> option error.

(** What the wrapper does to the underlying connection, in order. *)
Inductive Event : Type :=
  | EvSetReadDeadline (t : Time)
  | EvReadHeader
  | EvReadPayload (n : nat).

(** [Conn].  [once] is the state of the [sync.Once]; [reader] is not a
    field of its own: the bytes it delivers are those of [bufReader].
    [trace] is not in the code: it records the operations on the
    underlying connection. *)
Record Conn : Type := mkConn {
  readDeadline : option Time;
  once : bool;
  readErr : option error;
  conn : NetConn;
  bufReader : Reader;
  header : option Header;
  ProxyHeaderPolicy : Policy;
  Validate : option Validator;
  readHeaderTimeout : Duration;
  trace : list Event
}.

Definition setConn (p : Conn) (c : NetConn) (ev : list Event) : Conn :=
  {| readDeadline := readDeadline p; once := once p; readErr := readErr p;
     conn := c; bufReader := bufReader p; header := header p;
     ProxyHeaderPolicy := ProxyHeaderPolicy p; Validate := Validate p;
     readHeaderTimeout := readHeaderTimeout p; trace := trace p ++ ev |}.

Definition setBufReader (p : Conn) (br : Reader) (ev : list Event) : Conn :=
  {| readDeadline := readDeadline p; once := once p; readErr := readErr p;
     conn := conn p; bufReader := br; header := header p;
     ProxyHeaderPolicy := ProxyHeaderPolicy p; Validate := Validate p;
     readHeaderTimeout := readHeaderTimeout p; trace := trace p ++ ev |}.

Definition setHeader (p : Conn) (h : Header) : Conn :=
  {| readDeadline := readDeadline p; once := once p; readErr := readErr p;
     conn := conn p; bufReader := bufReader p; header := Some h;
     ProxyHeaderPolicy := ProxyHeaderPolicy p; Validate := Validate p;
     readHeaderTimeout := readHeaderTimeout p; trace := trace p |}.

Definition setReadDeadlineField (p : Conn) (t : Time) : Conn :=
  {| readDeadline := Some t; once := once p; readErr := readErr p;
     conn := conn p; bufReader := bufReader p; header := header p;
     ProxyHeaderPolicy := ProxyHeaderPolicy p; Validate := Validate p;
     readHeaderTimeout := readHeaderTimeout p; trace := trace p |}.

(** Modelled from the spec: policy.go is not under src/.  The option that
    sets the policy of a connection. *)
Definition WithPolicy (policy : Policy) (p : Conn) : Conn :=
  {| readDeadline := readDeadline p; once := once p; readErr := readErr p;
     conn := conn p; bufReader := bufReader p; header := header p;
     ProxyHeaderPolicy := policy; Validate := Validate p;
     readHeaderTimeout := readHeaderTimeout p; trace := trace p |}.

Definition ValidateHeader (v : option Validator) (p : Conn) : Conn :=
  match v with
  | Some _ =>
    {| readDeadline := readDeadline p; once := once p; readErr := readErr p;
       conn := conn p; bufReader := bufReader p; header := header p;
       ProxyHeaderPolicy := ProxyHeaderPolicy p; Validate := v;
       readHeaderTimeout := readHeaderTimeout p; trace := trace p |}
  | None => p
  end.

Definition SetReadHeaderTimeout (t : Duration) (p : Conn) : Conn :=
  if t >=? 0 then
    {| readDeadline := readDeadline p; once := once p; readErr := readErr p;
       conn := conn p; bufReader := bufReader p; header := header p;
       ProxyHeaderPolicy := ProxyHeaderPolicy p; Validate := Validate p;
       readHeaderTimeout := t; trace := trace p |}
  else p.

Definition setReadHeaderTimeout (p : Conn) (t : Duration) : Conn :=
  {| readDeadline := readDeadline p; once := once p; readErr := readErr p;
     conn := conn p; bufReader := bufReader p; header := header p;
     ProxyHeaderPolicy := ProxyHeaderPolicy p; Validate := Validate p;
     readHeaderTimeout := t; trace := trace p |}.

Section Wrapper.

(** The platform the library is built for. *)
Variables (arch : GOARCH) (os : GOOS).

(** The version 1 parser ([parseVersion1]) is a parameter of the wrapper:
    the properties below are about streams that carry a version 2 header or
    none. *)
Variable parseVersion1 : M Header.

(** [getReader]: a pooled [bufio.Reader] of the size of the platform, reset
    to read from the connection. *)
Definition getReader (c : NetConn) : Reader :=
  {| bufSize := GetOptimalBufferSize arch os;
     pending := connStream c; srcErr := connStreamErr c |}.

(** [NewConn]: the zero values of the fields, then the options in order. *)
Definition NewConn (c : NetConn) (opts : list (Conn -> Conn)) : Conn :=
  fold_left (fun p opt => opt p) opts
    {| readDeadline := None; once := false; readErr := None;
       conn := c; bufReader := getReader c; header := None;
       ProxyHeaderPolicy := USE; Validate := None;
       readHeaderTimeout := 0; trace := [] |}.

(** What [Read] makes of a failed peek: a stream that ends is not a PROXY
    stream; any other error is passed on. *)
Definition peekFailure (err : error) : error :=
  if error_eqb err EOF then ErrNoProxyProtocol else err.

(** Modelled from the spec: header.go is not under src/.  [Read]
    classifies the stream by peeking, without consuming: a first byte ['P']
    and the six bytes ["PROXY "] dispatch to version 1, the twelve bytes of
    the signature to version 2, anything else is [ErrNoProxyProtocol]. *)
Definition Read : M Header :=
  fun r =>
    match Peek 1 r with
    | (Err err, _) => (Err (peekFailure err), r)
    | (Ok b1, _) =>
      if bytes_eqb b1 (firstn 1 SIGV1) then
        match Peek 6 r with
        | (Err err, _) => (Err (peekFailure err), r)
        | (Ok six, _) =>
          if bytes_eqb six (SIGV1 ++ [x20]) then parseVersion1 r
          else (Err ErrNoProxyProtocol, r)
        end
      else if bytes_eqb b1 (firstn 1 SIGV2) then
        match Peek 12 r with
        | (Err err, _) => (Err (peekFailure err), r)
        | (Ok signature, _) =>
          if bytes_eqb signature SIGV2 then parseVersion2 r
          else (Err ErrNoProxyProtocol, r)
        end
      else (Err ErrNoProxyProtocol, r)
    end.

(** The blocks of [readHeader], in the order of the code; [now] is what
    [time.Now()] returns. *)

(** The deadline to restore: the one stored by [SetReadDeadline], if a
    header timeout is set and one was stored. *)
Definition storedDeadline (p : Conn) : Time :=
  match readDeadline p with
  | Some t => t
  | None => zeroTime
  end.

Definition origDeadlineOf (p : Conn) : Time :=
  if readHeaderTimeout p >? 0 then storedDeadline p else zeroTime.

(** The temporary deadline for the header read. *)
Definition installDeadline (now : Time) (p : Conn) : option error * Conn :=
  if readHeaderTimeout p >? 0 then
    let newDeadline := now + readHeaderTimeout p in
    let '(err, c) := NetConn_SetReadDeadline (conn p) newDeadline in
    (err, setConn p c [EvSetReadDeadline newDeadline])
  else (None, p).

(** The deadline is reset if it was changed; the error of the reset is
    ignored. *)
Definition restoreDeadline (p : Conn) (origDeadline : Time) : Conn :=
  if readHeaderTimeout p >? 0 then
    setConn p (snd (NetConn_SetReadDeadline (conn p) origDeadline))
      [EvSetReadDeadline origDeadline]
  else p.

(** A timeout error becomes [ErrNoProxyProtocol], if a header timeout is
    set. *)
Definition translateTimeout (p : Conn) (err : option error) : option error :=
  if readHeaderTimeout p >? 0 then
    match err with
    | Some netErr => if isTimeout netErr then Some ErrNoProxyProtocol else err
    | None => None
    end
  else err.

(** The part of [readHeader] that follows the read: the policy applied to
    the header and the error that the read gave. *)
Definition applyPolicy (p : Conn) (hdr : option Header) (err : option error)
  : option error * Conn :=
  match err with
  | Some ErrNoProxyProtocol =>
    match ProxyHeaderPolicy p with
    | REQUIRE => (err, p)
    | _ => (None, p)
    end
  | _ =>
    match err, hdr with
    | None, Some h =>
      match ProxyHeaderPolicy p with
      | REJECT => (Some ErrSuperfluousProxyHeader, p)
      | USE | REQUIRE =>
        match Validate p with
        | Some validate =>
          match validate h with
          | Some validateErr => (Some validateErr, p)
          | None => (err, setHeader p h)
          end
        | None => (err, setHeader p h)
        end
      | _ => (err, p)
      end
    | _, _ => (err, p)
    end
  end.

(** The two results [header, err := Read(p.bufReader)]. *)
Definition headerOf (res : result Header) : option Header :=
  match res with Ok h => Some h | Err _ => None end.

Definition errorOf (res : result Header) : option error :=
  match res with Ok _ => None | Err err => Some err end.

Definition readHeader (now : Time) (p : Conn) : option error * Conn :=
  let origDeadline := origDeadlineOf p in
  match installDeadline now p with
  | (Some err, p1) => (Some err, p1)
  | (None, p1) =>
    let '(res, br) := Read (bufReader p1) in
    let p2 := setBufReader p1 br [EvReadHeader] in
    let p3 := restoreDeadline p2 origDeadline in
    applyPolicy p3 (headerOf res) (translateTimeout p3 (errorOf res))
  end.

(** [p.once.Do(func() { p.readErr = p.readHeader() })].  The closure of
    [Conn.Read] also replaces [p.reader] by the connection when the buffer
    is empty, which does not change the bytes delivered. *)
Definition onceReadHeader (now : Time) (p : Conn) : Conn :=
  if once p then p
  else
    let '(err, p1) := readHeader now p in
    {| readDeadline := readDeadline p1; once := true; readErr := err;
       conn := conn p1; bufReader := bufReader p1; header := header p1;
       ProxyHeaderPolicy := ProxyHeaderPolicy p1; Validate := Validate p1;
       readHeaderTimeout := readHeaderTimeout p1; trace := trace p1 |}.

(** [Conn.Read] into a buffer of [n] bytes: the bytes read, or the error.
    A read delivers the bytes that are there, up to [n]. *)
Definition Conn_Read (now : Time) (n : nat) (p : Conn)
  : result (list byte) * Conn :=
  let p1 := onceReadHeader now p in
  match readErr p1 with
  | Some err => (Err err, p1)
  | None =>
    let r := bufReader p1 in
    if (0 <? n)%nat && (length (pending r) =? 0)%nat
    then (Err (srcErr r), setBufReader p1 r [EvReadPayload 0])
    else
      let k := Nat.min n (length (pending r)) in
      (Ok (firstn k (pending r)),
       setBufReader p1 (advance r k) [EvReadPayload k])
  end.

Definition Conn_ProxyHeader (now : Time) (p : Conn) : option Header * Conn :=
  let p1 := onceReadHeader now p in
  (header p1, p1).

Definition Conn_LocalAddr (now : Time) (p : Conn) : option Addr * Conn :=
  let p1 := onceReadHeader now p in
  match header p1, readErr p1 with
  | Some h, None =>
    if Command.IsLocal (Command h) then (connLocalAddr (conn p1), p1)
    else (DestinationAddr h, p1)
  | _, _ => (connLocalAddr (conn p1), p1)
  end.

Definition Conn_RemoteAddr (now : Time) (p : Conn) : option Addr * Conn :=
  let p1 := onceReadHeader now p in
  match header p1, readErr p1 with
  | Some h, None =>
    if Command.IsLocal (Command h) then (connRemoteAddr (conn p1), p1)
    else (SourceAddr h, p1)
  | _, _ => (connRemoteAddr (conn p1), p1)
  end.

(** [Conn.SetReadDeadline] and [Conn.SetDeadline] store the deadline and
    pass it on. *)
Definition Conn_SetReadDeadline (t : Time) (p : Conn) : option error * Conn :=
  let p1 := setReadDeadlineField p t in
  let '(err, c) := NetConn_SetReadDeadline (conn p1) t in
  (err, setConn p1 c [EvSetReadDeadline t]).

Definition Conn_SetDeadline (t : Time) (p : Conn) : option error * Conn :=
  Conn_SetReadDeadline t p.

(** The calls a user makes on a wrapped connection, and the connection
    after a sequence of them; each call comes with the time it is made
    at. *)
Inductive Call : Type :=
  | CallRead (n : nat)
  | CallProxyHeader
  | CallLocalAddr
  | CallRemoteAddr
  | CallSetReadDeadline (t : Time)
  | CallSetDeadline (t : Time).

Definition call (now : Time) (c : Call) (p : Conn) : Conn :=
  match c with
  | CallRead n => snd (Conn_Read now n p)
  | CallProxyHeader => snd (Conn_ProxyHeader now p)
  | CallLocalAddr => snd (Conn_LocalAddr now p)
  | CallRemoteAddr => snd (Conn_RemoteAddr now p)
  | CallSetReadDeadline t => snd (Conn_SetReadDeadline t p)
  | CallSetDeadline t => snd (Conn_SetDeadline t p)
  end.

Definition calls (cs : list (Time * Call)) (p : Conn) : Conn :=
  fold_left (fun q tc => call (fst tc) (snd tc) q) cs p.

(** The number of header reads in a trace. *)
Definition headerReads (evs : list Event) : nat :=
  length (filter (fun ev => match ev with
                            | EvReadHeader => true
                            | _ => false
                            end) evs).

(* ------------------------------------------------------------------ *)
(** ** The listener (protocol.go) *)

Definition PolicyFunc : Type := option Addr -> Policy * option error.

Record ConnPolicyOptions : Type := mkConnPolicyOptions {
  Upstream : option Addr;
  Downstream : option Addr
}.

Definition ConnPolicyFunc : Type := ConnPolicyOptions -> Policy * option error.

Record Listener : Type := mkListener {
  Listener_Policy : option PolicyFunc;
  Listener_ConnPolicy : option ConnPolicyFunc;
  Listener_ValidateHeader : option Validator;
  ReadHeaderTimeout : Duration
}.

(** The outcome of [Accept]: a wrapped connection, the raw connection (for
    [SKIP]), an error, the panic, or no outcome when the underlying
    listener has nothing more to give.  The second component of the result
    of [Accept] lists the connections it closed. *)
Inductive Accepted : Type :=
  | Wrapped (p : Conn)
  | Raw (c : NetConn)
  | AcceptErr (err : error)
  | AcceptPanic (msg : string)
  | AcceptBlocked.

(** [errors.Is(policyErr, ErrInvalidUpstream)]. *)
Definition isInvalidUpstream (err : error) : bool :=
  error_eqb err ErrInvalidUpstream.

(** [Listener.Accept]; [incoming] is what the successive calls of the
    underlying [Accept] return. *)
Fixpoint Accept (l : Listener) (incoming : list (result NetConn))
  (closed : list NetConn) : Accepted * list NetConn :=
  match incoming with
  | [] => (AcceptBlocked, closed)
  | Err err :: _ => (AcceptErr err, closed)
  | Ok c :: rest =>
    let wrap (proxyHeaderPolicy : Policy) :=
      let newConn :=
        NewConn c [WithPolicy proxyHeaderPolicy;
                   ValidateHeader (Listener_ValidateHeader l)] in
      let timeout :=
        if ReadHeaderTimeout l =? 0 then DefaultReadHeaderTimeout
        else ReadHeaderTimeout l in
      (Wrapped (setReadHeaderTimeout newConn timeout), closed) in
    match Listener_Policy l, Listener_ConnPolicy l with
    | Some _, Some _ =>
      (AcceptPanic "only one of policy or connpolicy must be provided.", closed)
    | None, None => wrap USE
    | policy, connPolicy =>
      let '(proxyHeaderPolicy, policyErr) :=
        match policy, connPolicy with
        | Some f, _ => f (connRemoteAddr c)
        | None, Some f =>
          f {| Upstream := connRemoteAddr c; Downstream := connLocalAddr c |}
        | None, None => (USE, None)
        end in
      match policyErr with
      | Some err =>
        if isInvalidUpstream err then Accept l rest (closed ++ [c])
        else (AcceptErr err, closed ++ [c])
      | None =>
        match proxyHeaderPolicy with
        | SKIP => (Raw c, closed)
        | _ => wrap proxyHeaderPolicy
        end
      end
    end
  end.

End Wrapper.


(* ------------------------------------------------------------------ *)
(** ** Predicates and sample values used to state the properties *)

Definition alpnAndAuthority : list TLV :=
  [ {| Type_ := PP2_TYPE_ALPN; Value := [x68; x32; x00] |};
    {| Type_ := PP2_TYPE_AUTHORITY; Value := [] |} ].

(** What the policy function of a listener says of a connection: the
    policy and the error; USE for a listener without a function. *)
Definition listenerPolicy (l : Listener) (c : NetConn) : Policy * option error :=
  match Listener_Policy l, Listener_ConnPolicy l with
  | Some f, _ => f (connRemoteAddr c)
  | None, Some f =>
    f {| Upstream := connRemoteAddr c; Downstream := connLocalAddr c |}
  | None, None => (USE, None)
  end.

(** The header-read timeout that [Accept] gives to a connection. *)
Definition listenerTimeout (l : Listener) : Duration :=
  if ReadHeaderTimeout l =? 0 then DefaultReadHeaderTimeout
  else ReadHeaderTimeout l.

(** The operations on the deadline of the socket in a trace. *)
Definition deadlineSets (evs : list Event) : nat :=
  length (filter (fun ev => match ev with
                            | EvSetReadDeadline _ => true
                            | _ => false
                            end) evs).

(** The path that survives the 108-byte field of a Unix address: what
    comes before the first NUL among the first 108 bytes. *)
Definition unixPath (name : list byte) : list byte :=
  parseUnixName (firstn 108 name).

(** The network name of the addresses that [parseVersion2] makes for a
    Unix transport. *)
Definition unixNetwork (tp : AddressFamilyAndProtocol) : string :=
  if Transport.IsDatagram tp then "unixgram"%string else "unix"%string.

(** The errors that [parseVersion2] names in its own returns, other than
    [ErrInvalidAddress]. *)
Definition v2ParseError (err : error) : bool :=
  match err with
  | ErrCantReadProtocolVersionAndCommand
  | ErrUnsupportedProtocolVersionAndCommand
  | ErrCantReadAddressFamilyAndProtocol
  | ErrUnsupportedAddressFamilyAndProtocol
  | ErrCantReadLength
  | ErrInvalidLength => true
  | _ => false
  end.

(** An ALPN entry, two NOOP entries used as padding and an AUTHORITY
    entry. *)
Definition paddedTLVs : list TLV :=
  [ {| Type_ := PP2_TYPE_ALPN; Value := [x68; x32] |};
    {| Type_ := PP2_TYPE_NOOP; Value := [x00; x00] |};
    {| Type_ := PP2_TYPE_NOOP; Value := [] |};
    {| Type_ := PP2_TYPE_AUTHORITY; Value := [x61; x2e; x62] |} ].

(** An entry whose value is 65536 bytes long. *)
Definition oversizeTLVs : list TLV :=
  [ {| Type_ := PP2_TYPE_ALPN; Value := repeat x00 (Z.to_nat 65536) |} ].

(** The family minimum of the length field, as the specification lists it. *)
Definition minLength (tp : AddressFamilyAndProtocol) : Z :=
  if Transport.IsIPv4 tp then 12
  else if Transport.IsIPv6 tp then 36
  else if Transport.IsUnix tp then 216
  else 0.

(** The fixed size of the address block of a transport. *)
Definition fixedLength (tp : AddressFamilyAndProtocol) : Z :=
  if Transport.IsIPv4 tp then lengthV4
  else if Transport.IsIPv6 tp then lengthV6
  else if Transport.IsUnix tp then lengthUnix
  else lengthUnspec.

(** A LOCAL header with no addresses and a TLV vector of 65536 bytes. *)
Definition unspecOverflowHeader : Header :=
  {| Version := 2; Command := LOCAL; TransportProtocol := UNSPEC;
     SourceAddr := None; DestinationAddr := None;
     rawTLVs := repeat x00 (Z.to_nat 65536) |}.

(** The addresses that [parseAddresses] makes of an address block. *)
Definition decodeBlock (tp : AddressFamilyAndProtocol) (addr : list byte)
  : option Addr * option Addr :=
  if negb (Byte.eqb tp UNSPEC) then
    if Transport.IsIPv4 tp then
      (newIPAddr tp (slice addr 0 4) (Uint16 (idx addr 8) (idx addr 9)),
       newIPAddr tp (slice addr 4 8) (Uint16 (idx addr 10) (idx addr 11)))
    else if Transport.IsIPv6 tp then
      (newIPAddr tp (slice addr 0 16) (Uint16 (idx addr 32) (idx addr 33)),
       newIPAddr tp (slice addr 16 32) (Uint16 (idx addr 34) (idx addr 35)))
    else if Transport.IsUnix tp then
      let network :=
        if Transport.IsDatagram tp then "unixgram"%string else "unix"%string in
      (Some (UnixAddr network (parseUnixName (slice addr 0 108))),
       Some (UnixAddr network (parseUnixName (slice addr 108 216))))
    else (None, None)
  else (None, None).

Definition validPort (p : Z) : bool := (0 <=? p) && (p <=? 65535).

Definition validUnixName (name : list byte) : bool :=
  forallb (fun c => negb (Byte.eqb c x00)) name && (length name <=? 108)%nat.

(** Two IP endpoints of the kind of the protocol ([stream]: TCP, otherwise
    UDP), with addresses of [iplen] bytes and 16-bit ports. *)
Definition ipAddrsMatch (stream : bool) (iplen : nat) (src dst : option Addr)
  : bool :=
  match src, dst with
  | Some (TCPAddr sip sp), Some (TCPAddr dip dp) =>
    stream && (length sip =? iplen)%nat && (length dip =? iplen)%nat
    && validPort sp && validPort dp
  | Some (UDPAddr sip sp), Some (UDPAddr dip dp) =>
    negb stream && (length sip =? iplen)%nat && (length dip =? iplen)%nat
    && validPort sp && validPort dp
  | _, _ => false
  end.

Definition unixAddrsMatch (network : string) (src dst : option Addr) : bool :=
  match src, dst with
  | Some (UnixAddr n1 sname), Some (UnixAddr n2 dname) =>
    String.eqb n1 network && String.eqb n2 network
    && validUnixName sname && validUnixName dname
  | _, _ => false
  end.

(** The addresses are of the kind of the transport; UNSPEC has none. *)
Definition addrsMatch (tp : AddressFamilyAndProtocol) (src dst : option Addr)
  : bool :=
  if Byte.eqb tp UNSPEC then
    match src, dst with None, None => true | _, _ => false end
  else if Byte.eqb tp TCPv4 then ipAddrsMatch true 4 src dst
  else if Byte.eqb tp UDPv4 then ipAddrsMatch false 4 src dst
  else if Byte.eqb tp TCPv6 then ipAddrsMatch true 16 src dst
  else if Byte.eqb tp UDPv6 then ipAddrsMatch false 16 src dst
  else if Byte.eqb tp UnixStream then unixAddrsMatch "unix" src dst
  else if Byte.eqb tp UnixDatagram then unixAddrsMatch "unixgram" src dst
  else false.

(** A well-formed version 2 header, as the round-trip property lists it:
    version 2, LOCAL or PROXY, a supported transport with addresses and
    ports of its kind, Unix paths without NUL and of at most 108 bytes, and
    a TLV vector that fits the length field together with the address
    block. *)
Definition wellFormedV2 (h : Header) : bool :=
  (Version h =? 2)
  && supportedCommand (Command h)
  && addrsMatch (TransportProtocol h) (SourceAddr h) (DestinationAddr h)
  && (fixedLength (TransportProtocol h) + len (rawTLVs h) <=? MaxUint16).

(** UNSPEC goes with LOCAL only. *)
Definition localIfUnspec (h : Header) : bool :=
  negb (Byte.eqb (TransportProtocol h) UNSPEC) || Byte.eqb (Command h) LOCAL.

(** What the round trip asks of a header: its bytes, followed by anything,
    parse back to it and leave what follows unread. *)
Definition roundTrips (size : nat) (e : error) (rest : list byte) (h : Header)
  : Prop :=
  exists out,
    formatVersion2 h = Some (Ok out)
    /\ parseVersion2 (mkReader size (out ++ rest) e)
       = (Ok h, mkReader size rest e).

(** The temporary deadline of the header read can be installed: no header
    timeout is set, or [SetReadDeadline] works on the connection. *)
Definition installable (p : Conn) : Prop :=
  readHeaderTimeout p <= 0 \/ connDeadlineErr (conn p) = None.

(** [q] has the settings, the stored deadline and the socket of [p]: the
    two may differ in the deadline of the socket, in the bytes left to
    read, in the header and in the latch. *)
Definition sameSettings (p q : Conn) : Prop :=
  ProxyHeaderPolicy q = ProxyHeaderPolicy p
  /\ Validate q = Validate p
  /\ readHeaderTimeout q = readHeaderTimeout p
  /\ readDeadline q = readDeadline p
  /\ connLocalAddr (conn q) = connLocalAddr (conn p)
  /\ connRemoteAddr (conn q) = connRemoteAddr (conn p)
  /\ connDeadlineErr (conn q) = connDeadlineErr (conn p).

(** [q] is [p] after some operations on its socket and its reader that
    did not read the header. *)
Definition sameButIO (p q : Conn) : Prop :=
  sameSettings p q
  /\ header q = header p
  /\ once q = once p
  /\ readErr q = readErr p
  /\ headerReads (trace q) = headerReads (trace p).

(** The connection after the header was read from the stream and the
    deadline put back, before the policy is applied. *)
Definition attempted (now : Time) (p : Conn) (br : Reader) : Conn :=
  restoreDeadline
    (setBufReader (snd (installDeadline now p)) br [EvReadHeader])
    (origDeadlineOf p).

(** The addresses of the socket. *)
Definition sameSocket (p q : Conn) : Prop :=
  connLocalAddr (conn q) = connLocalAddr (conn p)
  /\ connRemoteAddr (conn q) = connRemoteAddr (conn p).

(** What holds of a wrapper at any time: before the latch is closed no
    header was read; after, at most one was; and a header is stored only
    if the read returned no error. *)
Definition latchInv (p : Conn) : Prop :=
  (once p = false ->
   headerReads (trace p) = 0%nat /\ header p = None /\ readErr p = None)
  /\ (headerReads (trace p) <= 1)%nat
  /\ (forall e, readErr p = Some e -> header p = None).

(** A wrapper as [NewConn] makes it: the latch open, no header, no error,
    nothing done on the socket yet. *)
Definition fresh (p : Conn) : Prop :=
  once p = false /\ readErr p = None /\ header p = None /\ trace p = [].

(** *** Sample values *)

(** A PROXY header for TCP over IPv4, 10.0.0.1:1234 to 192.168.0.1:80, with
    one ALPN entry ["h2\0"] in its TLV vector. *)
Definition tcp4Header : Header :=
  {| Version := 2; Command := PROXY; TransportProtocol := TCPv4;
     SourceAddr := Some (TCPAddr [x0a; x00; x00; x01] 1234);
     DestinationAddr := Some (TCPAddr [xc0; xa8; x00; x01] 80);
     rawTLVs := [x01; x00; x03; x68; x32; x00] |}.

(** Its wire form. *)
Definition tcp4HeaderBytes : list byte :=
  SIGV2 ++ [x21; x11; x00; x12;
            x0a; x00; x00; x01; xc0; xa8; x00; x01; x04; xd2; x00; x50;
            x01; x00; x03; x68; x32; x00].

(** A PROXY header without addresses. *)
Definition proxyUnspecHeader : Header :=
  {| Version := 2; Command := PROXY; TransportProtocol := UNSPEC;
     SourceAddr := None; DestinationAddr := None; rawTLVs := [] |}.

(** A header whose payload is one byte more than a 4096-byte buffer. *)
Definition largeHeader : Header :=
  {| Version := 2; Command := PROXY; TransportProtocol := TCPv4;
     SourceAddr := Some (TCPAddr [x0a; x00; x00; x01] 1234);
     DestinationAddr := Some (TCPAddr [xc0; xa8; x00; x01] 80);
     rawTLVs := repeat x00 4085 |}.

(** The payloads ["HELO"] and ["GET "]. *)
Definition helo : list byte := [x48; x45; x4c; x4f].
Definition plainStream : list byte := [x47; x45; x54; x20].

(** A socket between 10.0.0.9:50000 and 10.0.0.2:443, with no deadline,
    whose peer sends [stream] and then ends with [err]. *)
Definition socket (stream : list byte) (err : error) : NetConn :=
  {| connLocalAddr := Some (TCPAddr [x0a; x00; x00; x02] 443);
     connRemoteAddr := Some (TCPAddr [x0a; x00; x00; x09] 50000);
     connReadDeadline := zeroTime; connDeadlineErr := None;
     connStream := stream; connStreamErr := err |}.

(** A stand-in for the version 1 parser, for the sample connections, whose
    streams never reach it. *)
Definition noVersion1 : M Header := fail ErrCantReadVersion1Header.

(** A listener with no policy, no validator and the default timeout. *)
Definition plainListener : Listener :=
  {| Listener_Policy := None; Listener_ConnPolicy := None;
     Listener_ValidateHeader := None; ReadHeaderTimeout := 0 |}.

(** The wrapper that [plainListener] makes of a socket, on Linux on amd64:
    policy USE and a header-read timeout of ten seconds. *)
Definition accepted (c : NetConn) : Conn :=
  setReadHeaderTimeout
    (NewConn amd64 linux c [WithPolicy USE; ValidateHeader None])
    DefaultReadHeaderTimeout.

(** A wrapper with a policy of its own and no header-read timeout. *)
Definition wrapped (policy : Policy) (c : NetConn) : Conn :=
  NewConn amd64 linux c [WithPolicy policy].

(** The peer sent the signature and then nothing until the deadline. *)
Definition stalledWrapper : Conn := accepted (socket SIGV2 ErrDeadlineExceeded).

(** The peer sent nothing until the deadline. *)
Definition silentWrapper : Conn := accepted (socket [] ErrDeadlineExceeded).

(** A connection accepted with the sample header and a payload on its
    stream, and a connection that requires a header on a plain stream. *)
Definition proxiedWrapper : Conn :=
  accepted (socket (tcp4HeaderBytes ++ helo) EOF).
Definition requiringWrapper : Conn := wrapped REQUIRE (socket plainStream EOF).

(** Calls on a connection, with the times they are made at. *)
Definition sampleCalls : list (Time * Call) :=
  [(1, CallRemoteAddr); (2, CallRead 4); (3, CallProxyHeader);
   (4, CallLocalAddr); (5, CallSetReadDeadline 9); (6, CallRead 4)].

(** A validator that refuses every header, and a connection that uses it;
    a connection that rejects headers. *)
Definition refusing : Validator := fun _ => Some (ErrUser 1).

Definition validatingWrapper : Conn :=
  NewConn amd64 linux (socket (tcp4HeaderBytes ++ helo) EOF)
    [WithPolicy USE; ValidateHeader (Some refusing)].

Definition rejectingWrapper : Conn :=
  wrapped REJECT (socket (tcp4HeaderBytes ++ helo) EOF).

(** No byte of [s] is the line feed; no byte of [s] is the separator. *)
Definition noLF (s : list byte) : bool :=
  forallb (fun c => negb (Byte.eqb c x0a)) s.

Definition noSeparator (s : list byte) : bool :=
  forallb (fun c => negb (Byte.eqb c separator)) s.

(** A byte that is a decimal digit. *)
Definition isDigit (c : byte) : Prop := exists d, digitValue c = Some d.

(** A text that can stand for an address in a version 1 line: without
    separator and line feed, and of at most 39 bytes, the length of the
    longest IPv6 address. *)
Definition addressText (s : list byte) : bool :=
  noSeparator s && noLF s && (length s <=? 39)%nat.

(** The bytes that a buffered reader has yet to deliver. *)
Definition unread (r : BufReader) : list byte :=
  buffered r ++ concat (map (fun read => fst read :: snd read) (incoming r)).

(** The header that a version 1 line without addresses stands for. *)
Definition unknownHeader : Header :=
  {| Version := 1; Command := LOCAL; TransportProtocol := UNSPEC;
     SourceAddr := None; DestinationAddr := None; rawTLVs := [] |}.

(** Stand-ins for [net.IP.String] and [netip.ParseAddr] on IPv4 addresses
    in dotted decimal, for the sample lines. *)
Definition dottedQuad (ip : IP) : list byte :=
  match ip with
  | [a; b; c; d] =>
    Itoa (byte_to_Z a) ++ [x2e] ++ Itoa (byte_to_Z b) ++ [x2e]
      ++ Itoa (byte_to_Z c) ++ [x2e] ++ Itoa (byte_to_Z d)
  | _ => list_byte_of_string "<nil>"
  end.

Definition parseDottedQuad (s : list byte) : option netipAddr :=
  match map Atoi (Split s x2e) with
  | [Some a; Some b; Some c; Some d] =>
    if forallb (fun v => (0 <=? v) && (v <=? 255)) [a; b; c; d]
    then Some (Addr4 (map byte_of_Z [a; b; c; d]))
    else None
  | _ => None
  end.

(** The version 1 header of a TCP connection over IPv4 from 10.0.0.1:1234
    to 192.168.0.1:80, and its line. *)
Definition tcp4HeaderV1 : Header :=
  {| Version := 1; Command := PROXY; TransportProtocol := TCPv4;
     SourceAddr := Some (TCPAddr [x0a; x00; x00; x01] 1234);
     DestinationAddr := Some (TCPAddr [xc0; xa8; x00; x01] 80);
     rawTLVs := [] |}.

Definition tcp4LineV1 : list byte :=
  list_byte_of_string "PROXY TCP4 10.0.0.1 192.168.0.1 1234 80" ++ crlf.

(** A connection that ignores headers, on the stream of the sample header
    and payload. *)
Definition ignoringWrapper : Conn :=
  wrapped IGNORE (socket (tcp4HeaderBytes ++ helo) EOF).

(** A socket that refuses deadlines, as a closed connection does, and the
    wrapper that [plainListener] makes of it. *)
Definition closedSocket : NetConn :=
  {| connLocalAddr := Some (TCPAddr [x0a; x00; x00; x02] 443);
     connRemoteAddr := Some (TCPAddr [x0a; x00; x00; x09] 50000);
     connReadDeadline := zeroTime; connDeadlineErr := Some (ErrIO 9);
     connStream := tcp4HeaderBytes ++ helo; connStreamErr := EOF |}.

Definition closedWrapper : Conn := accepted closedSocket.

(** A peer whose address is not 10.0.0.9:50000, and a listener that trusts
    this address only: it requires a header from it and refuses the
    others. *)
Definition strangerSocket : NetConn :=
  {| connLocalAddr := Some (TCPAddr [x0a; x00; x00; x02] 443);
     connRemoteAddr := Some (TCPAddr [xc6; x33; x64; x07] 40000);
     connReadDeadline := zeroTime; connDeadlineErr := None;
     connStream := plainStream; connStreamErr := EOF |}.

Definition trustProxy : ConnPolicyFunc :=
  fun opts =>
    match Upstream opts with
    | Some (TCPAddr [x0a; x00; x00; x09] _) => (REQUIRE, None)
    | _ => (USE, Some ErrInvalidUpstream)
    end.

Definition guardedListener : Listener :=
  {| Listener_Policy := None; Listener_ConnPolicy := Some trustProxy;
     Listener_ValidateHeader := None; ReadHeaderTimeout := 0 |}.

(* ================================================================== *)
(** * Properties *)

(** ** Bytes *)

Lemma byte_to_Z_range (b : byte) : 0 <= byte_to_Z b < 256.
Proof.
  unfold byte_to_Z. pose proof (Byte.to_N_bounded b) as H. lia.
Qed.

Lemma byte_of_to_Z (b : byte) : byte_of_Z (byte_to_Z b) = b.
Proof.
  unfold byte_of_Z. pose proof (byte_to_Z_range b) as H.
  rewrite Z.mod_small by lia. unfold byte_to_Z.
  rewrite N2Z.id, Byte.of_to_N. reflexivity.
Qed.

Lemma byte_to_of_Z (z : Z) : byte_to_Z (byte_of_Z z) = z mod 256.
Proof.
  unfold byte_of_Z, byte_to_Z.
  pose proof (Z.mod_pos_bound z 256 ltac:(lia)) as H.
  destruct (Byte.of_N (Z.to_N (z mod 256))) as [b|] eqn:E.
  - apply Byte.to_of_N in E. rewrite E. lia.
  - apply Byte.of_N_None_iff in E. lia.
Qed.

Lemma Uint16_range (hi lo : byte) : 0 <= Uint16 hi lo <= MaxUint16.
Proof.
  unfold Uint16, MaxUint16.
  pose proof (byte_to_Z_range hi) as Hh. pose proof (byte_to_Z_range lo) as Hl.
  assert (Hb : 0 <= Z.lor (Z.shiftl (byte_to_Z hi) 8) (byte_to_Z lo) < 2 ^ 16).
  { assert (Hs : 0 <= Z.shiftl (byte_to_Z hi) 8 < 2 ^ 16).
    { rewrite Z.shiftl_mul_pow2 by lia. change (2 ^ 8) with 256.
      change (2 ^ 16) with 65536. lia. }
    split.
    - apply Z.lor_nonneg. lia.
    - destruct (Z.eq_dec (Z.lor (Z.shiftl (byte_to_Z hi) 8) (byte_to_Z lo)) 0) as [->|Hne];
        [reflexivity|].
      apply Z.log2_lt_pow2.
      + assert (0 <= Z.lor (Z.shiftl (byte_to_Z hi) 8) (byte_to_Z lo))
          by (apply Z.lor_nonneg; lia). lia.
      + rewrite Z.log2_lor by lia.
        apply Z.max_lub_lt.
        * destruct (Z.eq_dec (Z.shiftl (byte_to_Z hi) 8) 0) as [->|Hn]; [reflexivity|].
          apply Z.log2_lt_pow2; lia.
        * destruct (Z.eq_dec (byte_to_Z lo) 0) as [->|Hn]; [reflexivity|].
          apply Z.log2_lt_pow2; [lia|]. change (2 ^ 16) with 65536. lia. }
  change (2 ^ 16) with 65536 in Hb. lia.
Qed.

Lemma land_high_low (q r : Z) : 0 <= r < 256 -> Z.land (q * 256) r = 0.
Proof.
  intros Hr. apply Z.bits_inj'. intros n Hn.
  rewrite Z.land_spec, Z.bits_0.
  destruct (Z.ltb_spec n 8) as [Hlt|Hge].
  - replace (q * 256) with (Z.shiftl q 8)
      by (rewrite Z.shiftl_mul_pow2 by lia; reflexivity).
    rewrite Z.shiftl_spec_low by lia. reflexivity.
  - rewrite (Z.bits_above_log2 r n); [apply andb_false_r | lia |].
    destruct (Z.eq_dec r 0) as [->|Hne]; [simpl; lia|].
    assert (Z.log2 r < 8)
      by (apply Z.log2_lt_pow2; [lia|]; change (2 ^ 8) with 256; lia).
    lia.
Qed.

(** The two bytes written by [PutUint16] read back as the value, for a
    value that fits sixteen bits. *)
Lemma Uint16_PutUint16 (v : Z) :
  0 <= v <= MaxUint16 ->
  Uint16 (byte_of_Z (Z.shiftr v 8)) (byte_of_Z v) = v.
Proof.
  unfold MaxUint16, Uint16. intros Hv.
  rewrite !byte_to_of_Z.
  rewrite Z.shiftr_div_pow2, Z.shiftl_mul_pow2 by lia.
  change (2 ^ 8) with 256.
  assert (Hq : 0 <= v / 256 < 256).
  { split; [apply Z.div_pos; lia | apply Z.div_lt_upper_bound; lia]. }
  rewrite (Z.mod_small (v / 256)) by lia.
  pose proof (Z.mod_pos_bound v 256 ltac:(lia)) as Hr.
  pose proof (land_high_low (v / 256) (v mod 256) Hr) as Hdisj.
  rewrite <- Z.lxor_lor by exact Hdisj.
  rewrite <- Z.add_nocarry_lxor by exact Hdisj.
  pose proof (Z.div_mod v 256 ltac:(lia)). lia.
Qed.

(* ------------------------------------------------------------------ *)
(** ** The TLV vector *)

Section TLVFacts.

Lemma len_app {A} (l1 l2 : list A) : len (l1 ++ l2) = len l1 + len l2.
Proof. unfold len. rewrite length_app. lia. Qed.

Lemma len_nonneg {A} (l : list A) : 0 <= len l.
Proof. unfold len. lia. Qed.

Lemma length_encodeTLV (tlv : TLV) :
  length (encodeTLV tlv) = (3 + length (Value tlv))%nat.
Proof. reflexivity. Qed.

Lemma encodeTLVs_cons (tlv : TLV) (tlvs : list TLV) :
  encodeTLVs (tlv :: tlvs) = encodeTLV tlv ++ encodeTLVs tlvs.
Proof. reflexivity. Qed.

Lemma len_encodeTLVs_cons (tlv : TLV) (tlvs : list TLV) :
  len (encodeTLVs (tlv :: tlvs)) = 3 + len (Value tlv) + len (encodeTLVs tlvs).
Proof.
  rewrite encodeTLVs_cons, len_app. unfold len at 1.
  rewrite length_encodeTLV. unfold len. lia.
Qed.

(** *** JoinTLVs *)

Lemma joinSize_fits (tlvs : list TLV) (acc : Z) :
  Forall fitsUint16 tlvs ->
  joinSize tlvs acc = Ok (acc + len (encodeTLVs tlvs)).
Proof.
  intros H. revert acc. induction H as [|tlv rest Hfit _ IH]; intros acc.
  - simpl. f_equal. unfold len. simpl. lia.
  - cbn [joinSize]. unfold fitsUint16 in Hfit.
    destruct (Z.gtb_spec (len (Value tlv)) MaxUint16) as [Hgt|_]; [lia|].
    rewrite IH, len_encodeTLVs_cons. f_equal. lia.
Qed.

(** The first loop fails at the first entry that does not fit, with the
    formatted error that names this entry. *)
Lemma joinSize_oversize (pre : list TLV) (tlv : TLV) (post : list TLV)
      (acc : Z) :
  Forall fitsUint16 pre ->
  MaxUint16 < len (Value tlv) ->
  joinSize (pre ++ tlv :: post) acc
  = Err (ErrCannotFormatTLV (Type_ tlv) (len (Value tlv))).
Proof.
  intros H Hbig. revert acc. induction H as [|p rest Hfit _ IH]; intros acc.
  - cbn [app joinSize].
    destruct (Z.gtb_spec (len (Value tlv)) MaxUint16) as [_|Hle]; [reflexivity|lia].
  - cbn [app joinSize]. unfold fitsUint16 in Hfit.
    destruct (Z.gtb_spec (len (Value p)) MaxUint16) as [Hgt|_]; [lia|].
    apply IH.
Qed.

Lemma firstn_prefix {A} (l1 l2 : list A) : firstn (length l1) (l1 ++ l2) = l1.
Proof.
  rewrite firstn_app, firstn_all, Nat.sub_diag, firstn_0. apply app_nil_r.
Qed.

Lemma skipn_prefix {A} (l1 l2 : list A) : skipn (length l1) (l1 ++ l2) = l2.
Proof.
  rewrite skipn_app, skipn_all, Nat.sub_diag, skipn_0. reflexivity.
Qed.

Lemma store_middle (pre : list byte) (x : byte) (post : list byte) (b : byte) :
  store (pre ++ x :: post) (length pre) b = Some (pre ++ b :: post).
Proof.
  unfold store.
  destruct (Nat.ltb_spec (length pre) (length (pre ++ x :: post))) as [_|Hge].
  - rewrite firstn_prefix.
    replace (S (length pre)) with (length (pre ++ [x]))
      by (rewrite length_app; simpl; lia).
    replace (pre ++ x :: post) with ((pre ++ [x]) ++ post)
      by (rewrite <- app_assoc; reflexivity).
    rewrite skipn_prefix. reflexivity.
  - rewrite length_app in Hge. simpl in Hge. lia.
Qed.

Lemma copyInto_middle (pre old post src : list byte) :
  length old = length src ->
  copyInto (pre ++ old ++ post) (length pre) (length pre + length src) src
  = Some (pre ++ src ++ post).
Proof.
  intros Hlen. unfold copyInto.
  destruct (Nat.leb_spec (length pre + length src) (length (pre ++ old ++ post)))
    as [_|Hgt].
  - replace (length pre + length src - length pre)%nat with (length src) by lia.
    rewrite Nat.min_id, firstn_all, firstn_prefix.
    replace (length pre + length src)%nat with (length (pre ++ old))
      by (rewrite length_app; lia).
    replace (pre ++ old ++ post) with ((pre ++ old) ++ post)
      by (rewrite <- app_assoc; reflexivity).
    rewrite skipn_prefix. reflexivity.
  - rewrite !length_app in Hgt. lia.
Qed.

(** The second loop overwrites exactly the [length (encodeTLVs tlvs)] bytes
    that start at [offset] with the wire form of the entries: no write
    falls outside the buffer. *)
Lemma joinFill_middle (tlvs : list TLV) :
  forall pre old post : list byte,
    length old = length (encodeTLVs tlvs) ->
    joinFill tlvs (pre ++ old ++ post) (length pre)
    = Some (pre ++ encodeTLVs tlvs ++ post).
Proof.
  induction tlvs as [|tlv rest IH]; intros pre old post Hlen.
  - destruct old; [reflexivity | discriminate].
  - rewrite encodeTLVs_cons, length_app, length_encodeTLV in Hlen.
    destruct old as [|o0 [|o1 [|o2 old]]]; simpl in Hlen; try lia.
    assert (Hsplit : old = firstn (length (Value tlv)) old
                           ++ skipn (length (Value tlv)) old)
      by (symmetry; apply firstn_skipn).
    assert (Hfst : length (firstn (length (Value tlv)) old) = length (Value tlv))
      by (rewrite length_firstn; lia).
    assert (Hsnd : length (skipn (length (Value tlv)) old)
                   = length (encodeTLVs rest))
      by (rewrite length_skipn; lia).
    set (ov := firstn (length (Value tlv)) old) in *.
    set (orest := skipn (length (Value tlv)) old) in *.
    rewrite Hsplit. clearbody ov orest. clear Hsplit Hlen.
    set (hi := byte_of_Z (Z.shiftr (Z.of_nat (length (Value tlv))) 8)).
    set (lo := byte_of_Z (Z.of_nat (length (Value tlv)))).
    assert (Henc : pre ++ encodeTLVs (tlv :: rest) ++ post
                   = ((pre ++ [Type_ tlv; hi; lo]) ++ Value tlv)
                       ++ encodeTLVs rest ++ post).
    { rewrite encodeTLVs_cons. unfold encodeTLV, PutUint16, len. fold hi lo.
      rewrite <- !app_assoc. reflexivity. }
    rewrite Henc. clear Henc.
    cbn [joinFill app]. fold hi lo.
    rewrite <- (app_assoc ov orest post).
    set (tail := orest ++ post).
    rewrite store_middle.
    replace (length pre + 1)%nat with (length (pre ++ [Type_ tlv]))
      by (rewrite length_app; reflexivity).
    replace (pre ++ Type_ tlv :: o1 :: o2 :: ov ++ tail)
      with ((pre ++ [Type_ tlv]) ++ o1 :: o2 :: ov ++ tail)
      by (rewrite <- app_assoc; reflexivity).
    rewrite store_middle.
    replace (length (pre ++ [Type_ tlv]) + 1)%nat
      with (length (pre ++ [Type_ tlv; hi]))
      by (rewrite !length_app; simpl; lia).
    replace ((pre ++ [Type_ tlv]) ++ hi :: o2 :: ov ++ tail)
      with ((pre ++ [Type_ tlv; hi]) ++ o2 :: ov ++ tail)
      by (rewrite <- !app_assoc; reflexivity).
    rewrite store_middle.
    replace (length (pre ++ [Type_ tlv]) + 2)%nat
      with (length (pre ++ [Type_ tlv; hi; lo]))
      by (rewrite !length_app; simpl; lia).
    replace ((pre ++ [Type_ tlv; hi]) ++ lo :: ov ++ tail)
      with ((pre ++ [Type_ tlv; hi; lo]) ++ ov ++ tail)
      by (rewrite <- !app_assoc; reflexivity).
    set (pre3 := pre ++ [Type_ tlv; hi; lo]).
    destruct (Nat.ltb_spec 0 (length (Value tlv))) as [Hpos|Hzero].
    + rewrite copyInto_middle by exact Hfst.
      replace (length pre3 + length (Value tlv))%nat
        with (length (pre3 ++ Value tlv))
        by (rewrite length_app; reflexivity).
      rewrite (app_assoc pre3 (Value tlv) tail).
      subst tail. apply IH. exact Hsnd.
    + assert (Hv : Value tlv = [])
        by (destruct (Value tlv); [reflexivity|simpl in *; lia]).
      assert (Ho : ov = []) by (destruct ov; [reflexivity|simpl in *; lia]).
      rewrite Hv, Ho, app_nil_r. cbn [app].
      subst tail. apply IH. exact Hsnd.
Qed.

Lemma JoinTLVs_fits (tlvs : list TLV) :
  Forall fitsUint16 tlvs -> JoinTLVs tlvs = Some (Ok (encodeTLVs tlvs)).
Proof.
  intros Hfit. unfold JoinTLVs.
  destruct tlvs as [|tlv rest]; [reflexivity|].
  cbn [length Nat.eqb].
  rewrite joinSize_fits by exact Hfit.
  rewrite Z.add_0_l.
  pose proof (len_encodeTLVs_cons tlv rest) as Hl.
  pose proof (len_nonneg (Value tlv)). pose proof (len_nonneg (encodeTLVs rest)).
  destruct (Z.eqb_spec (len (encodeTLVs (tlv :: rest))) 0) as [E|_]; [lia|].
  pose proof (joinFill_middle (tlv :: rest) []
                (repeat x00 (Z.to_nat (len (encodeTLVs (tlv :: rest))))) []) as Hf.
  cbn [app length] in Hf. rewrite !app_nil_r in Hf.
  rewrite Hf; [reflexivity|].
  rewrite repeat_length. unfold len. apply Nat2Z.id.
Qed.

(** *** SplitTLVs *)

(** One turn of the loop, for an index inside the slice. *)
Lemma splitLoop_step (raw : list byte) (i : nat) (tlvs : list TLV) :
  (i < length raw)%nat ->
  splitLoop raw i tlvs =
    if (length raw - i <? 3)%nat then Err ErrTruncatedTLV else
    let tlvType := idx raw i in
    let i1 := (i + 1)%nat in
    let tlvLen := Z.to_nat (Uint16 (idx raw i1) (idx raw (i1 + 1))) in
    let i2 := (i1 + 2)%nat in
    if (length raw <? i2 + tlvLen)%nat then Err ErrTruncatedTLV else
    let tlvs' :=
      if Byte.eqb tlvType PP2_TYPE_NOOP then tlvs
      else tlvs ++ [ {| Type_ := tlvType;
                       Value := slice raw i2 (i2 + tlvLen) |} ] in
    splitLoop raw (i2 + tlvLen) tlvs'.
Proof.
  intros Hlt. rewrite splitLoop_equation.
  destruct (Nat.ltb_spec i (length raw)) as [_|H]; [reflexivity | lia].
Qed.

Lemma splitLoop_done (raw : list byte) (i : nat) (tlvs : list TLV) :
  (length raw <= i)%nat -> splitLoop raw i tlvs = Ok tlvs.
Proof.
  intros Hge. rewrite splitLoop_equation.
  destruct (Nat.ltb_spec i (length raw)) as [H|_]; [lia | reflexivity].
Qed.

Lemma idx_prefix (pre : list byte) (k : nat) (l : list byte) :
  idx (pre ++ l) (length pre + k) = idx l k.
Proof.
  unfold idx. rewrite app_nth2 by lia. f_equal. lia.
Qed.

(** Scanning the wire form of a list of entries without NOOP, from the
    offset where it starts, appends exactly these entries. *)
Lemma splitLoop_encodeTLVs (L : list TLV) :
  Forall fitsUint16 L -> Forall notNoop L ->
  forall (pre : list byte) (acc : list TLV),
    splitLoop (pre ++ encodeTLVs L) (length pre) acc = Ok (acc ++ L).
Proof.
  intros Hfit Hnn. induction L as [|tlv rest IH]; intros pre acc.
  - rewrite splitLoop_done by (cbn; rewrite app_nil_r; lia).
    rewrite app_nil_r. reflexivity.
  - inversion Hfit as [|? ? Hf Hfrest]; subst.
    inversion Hnn as [|? ? Hn Hnrest]; subst.
    specialize (IH Hfrest Hnrest).
    remember (pre ++ encodeTLVs (tlv :: rest)) as raw eqn:Hraw.
    assert (Hshape : raw = pre ++ Type_ tlv
                      :: byte_of_Z (Z.shiftr (len (Value tlv)) 8)
                      :: byte_of_Z (len (Value tlv))
                      :: Value tlv ++ encodeTLVs rest).
    { subst raw. rewrite encodeTLVs_cons. unfold encodeTLV, PutUint16.
      cbn [app]. reflexivity. }
    assert (Hlen : length raw
                   = (length pre + 3 + length (Value tlv)
                      + length (encodeTLVs rest))%nat).
    { rewrite Hshape, length_app. cbn [length]. rewrite length_app. lia. }
    rewrite splitLoop_step by lia.
    destruct (Nat.ltb_spec (length raw - length pre) 3) as [Hshort|_]; [lia|].
    cbv zeta.
    assert (H0 : idx raw (length pre) = Type_ tlv).
    { rewrite Hshape, <- (Nat.add_0_r (length pre)), idx_prefix. reflexivity. }
    assert (H1 : idx raw (length pre + 1)
                 = byte_of_Z (Z.shiftr (len (Value tlv)) 8)).
    { rewrite Hshape, idx_prefix. reflexivity. }
    assert (H2 : idx raw (length pre + 1 + 1) = byte_of_Z (len (Value tlv))).
    { rewrite Hshape. replace (length pre + 1 + 1)%nat with (length pre + 2)%nat by lia.
      rewrite idx_prefix. reflexivity. }
    rewrite H0, H1, H2.
    rewrite Uint16_PutUint16 by (unfold fitsUint16 in Hf; pose proof (len_nonneg (Value tlv)); lia).
    unfold len at 1 2 3. rewrite Nat2Z.id.
    destruct (Nat.ltb_spec (length raw) (length pre + 1 + 2 + length (Value tlv)))
      as [Hshort|_]; [lia|].
    destruct (Byte.eqb (Type_ tlv) PP2_TYPE_NOOP) eqn:Enoop.
    { apply Byte.byte_dec_bl in Enoop. contradiction. }
    assert (Hslice : slice raw (length pre + 1 + 2)
                       (length pre + 1 + 2 + length (Value tlv)) = Value tlv).
    { unfold slice.
      replace (length pre + 1 + 2 + length (Value tlv) - (length pre + 1 + 2))%nat
        with (length (Value tlv)) by lia.
      rewrite Hshape.
      replace (pre ++ Type_ tlv :: byte_of_Z (Z.shiftr (len (Value tlv)) 8)
                 :: byte_of_Z (len (Value tlv)) :: Value tlv ++ encodeTLVs rest)
        with ((pre ++ [Type_ tlv; byte_of_Z (Z.shiftr (len (Value tlv)) 8);
                      byte_of_Z (len (Value tlv))])
                ++ Value tlv ++ encodeTLVs rest)
        by (rewrite <- app_assoc; reflexivity).
      replace (length pre + 1 + 2)%nat
        with (length (pre ++ [Type_ tlv; byte_of_Z (Z.shiftr (len (Value tlv)) 8);
                             byte_of_Z (len (Value tlv))]))
        by (rewrite length_app; simpl; lia).
      rewrite skipn_prefix, firstn_prefix. reflexivity. }
    rewrite Hslice.
    replace (length pre + 1 + 2 + length (Value tlv))%nat
      with (length (pre ++ encodeTLV tlv))
      by (rewrite length_app, length_encodeTLV; lia).
    replace raw with ((pre ++ encodeTLV tlv) ++ encodeTLVs rest)
      by (subst raw; rewrite encodeTLVs_cons, app_assoc; reflexivity).
    rewrite IH, <- app_assoc. destruct tlv. reflexivity.
Qed.

Lemma SplitTLVs_encodeTLVs (L : list TLV) :
  Forall fitsUint16 L -> Forall notNoop L -> SplitTLVs (encodeTLVs L) = Ok L.
Proof.
  intros Hfit Hnn. unfold SplitTLVs.
  destruct (Nat.eqb_spec (length (encodeTLVs L)) 0) as [E|_].
  - destruct L as [|tlv rest]; [reflexivity|].
    rewrite encodeTLVs_cons, length_app, length_encodeTLV in E. lia.
  - apply (splitLoop_encodeTLVs L Hfit Hnn [] []).
Qed.

Lemma JoinTLVs_first_oversize (pre : list TLV) (tlv : TLV) (post : list TLV) :
  Forall fitsUint16 pre ->
  MaxUint16 < len (Value tlv) ->
  JoinTLVs (pre ++ tlv :: post)
  = Some (Err (ErrCannotFormatTLV (Type_ tlv) (len (Value tlv)))).
Proof.
  intros Hpre Hbig. unfold JoinTLVs.
  destruct (Nat.eqb_spec (length (pre ++ tlv :: post)) 0) as [E|_].
  - rewrite length_app in E. simpl in E. lia.
  - rewrite joinSize_oversize by assumption. reflexivity.
Qed.

(** A list with an entry that does not fit splits at the first such entry. *)
Lemma first_oversize (L : list TLV) :
  Exists (fun tlv => MaxUint16 < len (Value tlv)) L ->
  exists pre tlv post,
    L = pre ++ tlv :: post
    /\ Forall fitsUint16 pre
    /\ MaxUint16 < len (Value tlv).
Proof.
  induction L as [|x rest IH]; intros HE.
  - inversion HE.
  - destruct (Z_lt_dec MaxUint16 (len (Value x))) as [Hbig|Hfit].
    + exists [], x, rest. repeat split; [constructor | exact Hbig].
    + inversion HE as [? ? Hx|? ? Hrest]; subst; [contradiction|].
      destruct (IH Hrest) as (pre & tlv & post & -> & Hpre & Hbig).
      exists (x :: pre), tlv, post. repeat split; [|exact Hbig].
      constructor; [unfold fitsUint16; lia | exact Hpre].
Qed.

End TLVFacts.

(** C2. For a list of entries none of which is a NOOP and whose values all
    fit a 16-bit length, [JoinTLVs] succeeds and [SplitTLVs] gives the same
    entries back from its output, in the same order and with the same
    values. *)
Theorem SplitTLVs_JoinTLVs (L : list TLV) :
  Forall notNoop L ->
  Forall fitsUint16 L ->
  exists raw, JoinTLVs L = Some (Ok raw) /\ SplitTLVs raw = Ok L.
Proof.
  intros Hnn Hfit. exists (encodeTLVs L). split.
  - apply JoinTLVs_fits; exact Hfit.
  - apply SplitTLVs_encodeTLVs; assumption.
Qed.

Lemma SplitTLVs_JoinTLVs_witness :
  exists raw, JoinTLVs alpnAndAuthority = Some (Ok raw)
              /\ SplitTLVs raw = Ok alpnAndAuthority.
Proof.
  apply (SplitTLVs_JoinTLVs alpnAndAuthority).
  - repeat constructor; unfold notNoop; simpl; discriminate.
  - repeat constructor; unfold fitsUint16, MaxUint16, len; simpl; lia.
Defined.

Lemma len_oversizeTLVs :
  len (Value {| Type_ := PP2_TYPE_ALPN; Value := repeat x00 (Z.to_nat 65536) |})
  = 65536.
Proof.
  unfold len. cbn [Value]. rewrite repeat_length. apply Z2Nat.id. lia.
Qed.

(** [JoinTLVs] does not report the oversize entry with [ErrMalformedTLV]. *)
Lemma JoinTLVs_oversize_not_ErrMalformedTLV :
  Exists (fun tlv => MaxUint16 < len (Value tlv)) oversizeTLVs
  /\ JoinTLVs oversizeTLVs <> Some (Err ErrMalformedTLV).
Proof.
  assert (Hbig : MaxUint16 < len (Value {| Type_ := PP2_TYPE_ALPN;
                                           Value := repeat x00 (Z.to_nat 65536) |}))
    by (rewrite len_oversizeTLVs; unfold MaxUint16; lia).
  split.
  - constructor. exact Hbig.
  - pose proof (JoinTLVs_first_oversize [] _ [] (Forall_nil _) Hbig) as HJ.
    cbn [app] in HJ. unfold oversizeTLVs. rewrite HJ. discriminate.
Qed.

(** C5, amended. For a list with at least one entry whose value is longer
    than 65535 bytes, [JoinTLVs] fails; the error is the formatted error
    naming the type and the length of the first such entry, not the
    [ErrMalformedTLV] value. *)
Theorem JoinTLVs_oversize (L : list TLV) :
  Exists (fun tlv => MaxUint16 < len (Value tlv)) L ->
  exists pre tlv post,
    L = pre ++ tlv :: post
    /\ Forall fitsUint16 pre
    /\ MaxUint16 < len (Value tlv)
    /\ JoinTLVs L
       = Some (Err (ErrCannotFormatTLV (Type_ tlv) (len (Value tlv))))
    /\ JoinTLVs L <> Some (Err ErrMalformedTLV).
Proof.
  intros HE.
  destruct (first_oversize L HE) as (pre & tlv & post & -> & Hpre & Hbig).
  exists pre, tlv, post.
  rewrite (JoinTLVs_first_oversize pre tlv post Hpre Hbig).
  repeat split; [exact Hpre | exact Hbig | discriminate].
Qed.

Lemma JoinTLVs_oversize_witness :
  exists pre tlv post,
    oversizeTLVs = pre ++ tlv :: post
    /\ Forall fitsUint16 pre
    /\ MaxUint16 < len (Value tlv)
    /\ JoinTLVs oversizeTLVs
       = Some (Err (ErrCannotFormatTLV (Type_ tlv) (len (Value tlv))))
    /\ JoinTLVs oversizeTLVs <> Some (Err ErrMalformedTLV).
Proof.
  apply (JoinTLVs_oversize oversizeTLVs).
  constructor. rewrite len_oversizeTLVs. unfold MaxUint16. lia.
Defined.

(* ------------------------------------------------------------------ *)
(** ** The byte source *)

Section ReaderFacts.

Variables (size : nat) (e : error).

Lemma run_ReadByte (b : byte) (tl : list byte) :
  ReadByte (mkReader size (b :: tl) e) = (Ok b, mkReader size tl e).
Proof. reflexivity. Qed.

Lemma run_ReadByte_empty :
  ReadByte (mkReader size [] e) = (Err e, mkReader size [] e).
Proof. reflexivity. Qed.

Lemma run_skipSignature (n : nat) :
  forall sig tl : list byte,
    length sig = n ->
    skipSignature n (mkReader size (sig ++ tl) e) = (Ok tt, mkReader size tl e).
Proof.
  induction n as [|n IH]; intros sig tl Hlen.
  - destruct sig; [reflexivity | discriminate].
  - destruct sig as [|b sig]; [discriminate|].
    cbn [skipSignature app]. unfold bind, orFail.
    rewrite run_ReadByte. apply IH. simpl in Hlen. lia.
Qed.

Lemma run_ReadFull (blk tl : list byte) :
  ReadFull (length blk) (mkReader size (blk ++ tl) e)
  = (Ok blk, mkReader size tl e).
Proof.
  unfold ReadFull, advance. cbn [pending bufSize srcErr].
  destruct (Nat.leb_spec (length blk) (length (blk ++ tl))) as [_|H].
  - rewrite firstn_prefix, skipn_prefix. reflexivity.
  - rewrite length_app in H. lia.
Qed.

Lemma run_Peek (n : nat) (p : list byte) :
  (n <= size)%nat -> (n <= length p)%nat ->
  Peek n (mkReader size p e) = (Ok (firstn n p), mkReader size p e).
Proof.
  intros Hs Hp. unfold Peek. cbn [pending bufSize srcErr].
  destruct (Nat.ltb_spec size n); [lia|].
  destruct (Nat.ltb_spec (length p) n); [lia|]. reflexivity.
Qed.

(** [Peek] fails exactly when the buffer or the source is too short. *)
Lemma run_Peek_short (n : nat) (p : list byte) :
  (size < n)%nat \/ (length p < n)%nat ->
  exists e', Peek n (mkReader size p e) = (Err e', mkReader size p e).
Proof.
  intros H. unfold Peek. cbn [pending bufSize srcErr].
  destruct (Nat.ltb_spec size n); [eexists; reflexivity|].
  destruct (Nat.ltb_spec (length p) n); [eexists; reflexivity|]. lia.
Qed.

Lemma run_limitedReadFull (N : nat) (blk tl : list byte) :
  (length blk <= N)%nat ->
  limitedReadFull N (length blk) (mkReader size (blk ++ tl) e)
  = (Ok blk, mkReader size tl e).
Proof.
  intros HN. unfold limitedReadFull, advance. cbn [pending bufSize srcErr].
  rewrite Nat.min_l by exact HN.
  destruct (Nat.leb_spec (length blk) (length (blk ++ tl))) as [_|H].
  - destruct (Nat.leb_spec (length blk) N); [|lia].
    rewrite firstn_prefix, skipn_prefix. reflexivity.
  - rewrite length_app in H. lia.
Qed.

End ReaderFacts.

(* ------------------------------------------------------------------ *)
(** ** The version 2 codec: lengths *)

Lemma uint16_range (z : Z) : 0 <= uint16 z <= MaxUint16.
Proof.
  unfold uint16, MaxUint16. pose proof (Z.mod_pos_bound z 65536 ltac:(lia)). lia.
Qed.

Lemma uint16_small (z : Z) : 0 <= z <= MaxUint16 -> uint16 z = z.
Proof. unfold uint16, MaxUint16. intros H. apply Z.mod_small. lia. Qed.

Lemma validateLength_below_min (h : Header) (length : Z) :
  length < minLength (TransportProtocol h) -> validateLength h length = false.
Proof.
  unfold minLength, validateLength, lengthV4, lengthV6, lengthUnix, lengthUnspec.
  intros H.
  destruct (Transport.IsIPv4 (TransportProtocol h)); [lia|].
  destruct (Transport.IsIPv6 (TransportProtocol h)); [lia|].
  destruct (Transport.IsUnix (TransportProtocol h)); [lia|].
  destruct (Transport.IsUnspec (TransportProtocol h)); [|reflexivity].
  lia.
Qed.

(** The parser up to and including the length field, on a stream that has
    the sixteen leading bytes. *)
Lemma parseVersion2_prefix (size : nat) (e : error)
      (sig : list byte) (b13 b14 hi lo : byte) (rest : list byte) :
  length sig = 12%nat ->
  supportedCommand b13 = true ->
  Byte.eqb b14 UNSPEC && negb (Byte.eqb b13 LOCAL) = false ->
  let header :=
    {| Version := 2; Command := b13; TransportProtocol := b14;
       SourceAddr := None; DestinationAddr := None; rawTLVs := [] |} in
  let declared := Uint16 hi lo in
  let r := mkReader size rest e in
  parseVersion2 (mkReader size (sig ++ b13 :: b14 :: hi :: lo :: rest) e)
  = if negb (validateLength header declared) then (Err ErrInvalidLength, r)
    else if declared =? 0 then (Ok header, r)
    else (orFail (Peek (Z.to_nat declared)) ErrInvalidLength ;;;
          hn <- parseAddresses header (Z.to_nat declared) ;;
          readRawTLVs (fst hn) (snd hn))%reader r.
Proof.
  intros Hsig Hcmd Hunspec header declared r.
  unfold parseVersion2.
  unfold bind at 1. rewrite (run_skipSignature size e 12 sig _ Hsig).
  unfold bind at 1. unfold orFail at 1. rewrite run_ReadByte.
  rewrite Hcmd. cbn [negb].
  unfold bind at 1. unfold orFail at 1. rewrite run_ReadByte.
  rewrite Hunspec.
  unfold bind at 1. unfold orFail at 1.
  pose proof (run_ReadFull size e [hi; lo] rest) as HRF.
  cbn [length app] in HRF. rewrite HRF. clear HRF.
  cbn [idx nth].
  fold header. fold declared.
  destruct (validateLength header declared); cbn [negb]; [|reflexivity].
  destruct (declared =? 0); reflexivity.
Qed.

(** C3. On a stream that carries the sixteen leading bytes of a version 2
    header with a supported command (and UNSPEC only with LOCAL), the parser
    fails with [ErrInvalidLength] when the declared length is below the
    minimum of the transport family (12 for IPv4, 36 for IPv6, 216 for
    Unix, 0 otherwise), and also when a peek of the declared length fails
    because the source or the buffer is shorter than that. *)
Theorem parseVersion2_InvalidLength (size : nat) (e : error)
      (sig : list byte) (b13 b14 hi lo : byte) (rest : list byte) :
  length sig = 12%nat ->
  supportedCommand b13 = true ->
  (b14 = UNSPEC -> b13 = LOCAL) ->
  Uint16 hi lo < minLength b14
  \/ (length rest < Z.to_nat (Uint16 hi lo))%nat
  \/ (size < Z.to_nat (Uint16 hi lo))%nat ->
  fst (parseVersion2 (mkReader size (sig ++ b13 :: b14 :: hi :: lo :: rest) e))
  = Err ErrInvalidLength.
Proof.
  intros Hsig Hcmd Hunspec Hbad.
  assert (Hguard : Byte.eqb b14 UNSPEC && negb (Byte.eqb b13 LOCAL) = false).
  { destruct (Byte.eqb b14 UNSPEC) eqn:E14; [|reflexivity].
    apply Byte.byte_dec_bl in E14. rewrite (Hunspec E14). reflexivity. }
  rewrite (parseVersion2_prefix size e sig b13 b14 hi lo rest Hsig Hcmd Hguard).
  cbv zeta.
  set (header := {| Version := 2; Command := b13; TransportProtocol := b14;
                    SourceAddr := None; DestinationAddr := None; rawTLVs := [] |}).
  destruct (validateLength header (Uint16 hi lo)) eqn:Hval; cbn [negb];
    [|reflexivity].
  destruct Hbad as [Hmin|Hpeek].
  - rewrite (validateLength_below_min header (Uint16 hi lo) Hmin) in Hval.
    discriminate.
  - destruct (Z.eqb_spec (Uint16 hi lo) 0) as [E0|_].
    + rewrite E0 in Hpeek. simpl in Hpeek. lia.
    + assert (Hp : (size < Z.to_nat (Uint16 hi lo))%nat
                   \/ (length rest < Z.to_nat (Uint16 hi lo))%nat) by tauto.
      destruct (run_Peek_short size e (Z.to_nat (Uint16 hi lo)) rest Hp)
        as [e' HP].
      unfold bind at 1. unfold orFail. rewrite HP. reflexivity.
Qed.

Lemma parseVersion2_InvalidLength_witness :
  fst (parseVersion2 (mkReader 4096 (SIGV2 ++ [PROXY; TCPv4; x00; x0b]) EOF))
  = Err ErrInvalidLength.
Proof.
  apply (parseVersion2_InvalidLength 4096 EOF SIGV2 PROXY TCPv4 x00 x0b []).
  - reflexivity.
  - reflexivity.
  - discriminate.
  - left. vm_compute. reflexivity.
Defined.

(* ------------------------------------------------------------------ *)
(** ** The version 2 codec: the overflow of the length field *)

Lemma lengthWithTLVs_overflow (base : Z) (h : Header) :
  0 <= base ->
  base + len (rawTLVs h) > MaxUint16 ->
  base <= MaxUint16 ->
  lengthWithTLVs base h = Err errUint16Overflow.
Proof.
  intros Hb Hov Hbase. unfold lengthWithTLVs.
  destruct (Z.ltb_spec 0 (len (rawTLVs h))) as [_|Hz]; [|lia].
  destruct (Z.gtb_spec (base + len (rawTLVs h)) MaxUint16); [reflexivity|lia].
Qed.

Lemma lengthWithTLVs_fits (base : Z) (h : Header) :
  0 <= base ->
  base + len (rawTLVs h) <= MaxUint16 ->
  lengthWithTLVs base h = Ok (base + len (rawTLVs h)).
Proof.
  intros Hb Hfit. unfold lengthWithTLVs.
  pose proof (len_nonneg (rawTLVs h)).
  destruct (Z.ltb_spec 0 (len (rawTLVs h))) as [_|Hz].
  - destruct (Z.gtb_spec (base + len (rawTLVs h)) MaxUint16); [lia|].
    rewrite uint16_small by lia. reflexivity.
  - f_equal. lia.
Qed.

(** For the IP families the overflow is detected, whatever the addresses. *)
Lemma formatVersion2_overflow_IP (h : Header) :
  Transport.IsIPv4 (TransportProtocol h)
  || Transport.IsIPv6 (TransportProtocol h) = true ->
  fixedLength (TransportProtocol h) + len (rawTLVs h) > MaxUint16 ->
  formatVersion2 h = Some (Err errUint16Overflow).
Proof.
  unfold formatVersion2, fixedLength. intros Hfam Hov.
  destruct (Transport.IsIPv4 (TransportProtocol h)).
  - destruct (IPs h) as [[sip dip] ok].
    rewrite lengthWithTLVs_overflow; [reflexivity | | exact Hov |];
      unfold lengthV4, MaxUint16; lia.
  - destruct (Transport.IsIPv6 (TransportProtocol h)); [|discriminate].
    destruct (IPs h) as [[sip dip] ok].
    rewrite lengthWithTLVs_overflow; [reflexivity | | exact Hov |];
      unfold lengthV6, MaxUint16; lia.
Qed.

(** For a transport outside the three address families the test comes
    after the truncation to sixteen bits, and never fires: the header is
    written with the length taken modulo 65536. *)
Lemma formatVersion2_no_family (h : Header) :
  Transport.IsIPv4 (TransportProtocol h) = false ->
  Transport.IsIPv6 (TransportProtocol h) = false ->
  Transport.IsUnix (TransportProtocol h) = false ->
  formatVersion2 h
  = Some (Ok (SIGV2 ++ [Command.toByte (Command h)]
                ++ [Transport.toByte (TransportProtocol h)]
                ++ PutUint16 (uint16 (len (rawTLVs h))) ++ rawTLVs h)).
Proof.
  intros H4 H6 HU. unfold formatVersion2. rewrite H4, H6, HU.
  pose proof (uint16_range (len (rawTLVs h))) as Hr.
  unfold appendTLVs.
  destruct (Z.ltb_spec 0 (len (rawTLVs h))) as [Hpos|Hzero].
  - destruct (Z.gtb_spec (uint16 (len (rawTLVs h))) MaxUint16); [lia|].
    cbn [andb]. rewrite <- !app_assoc. reflexivity.
  - cbn [andb].
    assert (Hnil : rawTLVs h = []).
    { destruct (rawTLVs h); [reflexivity|]. unfold len in Hzero. simpl in Hzero. lia. }
    rewrite Hnil. unfold len. cbn [length Z.of_nat].
    rewrite <- !app_assoc. reflexivity.
Qed.

(** C4, at the failing input.  The fixed size (0) plus the TLV length is
    65536, yet [formatVersion2] returns no error: it writes a length field
    of zero followed by the 65536 bytes. *)
Theorem formatVersion2_UNSPEC_overflow_unnoticed :
  fixedLength (TransportProtocol unspecOverflowHeader)
    + len (rawTLVs unspecOverflowHeader) > MaxUint16
  /\ formatVersion2 unspecOverflowHeader
     = Some (Ok (SIGV2 ++ [LOCAL; UNSPEC; x00; x00]
                   ++ rawTLVs unspecOverflowHeader)).
Proof.
  assert (Hlen : len (rawTLVs unspecOverflowHeader) = 65536).
  { unfold len. cbn [rawTLVs unspecOverflowHeader].
    rewrite repeat_length. apply Z2Nat.id. lia. }
  split.
  - rewrite Hlen. vm_compute. reflexivity.
  - rewrite formatVersion2_no_family by reflexivity.
    rewrite Hlen. reflexivity.
Qed.

(* ------------------------------------------------------------------ *)
(** ** The version 2 codec: parsing what was formatted *)

Lemma fixedLength_nonneg (tp : AddressFamilyAndProtocol) : 0 <= fixedLength tp.
Proof.
  unfold fixedLength, lengthV4, lengthV6, lengthUnix, lengthUnspec.
  destruct (Transport.IsIPv4 tp); [lia|].
  destruct (Transport.IsIPv6 tp); [lia|].
  destruct (Transport.IsUnix tp); lia.
Qed.

Lemma fixedLength_UNSPEC (tp : AddressFamilyAndProtocol) :
  Byte.eqb tp UNSPEC = true -> fixedLength tp = 0.
Proof.
  intros E. apply Byte.byte_dec_bl in E. subst tp. reflexivity.
Qed.

Lemma run_parseAddresses (size : nat) (e : error) (h : Header) (N : nat)
      (block tl : list byte) :
  len block = fixedLength (TransportProtocol h) ->
  (length block <= N)%nat ->
  parseAddresses h N (mkReader size (block ++ tl) e)
  = (Ok ({| Version := Version h; Command := Command h;
            TransportProtocol := TransportProtocol h;
            SourceAddr := if Z.eqb (fixedLength (TransportProtocol h)) 0
                          then SourceAddr h
                          else fst (decodeBlock (TransportProtocol h) block);
            DestinationAddr := if Z.eqb (fixedLength (TransportProtocol h)) 0
                               then DestinationAddr h
                               else snd (decodeBlock (TransportProtocol h) block);
            rawTLVs := rawTLVs h |}, (N - length block)%nat),
     mkReader size tl e).
Proof.
  intros Hlen HN. unfold parseAddresses, decodeBlock.
  assert (Hnil : len block = 0 -> block = []).
  { unfold len. destruct block; [reflexivity | simpl; lia]. }
  destruct (Byte.eqb (TransportProtocol h) UNSPEC) eqn:EU; cbn [negb].
  - rewrite (fixedLength_UNSPEC _ EU) in *.
    rewrite (Hnil Hlen). cbn [app length Z.eqb]. rewrite Nat.sub_0_r.
    destruct h; reflexivity.
  - unfold fixedLength in *.
    destruct (Transport.IsIPv4 (TransportProtocol h)).
    { assert (Hl : length block = 12%nat)
        by (unfold len, lengthV4 in Hlen; lia).
      unfold bind, orFail. rewrite <- Hl at 1.
      rewrite run_limitedReadFull by exact HN. rewrite Hl. reflexivity. }
    destruct (Transport.IsIPv6 (TransportProtocol h)).
    { assert (Hl : length block = 36%nat)
        by (unfold len, lengthV6 in Hlen; lia).
      unfold bind, orFail. rewrite <- Hl at 1.
      rewrite run_limitedReadFull by exact HN. rewrite Hl. reflexivity. }
    destruct (Transport.IsUnix (TransportProtocol h)).
    { assert (Hl : length block = 216%nat)
        by (unfold len, lengthUnix in Hlen; lia).
      unfold bind, orFail. rewrite <- Hl at 1.
      rewrite run_limitedReadFull by exact HN. rewrite Hl. reflexivity. }
    rewrite (Hnil Hlen). cbn [app length]. rewrite Nat.sub_0_r.
    destruct h; reflexivity.
Qed.

Lemma run_readRawTLVs (size : nat) (e : error) (h : Header)
      (tlvs tl : list byte) :
  rawTLVs h = [] ->
  readRawTLVs h (length tlvs) (mkReader size (tlvs ++ tl) e)
  = (Ok {| Version := Version h; Command := Command h;
           TransportProtocol := TransportProtocol h;
           SourceAddr := SourceAddr h; DestinationAddr := DestinationAddr h;
           rawTLVs := tlvs |}, mkReader size tl e).
Proof.
  intros Hraw. unfold readRawTLVs.
  destruct (Nat.ltb_spec 0 (length tlvs)) as [Hpos|Hz].
  - rewrite run_limitedReadFull by lia. reflexivity.
  - assert (tlvs = []) by (destruct tlvs; [reflexivity | simpl in Hz; lia]).
    subst tlvs. destruct h; cbn in *. subst. reflexivity.
Qed.

(** The parser on a stream laid out as a version 2 header: twelve
    signature bytes, the command, the transport, the length, an address
    block of the size of the family, the TLV vector, and whatever
    follows. *)
Lemma parseVersion2_layout (size : nat) (e : error)
      (sig : list byte) (cmd tp : byte) (block tlvs rest : list byte) :
  length sig = 12%nat ->
  supportedCommand cmd = true ->
  Byte.eqb tp UNSPEC && negb (Byte.eqb cmd LOCAL) = false ->
  Transport.IsIPv4 tp || Transport.IsIPv6 tp || Transport.IsUnix tp
    || Transport.IsUnspec tp = true ->
  len block = fixedLength tp ->
  len block + len tlvs <= MaxUint16 ->
  (length block + length tlvs <= size)%nat ->
  parseVersion2
    (mkReader size
       (sig ++ cmd :: tp :: PutUint16 (len block + len tlvs)
            ++ block ++ tlvs ++ rest) e)
  = (Ok {| Version := 2; Command := cmd; TransportProtocol := tp;
           SourceAddr := if Z.eqb (fixedLength tp) 0 then None
                         else fst (decodeBlock tp block);
           DestinationAddr := if Z.eqb (fixedLength tp) 0 then None
                              else snd (decodeBlock tp block);
           rawTLVs := tlvs |},
     mkReader size rest e).
Proof.
  intros Hsig Hcmd Hguard Hfam Hblock Hfit Hsize.
  pose proof (len_nonneg block) as Hb0. pose proof (len_nonneg tlvs) as Ht0.
  unfold PutUint16. cbn [app].
  rewrite (parseVersion2_prefix size e sig cmd tp _ _ _ Hsig Hcmd Hguard).
  cbv zeta.
  rewrite Uint16_PutUint16 by lia.
  set (h0 := {| Version := 2; Command := cmd; TransportProtocol := tp;
                SourceAddr := None; DestinationAddr := None; rawTLVs := [] |}).
  assert (Hval : validateLength h0 (len block + len tlvs) = true).
  { unfold validateLength. cbn [TransportProtocol h0].
    unfold fixedLength in Hblock.
    destruct (Transport.IsIPv4 tp); [apply Z.geb_le; lia|].
    destruct (Transport.IsIPv6 tp); [apply Z.geb_le; lia|].
    destruct (Transport.IsUnix tp); [apply Z.geb_le; lia|].
    cbn [orb] in Hfam. rewrite Hfam. apply Z.geb_le. unfold lengthUnspec. lia. }
  rewrite Hval. cbn [negb].
  assert (HtoNat : Z.to_nat (len block + len tlvs)
                   = (length block + length tlvs)%nat) by (unfold len; lia).
  destruct (Z.eqb_spec (len block + len tlvs) 0) as [E0|Hne].
  - assert (block = []) by (destruct block; [reflexivity|unfold len in *; simpl in *; lia]).
    assert (tlvs = []) by (destruct tlvs; [reflexivity|unfold len in *; simpl in *; lia]).
    subst block tlvs. cbn [app].
    replace (fixedLength tp) with 0 by (rewrite <- Hblock; reflexivity).
    reflexivity.
  - rewrite HtoNat.
    unfold bind at 1. unfold orFail at 1.
    rewrite run_Peek by (rewrite ?length_app; lia).
    unfold bind at 1.
    rewrite (run_parseAddresses size e h0 _ block (tlvs ++ rest) Hblock)
      by lia.
    cbn [fst snd TransportProtocol Version Command SourceAddr DestinationAddr
         rawTLVs h0].
    replace (length block + length tlvs - length block)%nat
      with (length tlvs) by lia.
    rewrite run_readRawTLVs by reflexivity.
    reflexivity.
Qed.

(** *** Well-formed headers *)

Lemma appendTLVs_app (out : list byte) (h : Header) :
  appendTLVs out h = out ++ rawTLVs h.
Proof.
  unfold appendTLVs. destruct (Z.ltb_spec 0 (len (rawTLVs h))) as [_|Hz];
    [reflexivity|].
  destruct (rawTLVs h); [symmetry; apply app_nil_r|].
  unfold len in Hz. simpl in Hz. lia.
Qed.

Lemma toByte_supported (cmd : byte) :
  supportedCommand cmd = true -> Command.toByte cmd = cmd.
Proof.
  unfold supportedCommand, Command.toByte, Command.IsLocal, Command.IsProxy.
  destruct (Byte.eqb cmd LOCAL) eqn:EL.
  - apply Byte.byte_dec_bl in EL. intros _. congruence.
  - destruct (Byte.eqb cmd PROXY) eqn:EP; [|discriminate].
    apply Byte.byte_dec_bl in EP. intros _. congruence.
Qed.

Lemma validPort_range (p : Z) : validPort p = true -> 0 <= p <= MaxUint16.
Proof. unfold validPort, MaxUint16. lia. Qed.

Lemma parseUnixName_padded (name : list byte) (k : nat) :
  forallb (fun c => negb (Byte.eqb c x00)) name = true ->
  parseUnixName (name ++ repeat x00 k) = name.
Proof.
  induction name as [|c name IH]; intros Hnul.
  - destruct k; reflexivity.
  - cbn [forallb] in Hnul. apply andb_prop in Hnul as [Hc Hrest].
    cbn [app parseUnixName].
    destruct (Byte.eqb c x00); [discriminate|].
    rewrite IH by exact Hrest. reflexivity.
Qed.

Lemma formatUnixNameZeroCopy_short (name : list byte) :
  (length name <= 108)%nat ->
  formatUnixNameZeroCopy name = name ++ repeat x00 (108 - length name).
Proof.
  intros H. unfold formatUnixNameZeroCopy.
  rewrite Nat.min_r by exact H. rewrite firstn_all. reflexivity.
Qed.

Lemma length_formatUnixNameZeroCopy (name : list byte) :
  length (formatUnixNameZeroCopy name) = 108%nat.
Proof.
  unfold formatUnixNameZeroCopy.
  rewrite length_app, length_firstn, repeat_length. lia.
Qed.

Lemma slice_first (a b : list byte) : slice (a ++ b) 0 (length a) = a.
Proof.
  unfold slice. rewrite Nat.sub_0_r, skipn_0. apply firstn_prefix.
Qed.

Lemma slice_second (a b : list byte) :
  slice (a ++ b) (length a) (length a + length b) = b.
Proof.
  unfold slice. rewrite skipn_prefix.
  replace (length a + length b - length a)%nat with (length b) by lia.
  apply firstn_all.
Qed.

(** Names a list of known length by its elements. *)
Ltac explode l H :=
  repeat (destruct l as [|? l]; [discriminate H | cbn [length] in H]);
  destruct l; [clear H | discriminate H].

Ltac reduce_closed f t :=
  let b := eval vm_compute in (f t) in
  match b with
  | true => change (f t) with true
  | false => change (f t) with false
  end.

(** Evaluates the predicates of a transport that is a constant. *)
Ltac reduce_transport :=
  repeat match goal with
  | |- context [Transport.IsIPv4 ?t] => reduce_closed Transport.IsIPv4 t
  | |- context [Transport.IsIPv6 ?t] => reduce_closed Transport.IsIPv6 t
  | |- context [Transport.IsUnix ?t] => reduce_closed Transport.IsUnix t
  | |- context [Transport.IsStream ?t] => reduce_closed Transport.IsStream t
  | |- context [Transport.IsDatagram ?t] => reduce_closed Transport.IsDatagram t
  | |- context [Transport.IsUnspec ?t] => reduce_closed Transport.IsUnspec t
  | |- context [Byte.eqb ?t UNSPEC] => reduce_closed (fun x => Byte.eqb x UNSPEC) t
  end.

Section RoundTrip.

Variables (size : nat) (e : error) (rest : list byte).

(** Closes a round trip once [formatVersion2] has been computed: [HL] is
    the layout lemma at the bytes that were written. *)
Ltac by_layout HL :=
  etransitivity; [|etransitivity; [exact HL|]];
  [ f_equal; f_equal;
    unfold PutUint16, lengthV4, lengthV6, lengthUnix, lengthUnspec;
    repeat rewrite <- app_assoc; cbn [app]; reflexivity
  | f_equal; f_equal ].

Ltac ip_roundtrip tp cmd block raw Hcmd Hfit Hsize :=
  let HL := fresh "HL" in
  assert (HL := parseVersion2_layout size e SIGV2 cmd tp block raw rest
                  eq_refl Hcmd eq_refl eq_refl eq_refl);
  match type of HL with
  | ?A -> ?B -> _ =>
    let HA := fresh in let HB := fresh in
    assert (HA : A) by (exact Hfit);
    assert (HB : B) by (exact Hsize);
    specialize (HL HA HB); clear HA HB
  end;
  by_layout HL;
  unfold decodeBlock, newIPAddr, PutUint16;
  reduce_transport;
  cbn [negb fst snd slice firstn skipn idx nth Nat.sub app];
  rewrite !Uint16_PutUint16 by assumption;
  reflexivity.

(** Computes [formatVersion2] on a header with two IP endpoints. *)
Ltac ip_format cmd Hcmd :=
  unfold roundTrips, formatVersion2;
  cbn [TransportProtocol]; reduce_transport;
  unfold IPs, TCPAddrs, UDPAddrs;
  cbn [TransportProtocol SourceAddr DestinationAddr];
  reduce_transport; cbn [negb To4 To16 length Nat.eqb];
  rewrite lengthWithTLVs_fits
    by (cbn [rawTLVs]; unfold lengthV4, lengthV6; lia);
  unfold appendPorts, Ports, TCPAddrs, UDPAddrs;
  cbn [TransportProtocol SourceAddr DestinationAddr rawTLVs Command];
  reduce_transport; cbn [negb];
  rewrite appendTLVs_app; cbn [rawTLVs];
  rewrite (toByte_supported cmd Hcmd);
  rewrite !uint16_small by assumption;
  eexists; split; [reflexivity|].

Lemma roundTrips_TCPv4 (cmd : byte) (sip dip : list byte) (sp dp : Z)
      (raw : list byte) :
  supportedCommand cmd = true ->
  length sip = 4%nat -> length dip = 4%nat ->
  validPort sp = true -> validPort dp = true ->
  12 + len raw <= MaxUint16 ->
  (12 + length raw <= size)%nat ->
  roundTrips size e rest
    {| Version := 2; Command := cmd; TransportProtocol := TCPv4;
       SourceAddr := Some (TCPAddr sip sp);
       DestinationAddr := Some (TCPAddr dip dp); rawTLVs := raw |}.
Proof.
  intros Hcmd Hs Hd Hsp Hdp Hfit Hsize.
  apply validPort_range in Hsp. apply validPort_range in Hdp.
  explode sip Hs. explode dip Hd.
  ip_format cmd Hcmd.
  lazymatch goal with
  | |- context [(_ ++ ?src ++ ?dst) ++ PutUint16 sp ++ PutUint16 dp] =>
    ip_roundtrip TCPv4 cmd (src ++ dst ++ PutUint16 sp ++ PutUint16 dp)
      raw Hcmd Hfit Hsize
  end.
Qed.

Lemma roundTrips_UDPv4 (cmd : byte) (sip dip : list byte) (sp dp : Z)
      (raw : list byte) :
  supportedCommand cmd = true ->
  length sip = 4%nat -> length dip = 4%nat ->
  validPort sp = true -> validPort dp = true ->
  12 + len raw <= MaxUint16 ->
  (12 + length raw <= size)%nat ->
  roundTrips size e rest
    {| Version := 2; Command := cmd; TransportProtocol := UDPv4;
       SourceAddr := Some (UDPAddr sip sp);
       DestinationAddr := Some (UDPAddr dip dp); rawTLVs := raw |}.
Proof.
  intros Hcmd Hs Hd Hsp Hdp Hfit Hsize.
  apply validPort_range in Hsp. apply validPort_range in Hdp.
  explode sip Hs. explode dip Hd.
  ip_format cmd Hcmd.
  lazymatch goal with
  | |- context [(_ ++ ?src ++ ?dst) ++ PutUint16 sp ++ PutUint16 dp] =>
    ip_roundtrip UDPv4 cmd (src ++ dst ++ PutUint16 sp ++ PutUint16 dp)
      raw Hcmd Hfit Hsize
  end.
Qed.

Lemma roundTrips_TCPv6 (cmd : byte) (sip dip : list byte) (sp dp : Z)
      (raw : list byte) :
  supportedCommand cmd = true ->
  length sip = 16%nat -> length dip = 16%nat ->
  validPort sp = true -> validPort dp = true ->
  36 + len raw <= MaxUint16 ->
  (36 + length raw <= size)%nat ->
  roundTrips size e rest
    {| Version := 2; Command := cmd; TransportProtocol := TCPv6;
       SourceAddr := Some (TCPAddr sip sp);
       DestinationAddr := Some (TCPAddr dip dp); rawTLVs := raw |}.
Proof.
  intros Hcmd Hs Hd Hsp Hdp Hfit Hsize.
  apply validPort_range in Hsp. apply validPort_range in Hdp.
  explode sip Hs. explode dip Hd.
  ip_format cmd Hcmd.
  lazymatch goal with
  | |- context [(_ ++ ?src ++ ?dst) ++ PutUint16 sp ++ PutUint16 dp] =>
    ip_roundtrip TCPv6 cmd (src ++ dst ++ PutUint16 sp ++ PutUint16 dp)
      raw Hcmd Hfit Hsize
  end.
Qed.

Lemma roundTrips_UDPv6 (cmd : byte) (sip dip : list byte) (sp dp : Z)
      (raw : list byte) :
  supportedCommand cmd = true ->
  length sip = 16%nat -> length dip = 16%nat ->
  validPort sp = true -> validPort dp = true ->
  36 + len raw <= MaxUint16 ->
  (36 + length raw <= size)%nat ->
  roundTrips size e rest
    {| Version := 2; Command := cmd; TransportProtocol := UDPv6;
       SourceAddr := Some (UDPAddr sip sp);
       DestinationAddr := Some (UDPAddr dip dp); rawTLVs := raw |}.
Proof.
  intros Hcmd Hs Hd Hsp Hdp Hfit Hsize.
  apply validPort_range in Hsp. apply validPort_range in Hdp.
  explode sip Hs. explode dip Hd.
  ip_format cmd Hcmd.
  lazymatch goal with
  | |- context [(_ ++ ?src ++ ?dst) ++ PutUint16 sp ++ PutUint16 dp] =>
    ip_roundtrip UDPv6 cmd (src ++ dst ++ PutUint16 sp ++ PutUint16 dp)
      raw Hcmd Hfit Hsize
  end.
Qed.

Lemma decodeBlock_Unix (tp : byte) (network : string)
      (sname dname : list byte) :
  (tp = UnixStream /\ network = "unix"%string)
  \/ (tp = UnixDatagram /\ network = "unixgram"%string) ->
  validUnixName sname = true -> validUnixName dname = true ->
  decodeBlock tp (formatUnixNameZeroCopy sname ++ formatUnixNameZeroCopy dname)
  = (Some (UnixAddr network sname), Some (UnixAddr network dname)).
Proof.
  intros Htp Hs Hd. unfold validUnixName in Hs, Hd.
  apply andb_prop in Hs as [Hsnul Hslen]. apply andb_prop in Hd as [Hdnul Hdlen].
  apply Nat.leb_le in Hslen, Hdlen.
  assert (H1 : slice (formatUnixNameZeroCopy sname ++ formatUnixNameZeroCopy dname)
                 0 108 = formatUnixNameZeroCopy sname).
  { rewrite <- (length_formatUnixNameZeroCopy sname) at 1. apply slice_first. }
  assert (H2 : slice (formatUnixNameZeroCopy sname ++ formatUnixNameZeroCopy dname)
                 108 216 = formatUnixNameZeroCopy dname).
  { change 216%nat with (108 + 108)%nat.
    rewrite <- (length_formatUnixNameZeroCopy sname) at 1 2.
    rewrite <- (length_formatUnixNameZeroCopy dname) at 1.
    apply slice_second. }
  unfold decodeBlock. rewrite H1, H2.
  rewrite !formatUnixNameZeroCopy_short by assumption.
  rewrite !parseUnixName_padded by assumption.
  destruct Htp as [[-> ->]|[-> ->]]; reduce_transport; reflexivity.
Qed.

Lemma roundTrips_UNSPEC (raw : list byte) :
  len raw <= MaxUint16 ->
  (length raw <= size)%nat ->
  roundTrips size e rest
    {| Version := 2; Command := LOCAL; TransportProtocol := UNSPEC;
       SourceAddr := None; DestinationAddr := None; rawTLVs := raw |}.
Proof.
  intros Hfit Hsize. pose proof (len_nonneg raw) as H0.
  unfold roundTrips.
  rewrite formatVersion2_no_family by reflexivity.
  cbn [Command TransportProtocol rawTLVs].
  rewrite uint16_small by lia.
  eexists. split; [reflexivity|].
  assert (HL := parseVersion2_layout size e SIGV2 LOCAL UNSPEC [] raw rest
                  eq_refl eq_refl eq_refl eq_refl eq_refl Hfit Hsize).
  exact HL.
Qed.

End RoundTrip.

(** A well-formed header whose transport is UNSPEC only with LOCAL, and no
    Unix transport, round trips through a reader whose buffer holds its
    payload. *)
Lemma roundTrips_wellFormed (h : Header) (size : nat) (e : error)
      (rest : list byte) :
  wellFormedV2 h = true ->
  localIfUnspec h = true ->
  Transport.IsUnix (TransportProtocol h) = false ->
  fixedLength (TransportProtocol h) + len (rawTLVs h) <= Z.of_nat size ->
  roundTrips size e rest h.
Proof.
  destruct h as [v cmd tp src dst raw].
  unfold wellFormedV2, localIfUnspec.
  cbn [Version Command TransportProtocol SourceAddr DestinationAddr rawTLVs].
  intros Hwf Hlocal Hnu Hsize.
  apply andb_prop in Hwf as [Hwf Hfit]. apply andb_prop in Hwf as [Hwf Haddr].
  apply andb_prop in Hwf as [Hv Hcmd].
  apply Z.eqb_eq in Hv. subst v. apply Z.leb_le in Hfit.
  unfold addrsMatch in Haddr.
  destruct (Byte.eqb tp UNSPEC) eqn:E0.
  { apply Byte.byte_dec_bl in E0. subst tp.
    destruct src; [discriminate|]. destruct dst; [discriminate|].
    cbn [negb orb] in Hlocal. apply Byte.byte_dec_bl in Hlocal. subst cmd.
    apply roundTrips_UNSPEC; [exact Hfit|].
    change (fixedLength UNSPEC) with 0 in Hsize. unfold len in Hsize. lia. }
  clear Hlocal E0.
  unfold ipAddrsMatch, unixAddrsMatch in Haddr.
  repeat match type of Haddr with
  | (if Byte.eqb tp ?c then _ else _) = true =>
    let E := fresh "E" in
    destruct (Byte.eqb tp c) eqn:E;
      [apply Byte.byte_dec_bl in E; subst tp | clear E]
  end; try discriminate;
  destruct src as [[sip sp|sip sp|snet sname]|]; try discriminate;
  destruct dst as [[dip dp|dip dp|dnet dname]|]; try discriminate;
  repeat match type of Haddr with
  | _ && _ = true => let H := fresh "Hm" in apply andb_prop in Haddr as [Haddr H]
  end;
  repeat match goal with
  | H : (_ =? _)%nat = true |- _ => apply Nat.eqb_eq in H
  | H : String.eqb _ _ = true |- _ => apply String.eqb_eq in H
  end; subst;
  try discriminate;
  unfold len in Hsize.
  - apply roundTrips_TCPv4; try assumption.
    change (fixedLength TCPv4) with 12 in Hsize. lia.
  - apply roundTrips_UDPv4; try assumption.
    change (fixedLength UDPv4) with 12 in Hsize. lia.
  - apply roundTrips_TCPv6; try assumption.
    change (fixedLength TCPv6) with 36 in Hsize. lia.
  - apply roundTrips_UDPv6; try assumption.
    change (fixedLength UDPv6) with 36 in Hsize. lia.
Qed.

(* ------------------------------------------------------------------ *)
(** ** The connection wrapper *)

(** Computes the fields of a connection that was built by the setters. *)
Ltac fields :=
  cbn [readHeaderTimeout conn connDeadlineErr ProxyHeaderPolicy bufReader
       header once readErr Validate readDeadline trace
       connLocalAddr connRemoteAddr connReadDeadline connStream connStreamErr
       fst snd setConn setBufReader setHeader] in *.

Section WrapperFacts.

Variables (arch : GOARCH) (os : GOOS) (v1 : M Header).

Lemma sameSettings_refl (p : Conn) : sameSettings p p.
Proof. unfold sameSettings. tauto. Qed.

Lemma sameSettings_trans (p q r : Conn) :
  sameSettings p q -> sameSettings q r -> sameSettings p r.
Proof.
  unfold sameSettings. intros (?&?&?&?&?&?&?) (?&?&?&?&?&?&?).
  repeat split; congruence.
Qed.

Lemma headerReads_app (a b : list Event) :
  headerReads (a ++ b) = (headerReads a + headerReads b)%nat.
Proof. unfold headerReads. rewrite filter_app, length_app. reflexivity. Qed.

Lemma installDeadline_fst (now : Time) (p : Conn) :
  installable p -> fst (installDeadline now p) = None.
Proof.
  intros Hinst. unfold installDeadline, NetConn_SetReadDeadline.
  destruct (Z.gtb_spec (readHeaderTimeout p) 0) as [Hpos|Hneg]; [|reflexivity].
  destruct Hinst as [Hle|Hnone]; [lia|]. rewrite Hnone. reflexivity.
Qed.

Lemma installDeadline_snd (now : Time) (p : Conn) :
  sameButIO p (snd (installDeadline now p))
  /\ bufReader (snd (installDeadline now p)) = bufReader p.
Proof.
  unfold installDeadline, NetConn_SetReadDeadline, sameButIO, sameSettings.
  destruct (readHeaderTimeout p >? 0); [|tauto].
  destruct (connDeadlineErr (conn p)) eqn:E; fields;
    rewrite headerReads_app, ?E; cbn; rewrite Nat.add_0_r; tauto.
Qed.

Lemma restoreDeadline_fields (p : Conn) (t : Time) :
  sameButIO p (restoreDeadline p t)
  /\ bufReader (restoreDeadline p t) = bufReader p.
Proof.
  unfold restoreDeadline, NetConn_SetReadDeadline, sameButIO, sameSettings.
  destruct (readHeaderTimeout p >? 0); [|tauto].
  destruct (connDeadlineErr (conn p)) eqn:E; fields;
    rewrite headerReads_app, ?E; cbn; rewrite Nat.add_0_r; tauto.
Qed.

Lemma restoreDeadline_deadline (p : Conn) (t : Time) :
  connDeadlineErr (conn p) = None ->
  connReadDeadline (conn (restoreDeadline p t))
  = if readHeaderTimeout p >? 0 then t else connReadDeadline (conn p).
Proof.
  intros Hnone. unfold restoreDeadline, NetConn_SetReadDeadline.
  destruct (readHeaderTimeout p >? 0); [|reflexivity].
  rewrite Hnone. reflexivity.
Qed.

Lemma translateTimeout_sameSettings (p q : Conn) (err : option error) :
  readHeaderTimeout q = readHeaderTimeout p ->
  translateTimeout q err = translateTimeout p err.
Proof. intros H. unfold translateTimeout. rewrite H. reflexivity. Qed.

Lemma attempted_fields (now : Time) (p : Conn) (br : Reader) :
  sameSettings p (attempted now p br)
  /\ header (attempted now p br) = header p
  /\ once (attempted now p br) = once p
  /\ readErr (attempted now p br) = readErr p
  /\ bufReader (attempted now p br) = br
  /\ headerReads (trace (attempted now p br)) = S (headerReads (trace p)).
Proof.
  unfold attempted.
  destruct (installDeadline_snd now p) as [(Hs1 & Hh1 & Ho1 & He1 & Ht1) Hb1].
  set (p1 := snd (installDeadline now p)) in *.
  destruct (restoreDeadline_fields (setBufReader p1 br [EvReadHeader])
              (origDeadlineOf p)) as [(Hs2 & Hh2 & Ho2 & He2 & Ht2) Hb2].
  set (p3 := restoreDeadline _ _) in *.
  assert (Hs12 : sameSettings p1 (setBufReader p1 br [EvReadHeader]))
    by (unfold sameSettings; fields; tauto).
  fields. rewrite headerReads_app in Ht2. cbn in Ht2.
  split; [exact (sameSettings_trans _ _ _ Hs1 (sameSettings_trans _ _ _ Hs12 Hs2))|].
  repeat split; [congruence | congruence | congruence | congruence | lia].
Qed.

Lemma attempted_deadline (now : Time) (p : Conn) (br : Reader) :
  0 < readHeaderTimeout p ->
  connDeadlineErr (conn p) = None ->
  connReadDeadline (conn (attempted now p br)) = storedDeadline p.
Proof.
  intros Hpos Hset. unfold attempted.
  destruct (installDeadline_snd now p) as [((_ & _ & Ht & _ & _ & _ & Hd) & _) _].
  rewrite restoreDeadline_deadline by (fields; rewrite Hd; exact Hset).
  fields. rewrite Ht. unfold origDeadlineOf.
  destruct (Z.gtb_spec (readHeaderTimeout p) 0); [reflexivity|lia].
Qed.

(** The header read, when the temporary deadline can be installed: the
    stream is read once, the deadline of the socket is put back, and the
    policy is applied to what the read gave. *)
Lemma readHeader_installable (now : Time) (p : Conn) (res : result Header)
      (br : Reader) :
  installable p ->
  Read v1 (bufReader p) = (res, br) ->
  readHeader v1 now p
  = applyPolicy (attempted now p br) (headerOf res)
      (translateTimeout p (errorOf res)).
Proof.
  intros Hinst Hread. unfold readHeader.
  pose proof (installDeadline_fst now p Hinst) as Hfst.
  destruct (installDeadline_snd now p) as [_ Hbuf].
  destruct (installDeadline now p) as [err p1] eqn:E. cbn [fst snd] in *.
  subst err. rewrite Hbuf, Hread.
  unfold attempted. rewrite E. cbn [snd].
  f_equal. apply translateTimeout_sameSettings.
  pose proof (attempted_fields now p br) as [(_ & _ & Ht & _) _].
  unfold attempted in Ht. rewrite E in Ht. exact Ht.
Qed.

(** When the temporary deadline cannot be installed, the stream is not
    read at all and the error of [SetReadDeadline] is returned. *)
Lemma readHeader_not_installable (now : Time) (p : Conn) (err : error) :
  0 < readHeaderTimeout p ->
  connDeadlineErr (conn p) = Some err ->
  fst (readHeader v1 now p) = Some err
  /\ sameButIO p (snd (readHeader v1 now p))
  /\ bufReader (snd (readHeader v1 now p)) = bufReader p
  /\ conn (snd (readHeader v1 now p)) = conn p.
Proof.
  intros Hpos Herr. unfold readHeader, installDeadline, NetConn_SetReadDeadline.
  destruct (Z.gtb_spec (readHeaderTimeout p) 0); [|lia].
  rewrite Herr. unfold sameButIO, sameSettings. fields.
  rewrite headerReads_app. cbn. rewrite Nat.add_0_r. tauto.
Qed.

(** *** The policy *)

Lemma applyPolicy_conn (p : Conn) (hdr : option Header) (err : option error) :
  sameSettings p (snd (applyPolicy p hdr err))
  /\ conn (snd (applyPolicy p hdr err)) = conn p
  /\ bufReader (snd (applyPolicy p hdr err)) = bufReader p
  /\ trace (snd (applyPolicy p hdr err)) = trace p
  /\ once (snd (applyPolicy p hdr err)) = once p
  /\ readErr (snd (applyPolicy p hdr err)) = readErr p.
Proof.
  unfold applyPolicy, sameSettings.
  destruct err as [[]|]; destruct hdr; destruct (ProxyHeaderPolicy p) eqn:EP;
    try destruct (Validate p) as [validate|] eqn:EV;
    try destruct (validate _);
    fields; repeat split; congruence.
Qed.

(** A header is stored only when no error is returned. *)
Lemma applyPolicy_error (p : Conn) (hdr : option Header) (err : option error)
      (e : error) :
  fst (applyPolicy p hdr err) = Some e ->
  header (snd (applyPolicy p hdr err)) = header p.
Proof.
  unfold applyPolicy.
  destruct err as [[]|]; destruct hdr; destruct (ProxyHeaderPolicy p);
    try destruct (Validate p) as [validate|];
    try destruct (validate _);
    fields; intros H; try reflexivity; discriminate H.
Qed.

Lemma applyPolicy_REQUIRE_plain (p : Conn) (hdr : option Header) :
  ProxyHeaderPolicy p = REQUIRE ->
  fst (applyPolicy p hdr (Some ErrNoProxyProtocol)) = Some ErrNoProxyProtocol.
Proof. intros H. unfold applyPolicy. rewrite H. reflexivity. Qed.

Lemma applyPolicy_REJECT_header (p : Conn) (h : Header) :
  ProxyHeaderPolicy p = REJECT ->
  fst (applyPolicy p (Some h) None) = Some ErrSuperfluousProxyHeader.
Proof. intros H. unfold applyPolicy. rewrite H. reflexivity. Qed.

(** Without a header, every policy but REQUIRE goes on with the plain
    stream. *)
Lemma applyPolicy_plain (p : Conn) (hdr : option Header) :
  ProxyHeaderPolicy p <> REQUIRE ->
  applyPolicy p hdr (Some ErrNoProxyProtocol) = (None, p).
Proof.
  intros H. unfold applyPolicy. destruct (ProxyHeaderPolicy p); congruence.
Qed.

(** With a header that the validator accepts, USE and REQUIRE store it. *)
Lemma applyPolicy_populate (p : Conn) (h : Header) :
  ProxyHeaderPolicy p = USE \/ ProxyHeaderPolicy p = REQUIRE ->
  (forall validate, Validate p = Some validate -> validate h = None) ->
  applyPolicy p (Some h) None = (None, setHeader p h).
Proof.
  intros Hpol Hval. unfold applyPolicy.
  destruct (Validate p) as [validate|] eqn:EV.
  - rewrite (Hval validate eq_refl). destruct Hpol as [-> | ->]; reflexivity.
  - destruct Hpol as [-> | ->]; reflexivity.
Qed.

(** *** The header read as a whole *)

(** Whatever the stream and the socket do, the header read keeps the
    settings and the latch, reads the header from the stream at most once,
    and stores a header only when it returns no error. *)
Lemma readHeader_fields (now : Time) (p : Conn) :
  sameSettings p (snd (readHeader v1 now p))
  /\ once (snd (readHeader v1 now p)) = once p
  /\ readErr (snd (readHeader v1 now p)) = readErr p
  /\ (headerReads (trace (snd (readHeader v1 now p)))
      <= S (headerReads (trace p)))%nat
  /\ (forall e, fst (readHeader v1 now p) = Some e ->
                header (snd (readHeader v1 now p)) = header p).
Proof.
  assert (Hinst : installable p ->
    sameSettings p (snd (readHeader v1 now p))
    /\ once (snd (readHeader v1 now p)) = once p
    /\ readErr (snd (readHeader v1 now p)) = readErr p
    /\ (headerReads (trace (snd (readHeader v1 now p)))
        <= S (headerReads (trace p)))%nat
    /\ (forall e, fst (readHeader v1 now p) = Some e ->
                  header (snd (readHeader v1 now p)) = header p)).
  { intros Hi. destruct (Read v1 (bufReader p)) as [res br] eqn:ER.
    rewrite (readHeader_installable now p res br Hi ER).
    destruct (attempted_fields now p br) as (Hs & Hh & Ho & He & Hb & Ht).
    destruct (applyPolicy_conn (attempted now p br) (headerOf res)
                (translateTimeout p (errorOf res)))
      as (Hs' & Hc' & Hb' & Ht' & Ho' & He').
    refine (conj (sameSettings_trans _ _ _ Hs Hs') (conj _ (conj _ (conj _ _)))).
    - congruence.
    - congruence.
    - rewrite Ht', Ht. lia.
    - intros e He0. rewrite (applyPolicy_error _ _ _ e He0). exact Hh. }
  destruct (Z_le_gt_dec (readHeaderTimeout p) 0) as [Hle|Hgt];
    [exact (Hinst (or_introl Hle))|].
  destruct (connDeadlineErr (conn p)) as [err|] eqn:ED;
    [|exact (Hinst (or_intror ED))].
  destruct (readHeader_not_installable now p err ltac:(lia) ED)
    as (Hf & (Hs & Hh & Ho & He & Ht) & Hb & Hc).
  refine (conj Hs (conj Ho (conj He (conj _ _)))); [lia | intros; exact Hh].
Qed.

(** *** The latch *)

Lemma onceReadHeader_done (now : Time) (p : Conn) :
  once p = true -> onceReadHeader v1 now p = p.
Proof. intros H. unfold onceReadHeader. rewrite H. reflexivity. Qed.

Lemma onceReadHeader_once (now : Time) (p : Conn) :
  once (onceReadHeader v1 now p) = true.
Proof.
  unfold onceReadHeader. destruct (once p) eqn:E; [exact E|].
  destruct (readHeader v1 now p). reflexivity.
Qed.

Lemma onceReadHeader_first (now : Time) (p : Conn) :
  once p = false ->
  readErr (onceReadHeader v1 now p) = fst (readHeader v1 now p)
  /\ header (onceReadHeader v1 now p) = header (snd (readHeader v1 now p))
  /\ conn (onceReadHeader v1 now p) = conn (snd (readHeader v1 now p))
  /\ bufReader (onceReadHeader v1 now p) = bufReader (snd (readHeader v1 now p))
  /\ trace (onceReadHeader v1 now p) = trace (snd (readHeader v1 now p))
  /\ ProxyHeaderPolicy (onceReadHeader v1 now p)
     = ProxyHeaderPolicy (snd (readHeader v1 now p)).
Proof.
  intros H. unfold onceReadHeader. rewrite H.
  destruct (readHeader v1 now p). cbn. tauto.
Qed.

Lemma onceReadHeader_inv (now : Time) (p : Conn) :
  latchInv p ->
  latchInv (onceReadHeader v1 now p) /\ sameSocket p (onceReadHeader v1 now p).
Proof.
  intros (Hfresh & Hle & Herr).
  destruct (once p) eqn:E.
  - rewrite (onceReadHeader_done now p E).
    split; [|split; reflexivity].
    split; [intros HE; congruence|]. split; assumption.
  - destruct (Hfresh eq_refl) as (H0 & Hh & He).
    destruct (onceReadHeader_first now p E) as (Hre & Hhd & Hc & Hb & Ht & Hp).
    destruct (readHeader_fields now p) as (Hs & Ho & He' & Hcount & Hstore).
    pose proof (onceReadHeader_once now p) as Honce.
    split.
    + split; [intros HE; congruence|]. split.
      * rewrite Ht. lia.
      * intros e HE. rewrite Hre in HE. rewrite Hhd, (Hstore e HE). exact Hh.
    + unfold sameSocket. rewrite Hc.
      destruct Hs as (_ & _ & _ & _ & Hl & Hr & _). split; assumption.
Qed.

Lemma call_inv (now : Time) (c : Call) (p : Conn) :
  latchInv p ->
  latchInv (call v1 now c p) /\ sameSocket p (call v1 now c p)
  /\ once (call v1 now c p) = (once p || match c with
                                         | CallSetReadDeadline _
                                         | CallSetDeadline _ => false
                                         | _ => true
                                         end).
Proof.
  intros Hinv.
  destruct (onceReadHeader_inv now p Hinv) as [Hinv1 Hsock1].
  pose proof (onceReadHeader_once now p) as Honce.
  set (p1 := onceReadHeader v1 now p) in *.
  assert (Hor : forall b, b = true -> b = once p || true)
    by (intros b ->; symmetry; apply orb_true_r).
  destruct c as [n| | | |t|t]; cbn [call].
  - unfold Conn_Read. fold p1.
    destruct (readErr p1) as [e|] eqn:ER; cbn [snd];
      [split; [exact Hinv1|split; [exact Hsock1|apply Hor; exact Honce]]|].
    destruct ((0 <? n)%nat && (length (pending (bufReader p1)) =? 0)%nat);
      cbn [snd]; unfold latchInv, sameSocket, setBufReader in *; fields;
      rewrite headerReads_app; cbn [headerReads filter length];
      rewrite Nat.add_0_r, ER; (split; [|split; [exact Hsock1|apply Hor; exact Honce]]);
      destruct Hinv1 as (Hf & Hl & He); repeat split; try assumption;
      try (intros; discriminate); try (intros HE; congruence);
      try (apply Hf; assumption).
  - unfold Conn_ProxyHeader. fold p1. cbn [snd].
    split; [exact Hinv1|split; [exact Hsock1|apply Hor; exact Honce]].
  - unfold Conn_LocalAddr. fold p1.
    destruct (header p1) as [h|]; destruct (readErr p1);
      try destruct (Command.IsLocal (Command h)); cbn [snd];
      (split; [exact Hinv1|split; [exact Hsock1|apply Hor; exact Honce]]).
  - unfold Conn_RemoteAddr. fold p1.
    destruct (header p1) as [h|]; destruct (readErr p1);
      try destruct (Command.IsLocal (Command h)); cbn [snd];
      (split; [exact Hinv1|split; [exact Hsock1|apply Hor; exact Honce]]).
  - clear p1 Hinv1 Hsock1 Honce Hor.
    unfold Conn_SetReadDeadline, NetConn_SetReadDeadline, setReadDeadlineField.
    fields. rewrite orb_false_r.
    destruct (connDeadlineErr (conn p)); cbn [snd];
      unfold latchInv, sameSocket, setConn in *; fields;
      rewrite headerReads_app; cbn [headerReads filter length];
      rewrite Nat.add_0_r; tauto.
  - clear p1 Hinv1 Hsock1 Honce Hor.
    unfold Conn_SetDeadline, Conn_SetReadDeadline, NetConn_SetReadDeadline,
      setReadDeadlineField.
    fields. rewrite orb_false_r.
    destruct (connDeadlineErr (conn p)); cbn [snd];
      unfold latchInv, sameSocket, setConn in *; fields;
      rewrite headerReads_app; cbn [headerReads filter length];
      rewrite Nat.add_0_r; tauto.
Qed.

Lemma calls_cons (now : Time) (c : Call) (cs : list (Time * Call)) (p : Conn) :
  calls v1 ((now, c) :: cs) p = calls v1 cs (call v1 now c p).
Proof. reflexivity. Qed.

Lemma calls_inv (cs : list (Time * Call)) :
  forall p, latchInv p ->
            latchInv (calls v1 cs p) /\ sameSocket p (calls v1 cs p).
Proof.
  induction cs as [|[now c] cs IH]; intros p Hinv.
  - split; [exact Hinv | split; reflexivity].
  - rewrite calls_cons.
    destruct (call_inv now c p Hinv) as (Hinv1 & [Hl1 Hr1] & _).
    destruct (IH _ Hinv1) as (Hinv2 & [Hl2 Hr2]).
    split; [exact Hinv2|]. split; congruence.
Qed.

End WrapperFacts.

Section WrapperClaims.

Variables (arch : GOARCH) (os : GOOS) (v1 : M Header).

Lemma fresh_latchInv (p : Conn) : fresh p -> latchInv p.
Proof.
  intros (Ho & He & Hh & Ht). unfold latchInv. rewrite Ht, He, Hh.
  cbn. repeat split; try reflexivity; try lia; intros; discriminate.
Qed.

(** *** What [Read] makes of a stream *)

Lemma bytes_eqb_eq (a b : list byte) : bytes_eqb a b = true <-> a = b.
Proof.
  unfold bytes_eqb. destruct (list_eq_dec Byte.byte_eq_dec a b); split;
    intros; try assumption; try reflexivity; try discriminate; contradiction.
Qed.

Lemma bytes_eqb_single (b c : byte) : b <> c -> bytes_eqb [b] [c] = false.
Proof.
  intros Hne. destruct (bytes_eqb [b] [c]) eqn:E; [|reflexivity].
  apply bytes_eqb_eq in E. congruence.
Qed.

(** A stream whose first byte opens neither signature is not a PROXY
    stream; nothing is consumed. *)
Lemma Read_plain (r : Reader) (b : byte) (tl : list byte) :
  pending r = b :: tl ->
  (1 <= bufSize r)%nat ->
  b <> x50 -> b <> x0d ->
  Read v1 r = (Err ErrNoProxyProtocol, r).
Proof.
  intros Hp Hsz HP HCR. unfold Read, Peek. rewrite Hp.
  destruct (Nat.ltb_spec (bufSize r) 1); [lia|].
  cbn [length Nat.ltb Nat.leb firstn SIGV1 SIGV2].
  rewrite (bytes_eqb_single b x50 HP), (bytes_eqb_single b x0d HCR).
  reflexivity.
Qed.

(** A peer that sends nothing: the error of the source, [EOF] apart. *)
Lemma Read_silent (r : Reader) :
  pending r = [] ->
  (1 <= bufSize r)%nat ->
  Read v1 r = (Err (peekFailure (srcErr r)), r).
Proof.
  intros Hp Hsz. unfold Read, Peek. rewrite Hp.
  destruct (Nat.ltb_spec (bufSize r) 1); [lia|]. reflexivity.
Qed.

(** A stream that opens with the twelve bytes of the signature goes to the
    version 2 parser. *)
Lemma Read_signature (r : Reader) (tl : list byte) :
  pending r = SIGV2 ++ tl ->
  (12 <= bufSize r)%nat ->
  Read v1 r = parseVersion2 r.
Proof.
  intros Hp Hsz. unfold Read, Peek. rewrite Hp.
  destruct (Nat.ltb_spec (bufSize r) 1); [lia|].
  destruct (Nat.ltb_spec (bufSize r) 12); [lia|].
  reflexivity.
Qed.

Lemma translateTimeout_ErrNoProxyProtocol (p : Conn) :
  translateTimeout p (Some ErrNoProxyProtocol) = Some ErrNoProxyProtocol.
Proof. unfold translateTimeout. destruct (readHeaderTimeout p >? 0); reflexivity. Qed.

Lemma translateTimeout_None (p : Conn) : translateTimeout p None = None.
Proof. unfold translateTimeout. destruct (readHeaderTimeout p >? 0); reflexivity. Qed.

Lemma translateTimeout_expired (p : Conn) (e : error) :
  0 < readHeaderTimeout p -> isTimeout e = true ->
  translateTimeout p (Some e) = Some ErrNoProxyProtocol.
Proof.
  intros Hpos He. unfold translateTimeout.
  destruct (Z.gtb_spec (readHeaderTimeout p) 0); [|lia]. rewrite He. reflexivity.
Qed.

(** The header read on a plain stream, for a policy other than REQUIRE. *)
Lemma readHeader_plain (now : Time) (p : Conn) (br : Reader) :
  installable p ->
  ProxyHeaderPolicy p <> REQUIRE ->
  Read v1 (bufReader p) = (Err ErrNoProxyProtocol, br) ->
  readHeader v1 now p = (None, attempted now p br).
Proof.
  intros Hi Hpol Hread.
  rewrite (readHeader_installable v1 now p _ br Hi Hread).
  cbn [headerOf errorOf]. rewrite translateTimeout_ErrNoProxyProtocol.
  apply applyPolicy_plain.
  destruct (attempted_fields now p br) as ((HP & _) & _). congruence.
Qed.

(** The header read on a stream with a header that the validator, if there
    is one, accepts, for the policies USE and REQUIRE. *)
Lemma readHeader_populate (now : Time) (p : Conn) (h : Header) (br : Reader) :
  installable p ->
  ProxyHeaderPolicy p = USE \/ ProxyHeaderPolicy p = REQUIRE ->
  (forall validate, Validate p = Some validate -> validate h = None) ->
  Read v1 (bufReader p) = (Ok h, br) ->
  readHeader v1 now p = (None, setHeader (attempted now p br) h).
Proof.
  intros Hi Hpol Hval Hread.
  rewrite (readHeader_installable v1 now p _ br Hi Hread).
  cbn [headerOf errorOf]. rewrite translateTimeout_None.
  destruct (attempted_fields now p br) as ((HP & HV & _) & _).
  apply applyPolicy_populate; [rewrite HP; exact Hpol|].
  intros validate Hv. apply Hval. congruence.
Qed.

(** The result of an address query on a wrapper whose latch is open, in
    terms of the header read. *)
Lemma onceReadHeader_open (now : Time) (p : Conn) (err : option error)
      (q : Conn) :
  once p = false ->
  readHeader v1 now p = (err, q) ->
  readErr (onceReadHeader v1 now p) = err
  /\ header (onceReadHeader v1 now p) = header q
  /\ conn (onceReadHeader v1 now p) = conn q.
Proof.
  intros Ho Hr. unfold onceReadHeader. rewrite Ho, Hr. cbn. tauto.
Qed.

(** C6. The header read follows the policy table.  With REQUIRE, a
    stream without a PROXY header makes it fail with
    [ErrNoProxyProtocol]; with REJECT, a stream with a header that parses
    makes it fail with [ErrSuperfluousProxyHeader]; with USE, a stream
    without a header gives no error, and the wrapper then reports the
    addresses of the underlying socket.  (In each case the temporary
    deadline of the read, if one is set, can be installed.) *)
Theorem readHeader_policy_table (now : Time) (pRequire pReject pUse : Conn)
        (h : Header) (br1 br2 br3 : Reader) :
  installable pRequire -> installable pReject -> installable pUse ->
  ProxyHeaderPolicy pRequire = REQUIRE ->
  Read v1 (bufReader pRequire) = (Err ErrNoProxyProtocol, br1) ->
  ProxyHeaderPolicy pReject = REJECT ->
  Read v1 (bufReader pReject) = (Ok h, br2) ->
  ProxyHeaderPolicy pUse = USE ->
  Read v1 (bufReader pUse) = (Err ErrNoProxyProtocol, br3) ->
  fresh pUse ->
  fst (readHeader v1 now pRequire) = Some ErrNoProxyProtocol
  /\ fst (readHeader v1 now pReject) = Some ErrSuperfluousProxyHeader
  /\ fst (readHeader v1 now pUse) = None
  /\ readErr (snd (Conn_LocalAddr v1 now pUse)) = None
  /\ fst (Conn_LocalAddr v1 now pUse) = connLocalAddr (conn pUse)
  /\ fst (Conn_RemoteAddr v1 now pUse) = connRemoteAddr (conn pUse).
Proof.
  intros Hi1 Hi2 Hi3 Hp1 Hr1 Hp2 Hr2 Hp3 Hr3 (Ho & He & Hh & Ht).
  split; [|split].
  - rewrite (readHeader_installable v1 now pRequire _ br1 Hi1 Hr1).
    cbn [headerOf errorOf]. rewrite translateTimeout_ErrNoProxyProtocol.
    apply applyPolicy_REQUIRE_plain.
    destruct (attempted_fields now pRequire br1) as ((HP & _) & _). congruence.
  - rewrite (readHeader_installable v1 now pReject _ br2 Hi2 Hr2).
    cbn [headerOf errorOf]. rewrite translateTimeout_None.
    apply applyPolicy_REJECT_header.
    destruct (attempted_fields now pReject br2) as ((HP & _) & _). congruence.
  - assert (Hpol : ProxyHeaderPolicy pUse <> REQUIRE) by (rewrite Hp3; discriminate).
    pose proof (readHeader_plain now pUse br3 Hi3 Hpol Hr3) as Hrh.
    destruct (onceReadHeader_open now pUse _ _ Ho Hrh) as (HE & HH & HC).
    destruct (attempted_fields now pUse br3)
      as ((_ & _ & _ & _ & Hl & Hr & _) & Hhd & _).
    rewrite Hrh. split; [reflexivity|].
    unfold Conn_LocalAddr, Conn_RemoteAddr.
    rewrite HH, Hhd, Hh. cbn [fst snd]. rewrite HE, HC, Hl, Hr. tauto.
Qed.

(** C7, amended.  With a positive header-read timeout on a socket whose
    deadline can be set, a header read that reports the expiry of the
    deadline (a timeout error, as when the peer is silent) is turned into
    [ErrNoProxyProtocol]: under USE the read returns no error and stores
    no header.  Whatever the read gives, and whatever the policy, the read
    deadline last set through the wrapper (none if none was set) is on the
    socket again after the attempt. *)
Theorem readHeader_timeout_USE (now : Time) (p : Conn) :
  0 < readHeaderTimeout p ->
  connDeadlineErr (conn p) = None ->
  (forall e br,
      ProxyHeaderPolicy p = USE ->
      Read v1 (bufReader p) = (Err e, br) ->
      isTimeout e = true ->
      fst (readHeader v1 now p) = None
      /\ header (snd (readHeader v1 now p)) = header p)
  /\ connReadDeadline (conn (snd (readHeader v1 now p))) = storedDeadline p.
Proof.
  intros Hpos Hset. split.
  - intros e br Hpol Hread Hexp.
    rewrite (readHeader_installable v1 now p _ br (or_intror Hset) Hread).
    cbn [headerOf errorOf]. rewrite (translateTimeout_expired p e Hpos Hexp).
    destruct (attempted_fields now p br) as ((HP & _) & Hhd & _).
    rewrite applyPolicy_plain by (rewrite HP, Hpol; discriminate).
    cbn [fst snd]. split; [reflexivity | exact Hhd].
  - destruct (Read v1 (bufReader p)) as [res br] eqn:ER.
    rewrite (readHeader_installable v1 now p res br (or_intror Hset) ER).
    destruct (applyPolicy_conn (attempted now p br) (headerOf res)
                (translateTimeout p (errorOf res))) as (_ & Hc & _).
    rewrite Hc. apply attempted_deadline; assumption.
Qed.

(** The exit path that is left: when the temporary deadline cannot be
    installed, the header read returns at once and the socket is as it
    was. *)
Lemma readHeader_deadline_untouched (now : Time) (p : Conn) (err : error) :
  0 < readHeaderTimeout p ->
  connDeadlineErr (conn p) = Some err ->
  conn (snd (readHeader v1 now p)) = conn p.
Proof.
  intros Hpos ED.
  destruct (readHeader_not_installable v1 now p err Hpos ED) as (_ & _ & _ & Hc).
  exact Hc.
Qed.

(** C8. On a wrapper as [NewConn] makes it, after any sequence of calls of
    [Read], [ProxyHeader], [LocalAddr], [RemoteAddr] and the deadline
    setters, in any order, the header has been read from the stream at most
    once; two calls of [ProxyHeader] return the same header, and the second
    one does nothing to the connection. *)
Theorem header_read_at_most_once (p : Conn) (cs : list (Time * Call))
        (t1 t2 : Time) :
  fresh p ->
  (headerReads (trace (calls v1 cs p)) <= 1)%nat
  /\ fst (Conn_ProxyHeader v1 t2 (snd (Conn_ProxyHeader v1 t1 (calls v1 cs p))))
     = fst (Conn_ProxyHeader v1 t1 (calls v1 cs p))
  /\ snd (Conn_ProxyHeader v1 t2 (snd (Conn_ProxyHeader v1 t1 (calls v1 cs p))))
     = snd (Conn_ProxyHeader v1 t1 (calls v1 cs p))
  /\ (headerReads
        (trace (snd (Conn_ProxyHeader v1 t2
                       (snd (Conn_ProxyHeader v1 t1 (calls v1 cs p))))))
      <= 1)%nat.
Proof.
  intros Hfresh.
  destruct (calls_inv v1 cs p (fresh_latchInv p Hfresh)) as [Hinv _].
  set (q := calls v1 cs p) in *.
  destruct (onceReadHeader_inv v1 t1 q Hinv) as [(_ & Hle1 & _) _].
  unfold Conn_ProxyHeader. cbn [fst snd].
  rewrite (onceReadHeader_done v1 t2 _ (onceReadHeader_once v1 t1 q)).
  destruct Hinv as (_ & Hle & _). tauto.
Qed.

(** C9. When the one-shot header read of a wrapper ends in an error,
    whichever call triggered it, [LocalAddr] and [RemoteAddr] return the
    addresses of the underlying socket and [ProxyHeader] returns no
    header. *)
Theorem failed_read_reports_socket (p : Conn) (cs : list (Time * Call))
        (now : Time) (e : error) :
  fresh p ->
  readErr (onceReadHeader v1 now (calls v1 cs p)) = Some e ->
  fst (Conn_LocalAddr v1 now (calls v1 cs p)) = connLocalAddr (conn p)
  /\ fst (Conn_RemoteAddr v1 now (calls v1 cs p)) = connRemoteAddr (conn p)
  /\ fst (Conn_ProxyHeader v1 now (calls v1 cs p)) = None.
Proof.
  intros Hfresh Herr.
  destruct (calls_inv v1 cs p (fresh_latchInv p Hfresh)) as [Hinv [Hl Hr]].
  set (q := calls v1 cs p) in *.
  destruct (onceReadHeader_inv v1 now q Hinv) as [(_ & _ & Hnone) [Hl1 Hr1]].
  unfold Conn_LocalAddr, Conn_RemoteAddr, Conn_ProxyHeader.
  rewrite (Hnone e Herr). cbn [fst]. repeat split; congruence.
Qed.

(** *** The listener *)

Lemma NewConn_fresh (c : NetConn) (policy : Policy) (v : option Validator)
      (t : Duration) :
  let p := setReadHeaderTimeout
             (NewConn arch os c [WithPolicy policy; ValidateHeader v]) t in
  fresh p /\ ProxyHeaderPolicy p = policy /\ Validate p = v
  /\ readHeaderTimeout p = t /\ conn p = c /\ bufReader p = getReader arch os c
  /\ readDeadline p = None.
Proof.
  unfold NewConn, fresh. cbn [fold_left].
  destruct v; cbn; tauto.
Qed.


End WrapperClaims.

(* ------------------------------------------------------------------ *)
(** ** The claims on sample values *)

(** The specification's scenarios 3 and 4: the sample header is written as
    the sample bytes. *)
Example formatVersion2_tcp4Header :
  formatVersion2 tcp4Header = Some (Ok tcp4HeaderBytes).
Proof. vm_compute. reflexivity. Qed.

(** The TLV vector of the sample header is one ALPN entry. *)
Example SplitTLVs_tcp4Header :
  SplitTLVs (rawTLVs tcp4Header)
  = Ok [ {| Type_ := PP2_TYPE_ALPN; Value := [x68; x32; x00] |} ].
Proof. vm_compute. reflexivity. Qed.

(** Scenario 5: the shortest header. *)
Example parseVersion2_LOCAL_UNSPEC :
  parseVersion2 (mkReader 4096 (SIGV2 ++ [x20; x00; x00; x00]) EOF)
  = (Ok {| Version := 2; Command := LOCAL; TransportProtocol := UNSPEC;
           SourceAddr := None; DestinationAddr := None; rawTLVs := [] |},
     mkReader 4096 [] EOF).
Proof. vm_compute. reflexivity. Qed.

(** C1, amended.  For a well-formed version 2 header whose transport is
    UNSPEC only when its command is LOCAL and is none of the Unix
    transports, [formatVersion2] succeeds, and [parseVersion2] on a reader
    whose buffer holds the declared payload (address block and TLV vector)
    and that delivers the formatted bytes returns a header equal to the
    given one in every field, the TLV vector byte for byte, and leaves what
    follows the header unread. *)
Theorem parseVersion2_formatVersion2 (h : Header) (size : nat) (e : error)
        (rest : list byte) :
  wellFormedV2 h = true ->
  localIfUnspec h = true ->
  Transport.IsUnix (TransportProtocol h) = false ->
  fixedLength (TransportProtocol h) + len (rawTLVs h) <= Z.of_nat size ->
  exists out,
    formatVersion2 h = Some (Ok out)
    /\ parseVersion2 (mkReader size (out ++ rest) e)
       = (Ok h, mkReader size rest e).
Proof.
  intros Hwf Hlocal Hnu Hsize.
  exact (roundTrips_wellFormed h size e rest Hwf Hlocal Hnu Hsize).
Qed.

Lemma parseVersion2_formatVersion2_witness :
  exists out,
    formatVersion2 tcp4Header = Some (Ok out)
    /\ parseVersion2 (mkReader 4096 (out ++ helo) EOF)
       = (Ok tcp4Header, mkReader 4096 helo EOF).
Proof.
  apply (parseVersion2_formatVersion2 tcp4Header 4096 EOF helo).
  - reflexivity.
  - reflexivity.
  - reflexivity.
  - vm_compute. discriminate.
Defined.

(** The claim as stated fails for a PROXY header with the UNSPEC transport:
    it meets every condition of well-formedness and is formatted, but the
    parser refuses its bytes. *)
Lemma parseVersion2_formatVersion2_PROXY_UNSPEC :
  wellFormedV2 proxyUnspecHeader = true
  /\ formatVersion2 proxyUnspecHeader
     = Some (Ok (SIGV2 ++ [x21; x00; x00; x00]))
  /\ parseVersion2 (mkReader 4096 (SIGV2 ++ [x21; x00; x00; x00]) EOF)
     = (Err ErrUnsupportedAddressFamilyAndProtocol,
        mkReader 4096 [x00; x00] EOF).
Proof. vm_compute. repeat split. Qed.

(** It also fails when the payload does not fit the buffer of the reader:
    the peek of the declared length cannot succeed. *)
Lemma parseVersion2_formatVersion2_small_buffer :
  wellFormedV2 largeHeader = true
  /\ localIfUnspec largeHeader = true
  /\ exists out,
       formatVersion2 largeHeader = Some (Ok out)
       /\ fst (parseVersion2 (mkReader 4096 out EOF)) = Err ErrInvalidLength.
Proof.
  split; [vm_compute; reflexivity|]. split; [reflexivity|].
  eexists. split; [vm_compute; reflexivity|]. vm_compute. reflexivity.
Qed.

(** A silent peer makes the header read of an accepted connection report
    the expiry of the deadline. *)
Example Read_silentWrapper :
  Read noVersion1 (bufReader silentWrapper)
  = (Err ErrDeadlineExceeded, bufReader silentWrapper).
Proof. vm_compute. reflexivity. Qed.

Lemma readHeader_policy_table_witness :
  fst (readHeader noVersion1 0 (wrapped REQUIRE (socket plainStream EOF)))
  = Some ErrNoProxyProtocol
  /\ fst (readHeader noVersion1 0
            (wrapped REJECT (socket (tcp4HeaderBytes ++ helo) EOF)))
     = Some ErrSuperfluousProxyHeader
  /\ fst (readHeader noVersion1 0 (wrapped USE (socket plainStream EOF))) = None
  /\ readErr (snd (Conn_LocalAddr noVersion1 0
                     (wrapped USE (socket plainStream EOF)))) = None
  /\ fst (Conn_LocalAddr noVersion1 0 (wrapped USE (socket plainStream EOF)))
     = connLocalAddr (conn (wrapped USE (socket plainStream EOF)))
  /\ fst (Conn_RemoteAddr noVersion1 0 (wrapped USE (socket plainStream EOF)))
     = connRemoteAddr (conn (wrapped USE (socket plainStream EOF))).
Proof.
  apply (readHeader_policy_table noVersion1 0
           (wrapped REQUIRE (socket plainStream EOF))
           (wrapped REJECT (socket (tcp4HeaderBytes ++ helo) EOF))
           (wrapped USE (socket plainStream EOF))
           tcp4Header
           (mkReader 4096 plainStream EOF)
           (mkReader 4096 helo EOF)
           (mkReader 4096 plainStream EOF)).
  - right. reflexivity.
  - right. reflexivity.
  - right. reflexivity.
  - reflexivity.
  - vm_compute. reflexivity.
  - reflexivity.
  - vm_compute. reflexivity.
  - reflexivity.
  - vm_compute. reflexivity.
  - repeat split; reflexivity.
Defined.

Lemma readHeader_timeout_USE_witness :
  (forall e br,
      ProxyHeaderPolicy silentWrapper = USE ->
      Read noVersion1 (bufReader silentWrapper) = (Err e, br) ->
      isTimeout e = true ->
      fst (readHeader noVersion1 0 silentWrapper) = None
      /\ header (snd (readHeader noVersion1 0 silentWrapper))
         = header silentWrapper)
  /\ connReadDeadline (conn (snd (readHeader noVersion1 0 silentWrapper)))
     = storedDeadline silentWrapper.
Proof.
  apply (readHeader_timeout_USE noVersion1 0 silentWrapper).
  - vm_compute. reflexivity.
  - reflexivity.
Defined.

(** The silent peer of the sample: ten seconds later the header read gives
    up without an error, and the socket has no deadline again. *)
Example readHeader_silentWrapper :
  fst (readHeader noVersion1 0 silentWrapper) = None
  /\ header (snd (readHeader noVersion1 0 silentWrapper)) = None
  /\ connReadDeadline (conn (snd (readHeader noVersion1 0 silentWrapper)))
     = zeroTime
  /\ trace (snd (readHeader noVersion1 0 silentWrapper))
     = [EvSetReadDeadline (10 * Second); EvReadHeader;
        EvSetReadDeadline zeroTime].
Proof. vm_compute. repeat split. Qed.

(** The claim as stated fails when the deadline expires after the
    signature has arrived: the version 2 parser turns the failed read of
    the next byte into its own error, which is not a timeout error, so the
    header read of a connection with policy USE returns it, and every
    later [Read] fails with it. *)
Lemma readHeader_timeout_after_signature :
  0 < readHeaderTimeout stalledWrapper
  /\ ProxyHeaderPolicy stalledWrapper = USE
  /\ pending (bufReader stalledWrapper) = SIGV2
  /\ srcErr (bufReader stalledWrapper) = ErrDeadlineExceeded
  /\ fst (readHeader noVersion1 0 stalledWrapper)
     = Some ErrCantReadProtocolVersionAndCommand
  /\ fst (Conn_Read noVersion1 0 4 stalledWrapper)
     = Err ErrCantReadProtocolVersionAndCommand.
Proof. vm_compute. repeat split. Qed.

(** The same for any version 1 parser: the stream does not reach it. *)
Lemma readHeader_timeout_after_signature_any (v1 : M Header) (now : Time) :
  fst (readHeader v1 now stalledWrapper)
  = Some ErrCantReadProtocolVersionAndCommand.
Proof.
  unfold readHeader.
  change (installDeadline now stalledWrapper)
    with (None : option error,
          setConn stalledWrapper
            (snd (NetConn_SetReadDeadline (conn stalledWrapper)
                    (now + DefaultReadHeaderTimeout)))
            [EvSetReadDeadline (now + DefaultReadHeaderTimeout)]).
  cbn iota beta.
  rewrite (Read_signature v1 _ []) by (cbn; try reflexivity; lia).
  reflexivity.
Qed.

Lemma header_read_at_most_once_witness :
  (headerReads (trace (calls noVersion1 sampleCalls proxiedWrapper)) <= 1)%nat
  /\ fst (Conn_ProxyHeader noVersion1 8
            (snd (Conn_ProxyHeader noVersion1 7
                    (calls noVersion1 sampleCalls proxiedWrapper))))
     = fst (Conn_ProxyHeader noVersion1 7
              (calls noVersion1 sampleCalls proxiedWrapper))
  /\ snd (Conn_ProxyHeader noVersion1 8
            (snd (Conn_ProxyHeader noVersion1 7
                    (calls noVersion1 sampleCalls proxiedWrapper))))
     = snd (Conn_ProxyHeader noVersion1 7
              (calls noVersion1 sampleCalls proxiedWrapper))
  /\ (headerReads
        (trace (snd (Conn_ProxyHeader noVersion1 8
                       (snd (Conn_ProxyHeader noVersion1 7
                               (calls noVersion1 sampleCalls proxiedWrapper))))))
      <= 1)%nat.
Proof.
  apply (header_read_at_most_once noVersion1 proxiedWrapper sampleCalls 7 8).
  repeat split; reflexivity.
Defined.

Lemma failed_read_reports_socket_witness :
  fst (Conn_LocalAddr noVersion1 3
         (calls noVersion1 [(1, CallRead 4)] requiringWrapper))
  = connLocalAddr (conn requiringWrapper)
  /\ fst (Conn_RemoteAddr noVersion1 3
            (calls noVersion1 [(1, CallRead 4)] requiringWrapper))
     = connRemoteAddr (conn requiringWrapper)
  /\ fst (Conn_ProxyHeader noVersion1 3
            (calls noVersion1 [(1, CallRead 4)] requiringWrapper))
     = None.
Proof.
  apply (failed_read_reports_socket noVersion1 requiringWrapper
           [(1, CallRead 4)] 3 ErrNoProxyProtocol).
  - repeat split; reflexivity.
  - vm_compute. reflexivity.
Defined.


(** An accepted connection end to end (scenario 4 of the specification,
    followed by a payload): the header is the sample header, the addresses
    are those of the header, and the first read gives the payload. *)
Example accepted_connection :
  let p := accepted (socket (tcp4HeaderBytes ++ helo) EOF) in
  Accept amd64 linux plainListener
    [Ok (socket (tcp4HeaderBytes ++ helo) EOF)] []
  = (Wrapped p, [])
  /\ fst (Conn_ProxyHeader noVersion1 0 p) = Some tcp4Header
  /\ fst (Conn_RemoteAddr noVersion1 0 p) = SourceAddr tcp4Header
  /\ fst (Conn_LocalAddr noVersion1 0 p) = DestinationAddr tcp4Header
  /\ fst (Conn_Read noVersion1 0 16 p) = Ok helo.
Proof. vm_compute. repeat split. Qed.

(** A plain stream on an accepted connection: no header, no error, the
    addresses of the socket, and the stream untouched. *)
Example accepted_plain_connection :
  let p := accepted (socket plainStream EOF) in
  fst (Conn_ProxyHeader noVersion1 0 p) = None
  /\ readErr (snd (Conn_ProxyHeader noVersion1 0 p)) = None
  /\ fst (Conn_RemoteAddr noVersion1 0 p)
     = connRemoteAddr (socket plainStream EOF)
  /\ fst (Conn_Read noVersion1 0 16 p) = Ok plainStream.
Proof. vm_compute. repeat split. Qed.

(** A header that the validator refuses, and a header on a connection that
    rejects headers: the read fails, the header that was parsed is not
    kept, and the addresses are those of the socket. *)
Example validation_failure :
  fst (Conn_Read noVersion1 0 16 validatingWrapper) = Err (ErrUser 1)
  /\ fst (Conn_ProxyHeader noVersion1 0 validatingWrapper) = None
  /\ fst (Conn_RemoteAddr noVersion1 0 validatingWrapper)
     = connRemoteAddr (conn validatingWrapper)
  /\ fst (Conn_LocalAddr noVersion1 0 validatingWrapper)
     = connLocalAddr (conn validatingWrapper).
Proof. vm_compute. repeat split. Qed.

Example superfluous_header :
  fst (Conn_Read noVersion1 0 16 rejectingWrapper)
  = Err ErrSuperfluousProxyHeader
  /\ fst (Conn_ProxyHeader noVersion1 0 rejectingWrapper) = None
  /\ fst (Conn_RemoteAddr noVersion1 0 rejectingWrapper)
     = connRemoteAddr (conn rejectingWrapper)
  /\ fst (Conn_LocalAddr noVersion1 0 rejectingWrapper)
     = connLocalAddr (conn rejectingWrapper).
Proof. vm_compute. repeat split. Qed.

(* ================================================================== *)
(** * Further properties of the code *)

(** ** The TLV vector: what [SplitTLVs] accepts and what it returns *)

Section TLVVectors.

(** The two bytes read by [Uint16] are those that [PutUint16] writes for
    their value. *)
Lemma PutUint16_Uint16 (hi lo : byte) : PutUint16 (Uint16 hi lo) = [hi; lo].
Proof.
  unfold PutUint16, Uint16.
  pose proof (byte_to_Z_range hi) as Hh. pose proof (byte_to_Z_range lo) as Hl.
  rewrite Z.shiftl_mul_pow2 by lia. change (2 ^ 8) with 256.
  pose proof (land_high_low (byte_to_Z hi) (byte_to_Z lo) Hl) as Hdisj.
  rewrite <- Z.lxor_lor by exact Hdisj.
  rewrite <- Z.add_nocarry_lxor by exact Hdisj.
  rewrite Z.shiftr_div_pow2 by lia. change (2 ^ 8) with 256.
  replace ((byte_to_Z hi * 256 + byte_to_Z lo) / 256) with (byte_to_Z hi)
    by (apply Z.div_unique with (r := byte_to_Z lo); lia).
  rewrite byte_of_to_Z.
  replace (byte_of_Z (byte_to_Z hi * 256 + byte_to_Z lo)) with lo; [reflexivity|].
  rewrite <- (byte_of_to_Z lo) at 1. unfold byte_of_Z.
  replace ((byte_to_Z hi * 256 + byte_to_Z lo) mod 256) with (byte_to_Z lo mod 256);
    [reflexivity|].
  rewrite Z.add_comm, Z.mod_add by lia. reflexivity.
Qed.

Lemma fitsUint16_range (tlv : TLV) :
  fitsUint16 tlv -> 0 <= len (Value tlv) <= MaxUint16.
Proof. unfold fitsUint16. pose proof (len_nonneg (Value tlv)). lia. Qed.

(** One turn of the loop over the wire form of an entry: the index moves
    past the entry, which is appended unless it is a NOOP. *)
Lemma splitLoop_entry (pre : list byte) (tlv : TLV) (rest : list byte)
      (acc : list TLV) :
  fitsUint16 tlv ->
  splitLoop (pre ++ encodeTLV tlv ++ rest) (length pre) acc
  = splitLoop (pre ++ encodeTLV tlv ++ rest) (length (pre ++ encodeTLV tlv))
      (if isNoop tlv then acc else acc ++ [tlv]).
Proof.
  intros Hf. apply fitsUint16_range in Hf.
  remember (pre ++ encodeTLV tlv ++ rest) as raw eqn:Hraw.
  assert (Hshape : raw = pre ++ Type_ tlv
                    :: byte_of_Z (Z.shiftr (len (Value tlv)) 8)
                    :: byte_of_Z (len (Value tlv))
                    :: Value tlv ++ rest).
  { subst raw. unfold encodeTLV, PutUint16. cbn [app]. reflexivity. }
  assert (Hlen : length raw
                 = (length pre + 3 + length (Value tlv) + length rest)%nat).
  { rewrite Hshape, length_app. cbn [length]. rewrite length_app. lia. }
  rewrite splitLoop_step by lia.
  destruct (Nat.ltb_spec (length raw - length pre) 3) as [Hshort|_]; [lia|].
  cbv zeta.
  assert (H0 : idx raw (length pre) = Type_ tlv).
  { rewrite Hshape, <- (Nat.add_0_r (length pre)), idx_prefix. reflexivity. }
  assert (H1 : idx raw (length pre + 1)
               = byte_of_Z (Z.shiftr (len (Value tlv)) 8)).
  { rewrite Hshape, idx_prefix. reflexivity. }
  assert (H2 : idx raw (length pre + 1 + 1) = byte_of_Z (len (Value tlv))).
  { rewrite Hshape.
    replace (length pre + 1 + 1)%nat with (length pre + 2)%nat by lia.
    rewrite idx_prefix. reflexivity. }
  rewrite H0, H1, H2, Uint16_PutUint16 by exact Hf.
  unfold len at 1 2 3. rewrite Nat2Z.id.
  destruct (Nat.ltb_spec (length raw) (length pre + 1 + 2 + length (Value tlv)))
    as [Hshort|_]; [lia|].
  assert (Hslice : slice raw (length pre + 1 + 2)
                     (length pre + 1 + 2 + length (Value tlv)) = Value tlv).
  { unfold slice.
    replace (length pre + 1 + 2 + length (Value tlv) - (length pre + 1 + 2))%nat
      with (length (Value tlv)) by lia.
    rewrite Hshape.
    replace (pre ++ Type_ tlv :: byte_of_Z (Z.shiftr (len (Value tlv)) 8)
               :: byte_of_Z (len (Value tlv)) :: Value tlv ++ rest)
      with ((pre ++ [Type_ tlv; byte_of_Z (Z.shiftr (len (Value tlv)) 8);
                    byte_of_Z (len (Value tlv))])
              ++ Value tlv ++ rest)
      by (rewrite <- app_assoc; reflexivity).
    replace (length pre + 1 + 2)%nat
      with (length (pre ++ [Type_ tlv; byte_of_Z (Z.shiftr (len (Value tlv)) 8);
                           byte_of_Z (len (Value tlv))]))
      by (rewrite length_app; simpl; lia).
    rewrite skipn_prefix, firstn_prefix. reflexivity. }
  rewrite Hslice.
  replace (length pre + 1 + 2 + length (Value tlv))%nat
    with (length (pre ++ encodeTLV tlv))
    by (rewrite length_app, length_encodeTLV; lia).
  unfold isNoop. destruct tlv as [t v]. reflexivity.
Qed.

(** The loop over the wire form of a list of entries, followed by anything:
    the index moves past the entries, of which all but the NOOPs are
    appended. *)
Lemma splitLoop_entries (L : list TLV) :
  Forall fitsUint16 L ->
  forall (pre rest : list byte) (acc : list TLV),
    splitLoop (pre ++ encodeTLVs L ++ rest) (length pre) acc
    = splitLoop (pre ++ encodeTLVs L ++ rest) (length (pre ++ encodeTLVs L))
        (acc ++ dropNoop L).
Proof.
  induction 1 as [|tlv L Hf _ IH]; intros pre rest acc.
  - cbn [encodeTLVs flat_map dropNoop filter app]. rewrite !app_nil_r.
    reflexivity.
  - rewrite encodeTLVs_cons, <- app_assoc.
    rewrite splitLoop_entry by exact Hf.
    rewrite !app_assoc. rewrite <- (app_assoc (pre ++ encodeTLV tlv)).
    rewrite IH. f_equal.
    cbn [dropNoop filter]. fold (dropNoop L).
    destruct (isNoop tlv); cbn [negb]; [reflexivity|].
    rewrite <- app_assoc. reflexivity.
Qed.

Lemma SplitTLVs_entries (L : list TLV) :
  Forall fitsUint16 L -> SplitTLVs (encodeTLVs L) = Ok (dropNoop L).
Proof.
  intros Hfit. unfold SplitTLVs.
  destruct (Nat.eqb_spec (length (encodeTLVs L)) 0) as [E|_].
  - destruct L as [|tlv rest]; [reflexivity|].
    rewrite encodeTLVs_cons, length_app, length_encodeTLV in E. lia.
  - pose proof (splitLoop_entries L Hfit [] [] []) as H.
    cbn [app length] in H. rewrite app_nil_r in H. rewrite H.
    apply splitLoop_done. lia.
Qed.

Lemma skipn_cons_idx (raw : list byte) (i : nat) :
  (i < length raw)%nat -> skipn i raw = idx raw i :: skipn (S i) raw.
Proof.
  revert i. induction raw as [|b raw IH]; intros i Hi; [simpl in Hi; lia|].
  destruct i as [|i]; [reflexivity|].
  cbn [skipn]. unfold idx. cbn [nth]. apply IH. simpl in Hi. lia.
Qed.

(** A run of the loop that ends well has scanned the wire form of a list
    of entries. *)
Lemma splitLoop_Ok_inv (n : nat) :
  forall (raw : list byte) (i : nat) (acc L : list TLV),
    (length raw - i <= n)%nat ->
    (i <= length raw)%nat ->
    splitLoop raw i acc = Ok L ->
    exists L',
      Forall fitsUint16 L'
      /\ skipn i raw = encodeTLVs L'
      /\ L = acc ++ dropNoop L'.
Proof.
  induction n as [|n IH]; intros raw i acc L Hn Hi Hrun.
  - rewrite splitLoop_done in Hrun by lia. inversion Hrun; subst.
    exists []. repeat split; [constructor | | symmetry; apply app_nil_r].
    rewrite skipn_all2 by lia. reflexivity.
  - destruct (Nat.eq_dec i (length raw)) as [->|Hne].
    + rewrite splitLoop_done in Hrun by lia. inversion Hrun; subst.
      exists []. repeat split; [constructor | | symmetry; apply app_nil_r].
      rewrite skipn_all. reflexivity.
    + rewrite splitLoop_step in Hrun by lia.
      destruct (Nat.ltb_spec (length raw - i) 3) as [|H3]; [discriminate|].
      cbv zeta in Hrun.
      set (tlvLen := Z.to_nat (Uint16 (idx raw (i + 1)) (idx raw (i + 1 + 1))))
        in *.
      destruct (Nat.ltb_spec (length raw) (i + 1 + 2 + tlvLen)) as [|Hfits];
        [discriminate|].
      set (tlv := {| Type_ := idx raw i;
                     Value := slice raw (i + 1 + 2) (i + 1 + 2 + tlvLen) |})
        in *.
      assert (Hvlen : length (Value tlv) = tlvLen).
      { cbn [Value tlv]. unfold slice.
        rewrite length_firstn, length_skipn. lia. }
      assert (Hacc : (if Byte.eqb (idx raw i) PP2_TYPE_NOOP then acc
                      else acc ++ [tlv])
                     = acc ++ dropNoop [tlv]).
      { cbn [dropNoop filter]. unfold isNoop. cbn [Type_ tlv].
        destruct (Byte.eqb (idx raw i) PP2_TYPE_NOOP); cbn [negb];
          [symmetry; apply app_nil_r | reflexivity]. }
      rewrite Hacc in Hrun.
      destruct (IH raw (i + 1 + 2 + tlvLen)%nat (acc ++ dropNoop [tlv]) L
                  ltac:(lia) ltac:(lia) Hrun) as (L' & HfL & Hskip & HL).
      exists (tlv :: L'). split; [|split].
      * constructor; [|exact HfL].
        unfold fitsUint16, len. rewrite Hvlen. subst tlvLen.
        pose proof (Uint16_range (idx raw (i + 1)) (idx raw (i + 1 + 1))).
        rewrite Z2Nat.id by lia. lia.
      * rewrite encodeTLVs_cons, <- Hskip. unfold encodeTLV.
        unfold len. rewrite Hvlen. subst tlvLen.
        pose proof (Uint16_range (idx raw (i + 1)) (idx raw (i + 1 + 1))).
        rewrite Z2Nat.id by lia. rewrite PutUint16_Uint16.
        cbn [Type_ Value tlv app].
        rewrite (skipn_cons_idx raw i) by lia.
        rewrite (skipn_cons_idx raw (S i)) by lia.
        rewrite (skipn_cons_idx raw (S (S i))) by lia.
        replace (i + 1)%nat with (S i) by lia.
        replace (S i + 1)%nat with (S (S i)) by lia.
        do 3 f_equal. unfold slice.
        replace (S i + 2)%nat with (S (S (S i))) by lia.
        set (k := Z.to_nat (Uint16 (idx raw (S i)) (idx raw (S (S i))))).
        replace (S (S (S i)) + k - S (S (S i)))%nat with k by lia.
        replace (S (S (S i)) + k)%nat with (k + S (S (S i)))%nat by lia.
        rewrite <- skipn_skipn. symmetry. apply firstn_skipn.
      * rewrite HL, <- app_assoc. f_equal.
        cbn [dropNoop filter]. destruct (negb (isNoop tlv)); reflexivity.
Qed.

Lemma SplitTLVs_Ok_inv (raw : list byte) (L : list TLV) :
  SplitTLVs raw = Ok L ->
  exists L',
    Forall fitsUint16 L' /\ raw = encodeTLVs L' /\ L = dropNoop L'.
Proof.
  unfold SplitTLVs. destruct (Nat.eqb_spec (length raw) 0) as [E|_].
  - intros H. inversion H; subst. exists []. repeat split; [constructor|].
    destruct raw; [reflexivity | discriminate].
  - intros H.
    destruct (splitLoop_Ok_inv (length raw) raw 0 [] L ltac:(lia) ltac:(lia) H)
      as (L' & HfL & Hskip & HL).
    exists L'. repeat split; assumption.
Qed.

End TLVVectors.

(** X1. [SplitTLVs] drops the NOOP padding and keeps everything else: for a
    list of entries whose values all fit a 16-bit length, [JoinTLVs]
    succeeds, and [SplitTLVs] gives back from its output the entries other
    than NOOP, in the same order. *)
Theorem SplitTLVs_JoinTLVs_drops_NOOP (L : list TLV) :
  Forall fitsUint16 L ->
  exists raw, JoinTLVs L = Some (Ok raw) /\ SplitTLVs raw = Ok (dropNoop L).
Proof.
  intros Hfit. exists (encodeTLVs L). split.
  - apply JoinTLVs_fits; exact Hfit.
  - apply SplitTLVs_entries; exact Hfit.
Qed.

(** X2. [SplitTLVs] succeeds exactly on the concatenations of entries (a
    type byte, a big-endian 16-bit length and that many bytes of value), and
    then returns the entries other than NOOP. *)
Theorem SplitTLVs_Ok_iff (raw : list byte) (L : list TLV) :
  SplitTLVs raw = Ok L
  <-> exists L',
        Forall fitsUint16 L' /\ raw = encodeTLVs L' /\ L = dropNoop L'.
Proof.
  split.
  - apply SplitTLVs_Ok_inv.
  - intros (L' & HfL & -> & ->). apply SplitTLVs_entries; exact HfL.
Qed.

Lemma SplitTLVs_JoinTLVs_drops_NOOP_witness :
  exists raw,
    JoinTLVs paddedTLVs = Some (Ok raw)
    /\ SplitTLVs raw
       = Ok [ {| Type_ := PP2_TYPE_ALPN; Value := [x68; x32] |};
              {| Type_ := PP2_TYPE_AUTHORITY; Value := [x61; x2e; x62] |} ].
Proof.
  apply (SplitTLVs_JoinTLVs_drops_NOOP paddedTLVs).
  repeat constructor; unfold fitsUint16, MaxUint16, len; simpl; lia.
Defined.

(** X3. A vector that ends inside an entry (after complete entries or at
    the start) is refused with [ErrTruncatedTLV]: no partial list is
    returned. *)
Theorem SplitTLVs_truncated (L : list TLV) (tlv : TLV) (cut : nat) :
  Forall fitsUint16 L ->
  fitsUint16 tlv ->
  (0 < cut < length (encodeTLV tlv))%nat ->
  SplitTLVs (encodeTLVs L ++ firstn cut (encodeTLV tlv)) = Err ErrTruncatedTLV.
Proof.
  intros HL Hf Hcut. rewrite length_encodeTLV in Hcut.
  assert (Hclen : length (firstn cut (encodeTLV tlv)) = cut)
    by (rewrite length_firstn, length_encodeTLV; lia).
  unfold SplitTLVs. rewrite length_app, Hclen.
  destruct (Nat.eqb_spec (length (encodeTLVs L) + cut) 0) as [E|_]; [lia|].
  pose proof (splitLoop_entries L HL [] (firstn cut (encodeTLV tlv)) []) as H.
  cbn [app length] in H. rewrite H. clear H.
  set (raw := encodeTLVs L ++ firstn cut (encodeTLV tlv)).
  assert (Hraw : length raw = (length (encodeTLVs L) + cut)%nat)
    by (unfold raw; rewrite length_app, Hclen; reflexivity).
  rewrite splitLoop_step by lia.
  destruct (Nat.ltb_spec (length raw - length (encodeTLVs L)) 3) as [_|H3];
    [reflexivity|].
  cbv zeta.
  assert (Hshape : firstn cut (encodeTLV tlv)
                   = Type_ tlv :: byte_of_Z (Z.shiftr (len (Value tlv)) 8)
                       :: byte_of_Z (len (Value tlv))
                       :: firstn (cut - 3) (Value tlv)).
  { unfold encodeTLV, PutUint16. cbn [app].
    destruct cut as [|[|[|cut]]]; try lia. cbn [firstn].
    replace (S (S (S cut)) - 3)%nat with cut by lia. reflexivity. }
  assert (H1 : idx raw (length (encodeTLVs L) + 1)
               = byte_of_Z (Z.shiftr (len (Value tlv)) 8)).
  { unfold raw. rewrite idx_prefix, Hshape. reflexivity. }
  assert (H2 : idx raw (length (encodeTLVs L) + 1 + 1)
               = byte_of_Z (len (Value tlv))).
  { unfold raw.
    replace (length (encodeTLVs L) + 1 + 1)%nat
      with (length (encodeTLVs L) + 2)%nat by lia.
    rewrite idx_prefix, Hshape. reflexivity. }
  rewrite H1, H2, Uint16_PutUint16 by (apply fitsUint16_range; exact Hf).
  unfold len at 1. rewrite Nat2Z.id.
  destruct (Nat.ltb_spec (length raw)
              (length (encodeTLVs L) + 1 + 2 + length (Value tlv)))
    as [_|Hge]; [reflexivity | lia].
Qed.

Lemma SplitTLVs_truncated_witness :
  SplitTLVs (encodeTLVs alpnAndAuthority
             ++ firstn 4 (encodeTLV {| Type_ := PP2_TYPE_UNIQUE_ID;
                                       Value := [x01; x02; x03] |}))
  = Err ErrTruncatedTLV.
Proof.
  apply (SplitTLVs_truncated alpnAndAuthority
           {| Type_ := PP2_TYPE_UNIQUE_ID; Value := [x01; x02; x03] |} 4).
  - repeat constructor; unfold fitsUint16, MaxUint16, len; simpl; lia.
  - unfold fitsUint16, MaxUint16, len; simpl; lia.
  - simpl; lia.
Defined.

Lemma fitsUint16_dec (tlv : TLV) : {fitsUint16 tlv} + {~ fitsUint16 tlv}.
Proof. unfold fitsUint16. apply Z_le_dec. Qed.

(** X4. [JoinTLVs] never writes outside the buffer it allocates (it does
    not panic), whatever the list: it returns either the concatenation of
    the wire forms of the entries, when all the values fit a 16-bit length,
    or the formatting error of an entry that does not. *)
Theorem JoinTLVs_no_panic (L : list TLV) :
  (Forall fitsUint16 L /\ JoinTLVs L = Some (Ok (encodeTLVs L)))
  \/ (exists t n,
        MaxUint16 < n /\ JoinTLVs L = Some (Err (ErrCannotFormatTLV t n))).
Proof.
  destruct (Forall_Exists_dec fitsUint16 fitsUint16_dec L) as [Hall|Hex].
  - left. split; [exact Hall | apply JoinTLVs_fits; exact Hall].
  - right.
    assert (HE : Exists (fun tlv => MaxUint16 < len (Value tlv)) L).
    { apply Exists_exists in Hex. destruct Hex as (x & Hin & Hx).
      apply Exists_exists. exists x. split; [exact Hin|].
      unfold fitsUint16 in Hx. lia. }
    destruct (first_oversize L HE) as (pre & tlv & post & -> & Hpre & Hbig).
    exists (Type_ tlv), (len (Value tlv)). split; [exact Hbig|].
    apply JoinTLVs_first_oversize; assumption.
Qed.

Lemma Forall_dropNoop (P : TLV -> Prop) (L : list TLV) :
  Forall P L -> Forall P (dropNoop L).
Proof.
  intros H. apply Forall_forall. intros x Hin.
  apply filter_In in Hin. destruct Hin as [Hin _].
  rewrite Forall_forall in H. apply H. exact Hin.
Qed.

Lemma notNoop_dropNoop (L : list TLV) : Forall notNoop (dropNoop L).
Proof.
  apply Forall_forall. intros x Hin.
  apply filter_In in Hin. destruct Hin as [_ Hx].
  unfold isNoop in Hx. unfold notNoop. intros E. rewrite E in Hx.
  discriminate.
Qed.

Lemma length_encodeTLVs_dropNoop (L : list TLV) :
  (length (encodeTLVs (dropNoop L)) <= length (encodeTLVs L))%nat.
Proof.
  induction L as [|tlv L IH]; [reflexivity|].
  cbn [dropNoop filter]. fold (dropNoop L).
  rewrite (encodeTLVs_cons tlv L), length_app.
  destruct (negb (isNoop tlv)); [|lia].
  rewrite encodeTLVs_cons, length_app. lia.
Qed.

(** X5. What [SplitTLVs] returns can always be joined again: [JoinTLVs]
    succeeds on it, its output is not longer than the vector that was split
    (the NOOP entries are gone), and [SplitTLVs] gives the same entries back
    from it. *)
Theorem JoinTLVs_SplitTLVs (raw : list byte) (L : list TLV) :
  SplitTLVs raw = Ok L ->
  exists raw',
    JoinTLVs L = Some (Ok raw')
    /\ (length raw' <= length raw)%nat
    /\ SplitTLVs raw' = Ok L.
Proof.
  intros H. apply SplitTLVs_Ok_inv in H.
  destruct H as (L' & HfL & -> & ->).
  exists (encodeTLVs (dropNoop L')). split; [|split].
  - apply JoinTLVs_fits, Forall_dropNoop, HfL.
  - apply length_encodeTLVs_dropNoop.
  - apply SplitTLVs_encodeTLVs;
      [apply Forall_dropNoop, HfL | apply notNoop_dropNoop].
Qed.

Lemma JoinTLVs_SplitTLVs_witness :
  exists raw',
    JoinTLVs (dropNoop paddedTLVs) = Some (Ok raw')
    /\ (length raw' <= length (encodeTLVs paddedTLVs))%nat
    /\ SplitTLVs raw' = Ok (dropNoop paddedTLVs).
Proof.
  apply (JoinTLVs_SplitTLVs (encodeTLVs paddedTLVs) (dropNoop paddedTLVs)).
  vm_compute. reflexivity.
Defined.

(** X6. The classes of TLV types do not overlap and leave no gap above
    0xE0: a type is in at most one of [Registered], [App], [Experiment] and
    [Future]; every type from 0xE0 up is in one of the last three; and below
    0xE0 the types covered by the specification are the registered ones. *)
Theorem PP2Type_classes (p : PP2Type) :
  (PP2Type.Registered p && PP2Type.App p = false)
  /\ (PP2Type.Registered p && PP2Type.Experiment p = false)
  /\ (PP2Type.Registered p && PP2Type.Future p = false)
  /\ (PP2Type.App p && PP2Type.Experiment p = false)
  /\ (PP2Type.App p && PP2Type.Future p = false)
  /\ (PP2Type.Experiment p && PP2Type.Future p = false)
  /\ (byte_leb PP2_TYPE_MIN_CUSTOM p = true ->
      PP2Type.App p || PP2Type.Experiment p || PP2Type.Future p = true)
  /\ (byte_leb PP2_TYPE_MIN_CUSTOM p = false ->
      PP2Type.Spec p = PP2Type.Registered p).
Proof.
  destruct p; vm_compute; repeat split; intros; congruence.
Qed.

(* ------------------------------------------------------------------ *)
(** ** The version 2 parser on any stream *)

Section ParseVersion2.

Variables (size : nat) (e : error).

Lemma validateLength_true (h : Header) (n : Z) :
  validateLength h n = true ->
  Transport.IsIPv4 (TransportProtocol h) || Transport.IsIPv6 (TransportProtocol h)
    || Transport.IsUnix (TransportProtocol h)
    || Transport.IsUnspec (TransportProtocol h) = true
  /\ fixedLength (TransportProtocol h) <= n.
Proof.
  unfold validateLength, fixedLength. cbv zeta.
  destruct (Transport.IsIPv4 (TransportProtocol h)); [intros H; split; [reflexivity|lia]|].
  destruct (Transport.IsIPv6 (TransportProtocol h)); [intros H; split; [reflexivity|lia]|].
  destruct (Transport.IsUnix (TransportProtocol h)); [intros H; split; [reflexivity|lia]|].
  destruct (Transport.IsUnspec (TransportProtocol h)); [|discriminate].
  intros H; split; [reflexivity|lia].
Qed.

(** The parser on a stream of at least sixteen bytes, in closed form: the
    checks it makes, in order, and the header it returns. *)
Lemma parseVersion2_body (sig : list byte) (b13 b14 hi lo : byte)
      (rest : list byte) :
  length sig = 12%nat ->
  let h0 :=
    {| Version := 2; Command := b13; TransportProtocol := b14;
       SourceAddr := None; DestinationAddr := None; rawTLVs := [] |} in
  let n := Uint16 hi lo in
  let fixed := Z.to_nat (fixedLength b14) in
  parseVersion2 (mkReader size (sig ++ b13 :: b14 :: hi :: lo :: rest) e)
  = if negb (supportedCommand b13)
    then (Err ErrUnsupportedProtocolVersionAndCommand,
          mkReader size (b14 :: hi :: lo :: rest) e)
    else if Byte.eqb b14 UNSPEC && negb (Byte.eqb b13 LOCAL)
    then (Err ErrUnsupportedAddressFamilyAndProtocol,
          mkReader size (hi :: lo :: rest) e)
    else if negb (validateLength h0 n)
    then (Err ErrInvalidLength, mkReader size rest e)
    else if n =? 0 then (Ok h0, mkReader size rest e)
    else if (size <? Z.to_nat n)%nat || (length rest <? Z.to_nat n)%nat
    then (Err ErrInvalidLength, mkReader size rest e)
    else (Ok {| Version := 2; Command := b13; TransportProtocol := b14;
                SourceAddr :=
                  if fixedLength b14 =? 0 then None
                  else fst (decodeBlock b14 (firstn fixed rest));
                DestinationAddr :=
                  if fixedLength b14 =? 0 then None
                  else snd (decodeBlock b14 (firstn fixed rest));
                rawTLVs := slice rest fixed (Z.to_nat n) |},
          mkReader size (skipn (Z.to_nat n) rest) e).
Proof.
  intros Hsig h0 n fixed.
  destruct (supportedCommand b13) eqn:Hcmd; cbn [negb].
  2:{ unfold parseVersion2.
      unfold bind at 1. rewrite (run_skipSignature size e 12 sig _ Hsig).
      unfold bind at 1. unfold orFail at 1. rewrite run_ReadByte.
      rewrite Hcmd. reflexivity. }
  destruct (Byte.eqb b14 UNSPEC && negb (Byte.eqb b13 LOCAL)) eqn:Hguard.
  { unfold parseVersion2.
    unfold bind at 1. rewrite (run_skipSignature size e 12 sig _ Hsig).
    unfold bind at 1. unfold orFail at 1. rewrite run_ReadByte.
    rewrite Hcmd. cbn [negb].
    unfold bind at 1. unfold orFail at 1. rewrite run_ReadByte.
    rewrite Hguard. reflexivity. }
  destruct (validateLength h0 n) eqn:Hval; cbn [negb].
  2:{ rewrite (parseVersion2_prefix size e sig b13 b14 hi lo rest Hsig Hcmd Hguard).
      cbv zeta. fold h0 n. rewrite Hval. reflexivity. }
  destruct (Z.eqb_spec n 0) as [E0|Hne].
  { rewrite (parseVersion2_prefix size e sig b13 b14 hi lo rest Hsig Hcmd Hguard).
    cbv zeta. fold h0 n. rewrite Hval, E0. reflexivity. }
  pose proof (Uint16_range hi lo) as Hn. fold n in Hn.
  destruct (validateLength_true h0 n Hval) as [Hfam Hfix].
  cbn [TransportProtocol h0] in Hfam, Hfix.
  pose proof (fixedLength_nonneg b14) as Hf0.
  destruct ((size <? Z.to_nat n)%nat || (length rest <? Z.to_nat n)%nat) eqn:Hshort.
  { rewrite (parseVersion2_prefix size e sig b13 b14 hi lo rest Hsig Hcmd Hguard).
    cbv zeta. fold h0 n. rewrite Hval. cbn [negb].
    destruct (Z.eqb_spec n 0) as [|_]; [contradiction|].
    assert (Hp : (size < Z.to_nat n)%nat \/ (length rest < Z.to_nat n)%nat).
    { apply orb_true_iff in Hshort. destruct Hshort as [H|H];
        apply Nat.ltb_lt in H; [left|right]; exact H. }
    destruct (run_Peek_short size e (Z.to_nat n) rest Hp) as [e' HP].
    unfold bind at 1. unfold orFail. rewrite HP. reflexivity. }
  apply orb_false_iff in Hshort. destruct Hshort as [Hs Hr].
  apply Nat.ltb_ge in Hs. apply Nat.ltb_ge in Hr.
  set (block := firstn fixed rest).
  set (tlvs := slice rest fixed (Z.to_nat n)).
  set (rest' := skipn (Z.to_nat n) rest).
  assert (Hblock : length block = fixed)
    by (unfold block; rewrite length_firstn; unfold fixed; lia).
  assert (Htlvs : length tlvs = (Z.to_nat n - fixed)%nat).
  { unfold tlvs, slice. rewrite length_firstn, length_skipn. unfold fixed. lia. }
  assert (Hrest : rest = block ++ tlvs ++ rest').
  { unfold block, tlvs, rest', slice.
    rewrite <- (firstn_skipn fixed rest) at 1. f_equal.
    rewrite <- (firstn_skipn (Z.to_nat n - fixed) (skipn fixed rest)) at 1.
    f_equal. rewrite skipn_skipn. f_equal. unfold fixed. lia. }
  assert (Hsum : len block + len tlvs = n).
  { unfold len. rewrite Hblock, Htlvs. unfold fixed. lia. }
  rewrite Hrest at 1.
  replace (sig ++ b13 :: b14 :: hi :: lo :: block ++ tlvs ++ rest')
    with (sig ++ b13 :: b14 :: PutUint16 (len block + len tlvs)
              ++ block ++ tlvs ++ rest')
    by (rewrite Hsum; unfold n; rewrite PutUint16_Uint16; reflexivity).
  apply parseVersion2_layout; try assumption.
  - unfold len. rewrite Hblock. unfold fixed. lia.
  - rewrite Hsum. lia.
  - rewrite Hblock, Htlvs. unfold fixed. lia.
Qed.

End ParseVersion2.

Section ParseVersion2Short.

Variables (size : nat) (e : error).

(** The error for a stream that ends within the first sixteen bytes. *)
Lemma parseVersion2_short (p : list byte) :
  (length p < 16)%nat ->
  fst (parseVersion2 (mkReader size p e))
  = Err (if (length p <? 13)%nat then ErrCantReadProtocolVersionAndCommand
         else if negb (supportedCommand (idx p 12))
         then ErrUnsupportedProtocolVersionAndCommand
         else if (length p <? 14)%nat then ErrCantReadAddressFamilyAndProtocol
         else if Byte.eqb (idx p 13) UNSPEC && negb (Byte.eqb (idx p 12) LOCAL)
         then ErrUnsupportedAddressFamilyAndProtocol
         else ErrCantReadLength).
Proof.
  intros Hlen.
  do 12 (destruct p as [|? p]; [reflexivity|]).
  destruct p as [|b13 p]; [reflexivity|].
  unfold idx. cbn [nth].
  match goal with
  | |- context [mkReader size (?a0 :: ?a1 :: ?a2 :: ?a3 :: ?a4 :: ?a5 :: ?a6
                                 :: ?a7 :: ?a8 :: ?a9 :: ?a10 :: ?a11 :: ?tl) e] =>
    change (a0 :: a1 :: a2 :: a3 :: a4 :: a5 :: a6 :: a7 :: a8 :: a9 :: a10
               :: a11 :: tl)
      with ([a0; a1; a2; a3; a4; a5; a6; a7; a8; a9; a10; a11] ++ tl)
  end.
  unfold parseVersion2.
  unfold bind at 1. rewrite run_skipSignature by reflexivity.
  unfold bind at 1. unfold orFail at 1. rewrite run_ReadByte.
  rewrite length_app. cbn [length Nat.add Nat.ltb Nat.leb].
  destruct (supportedCommand b13); cbn [negb]; [|reflexivity].
  destruct p as [|b14 p].
  { unfold bind at 1. unfold orFail at 1. rewrite run_ReadByte_empty.
    reflexivity. }
  unfold bind at 1. unfold orFail at 1. rewrite run_ReadByte.
  cbn [nth].
  destruct (Byte.eqb b14 UNSPEC && negb (Byte.eqb b13 LOCAL)); [reflexivity|].
  destruct p as [|hi [|lo p]]; [reflexivity | reflexivity |].
  cbn [length] in Hlen. lia.
Qed.

Lemma sixteen_bytes (p : list byte) :
  (16 <= length p)%nat ->
  exists sig b13 b14 hi lo rest,
    p = sig ++ b13 :: b14 :: hi :: lo :: rest /\ length sig = 12%nat.
Proof.
  intros H.
  do 16 (destruct p as [|? p]; [simpl in H; lia|]).
  match goal with
  | |- context [?a0 :: ?a1 :: ?a2 :: ?a3 :: ?a4 :: ?a5 :: ?a6 :: ?a7 :: ?a8
                  :: ?a9 :: ?a10 :: ?a11 :: ?c :: ?t :: ?h :: ?l :: p] =>
    exists [a0; a1; a2; a3; a4; a5; a6; a7; a8; a9; a10; a11], c, t, h, l, p
  end.
  split; reflexivity.
Qed.

(** The errors of the parser are those it names itself: the two returns
    of [ErrInvalidAddress] and the return of the error of the last read
    cannot be reached, since the payload has been peeked before. *)
Lemma parseVersion2_error_set (p : list byte) (err : error) :
  fst (parseVersion2 (mkReader size p e)) = Err err ->
  v2ParseError err = true.
Proof.
  destruct (Nat.lt_ge_cases (length p) 16) as [Hshort|Hlong].
  - rewrite (parseVersion2_short p Hshort). intros H. inversion H; subst.
    destruct (length p <? 13)%nat; [reflexivity|].
    destruct (negb (supportedCommand (idx p 12))); [reflexivity|].
    destruct (length p <? 14)%nat; [reflexivity|].
    destruct (Byte.eqb (idx p 13) UNSPEC && negb (Byte.eqb (idx p 12) LOCAL));
      reflexivity.
  - destruct (sixteen_bytes p Hlong)
      as (sig & b13 & b14 & hi & lo & rest & -> & Hsig).
    rewrite (parseVersion2_body size e sig b13 b14 hi lo rest Hsig). cbv zeta.
    destruct (negb (supportedCommand b13));
      [intros H; inversion H; reflexivity|].
    destruct (Byte.eqb b14 UNSPEC && negb (Byte.eqb b13 LOCAL));
      [intros H; inversion H; reflexivity|].
    destruct (negb (validateLength _ _));
      [intros H; inversion H; reflexivity|].
    destruct (Uint16 hi lo =? 0); [discriminate|].
    destruct ((size <? _)%nat || _); [intros H; inversion H; reflexivity|].
    discriminate.
Qed.

(** A successful parse, read backwards: the bytes it consumed and the
    header it made of them. *)
Lemma parseVersion2_Ok_shape (p : list byte) (h : Header) (r' : Reader) :
  parseVersion2 (mkReader size p e) = (Ok h, r') ->
  exists sig hi lo payload,
    p = sig ++ Command h :: TransportProtocol h :: hi :: lo
            :: payload ++ pending r'
    /\ length sig = 12%nat
    /\ len payload = Uint16 hi lo
    /\ (length payload <= size)%nat
    /\ Version h = 2
    /\ supportedCommand (Command h) = true
    /\ (TransportProtocol h = UNSPEC -> Command h = LOCAL)
    /\ fixedLength (TransportProtocol h) <= len payload
    /\ SourceAddr h
       = (if fixedLength (TransportProtocol h) =? 0 then None
          else fst (decodeBlock (TransportProtocol h)
                      (firstn (Z.to_nat (fixedLength (TransportProtocol h)))
                         payload)))
    /\ DestinationAddr h
       = (if fixedLength (TransportProtocol h) =? 0 then None
          else snd (decodeBlock (TransportProtocol h)
                      (firstn (Z.to_nat (fixedLength (TransportProtocol h)))
                         payload)))
    /\ rawTLVs h
       = skipn (Z.to_nat (fixedLength (TransportProtocol h))) payload
    /\ r' = mkReader size (pending r') e.
Proof.
  destruct (Nat.lt_ge_cases (length p) 16) as [Hshort|Hlong].
  { intros H. pose proof (parseVersion2_short p Hshort) as Hs.
    rewrite H in Hs. discriminate. }
  destruct (sixteen_bytes p Hlong)
    as (sig & b13 & b14 & hi & lo & rest & -> & Hsig).
  rewrite (parseVersion2_body size e sig b13 b14 hi lo rest Hsig). cbv zeta.
  destruct (supportedCommand b13) eqn:Hcmd; cbn [negb]; [|discriminate].
  destruct (Byte.eqb b14 UNSPEC && negb (Byte.eqb b13 LOCAL)) eqn:Hguard;
    [discriminate|].
  assert (Hlocal : b14 = UNSPEC -> b13 = LOCAL).
  { intros ->. cbn [Byte.eqb andb] in Hguard.
    change (Byte.eqb UNSPEC UNSPEC) with true in Hguard. cbn [andb] in Hguard.
    apply negb_false_iff in Hguard. apply Byte.byte_dec_bl in Hguard.
    exact Hguard. }
  set (h0 := {| Version := 2; Command := b13; TransportProtocol := b14;
                SourceAddr := None; DestinationAddr := None; rawTLVs := [] |}).
  destruct (validateLength h0 (Uint16 hi lo)) eqn:Hval; cbn [negb];
    [|discriminate].
  destruct (validateLength_true h0 _ Hval) as [_ Hfix].
  cbn [TransportProtocol h0] in Hfix.
  pose proof (fixedLength_nonneg b14) as Hf0.
  pose proof (Uint16_range hi lo) as Hn.
  destruct (Z.eqb_spec (Uint16 hi lo) 0) as [E0|Hne].
  - intros H. inversion H; subst. clear H.
    exists sig, hi, lo, []. cbn [app pending Version Command TransportProtocol
                                   SourceAddr DestinationAddr rawTLVs h0].
    assert (Hfz : fixedLength b14 = 0) by lia.
    rewrite Hfz. cbn [Z.eqb Z.to_nat skipn length].
    repeat split; try assumption; try reflexivity; try lia.
    unfold len. cbn [length]. lia.
  - destruct ((size <? Z.to_nat (Uint16 hi lo))%nat
              || (length rest <? Z.to_nat (Uint16 hi lo))%nat) eqn:Hshort;
      [discriminate|].
    apply orb_false_iff in Hshort. destruct Hshort as [Hs Hr].
    apply Nat.ltb_ge in Hs. apply Nat.ltb_ge in Hr.
    intros H. inversion H; subst. clear H.
    exists sig, hi, lo, (firstn (Z.to_nat (Uint16 hi lo)) rest).
    cbn [app pending Version Command TransportProtocol
             SourceAddr DestinationAddr rawTLVs].
    assert (Hplen : length (firstn (Z.to_nat (Uint16 hi lo)) rest)
                    = Z.to_nat (Uint16 hi lo))
      by (rewrite length_firstn; lia).
    assert (Hblock : firstn (Z.to_nat (fixedLength b14))
                       (firstn (Z.to_nat (Uint16 hi lo)) rest)
                     = firstn (Z.to_nat (fixedLength b14)) rest).
    { rewrite firstn_firstn. f_equal. lia. }
    rewrite Hblock.
    repeat split; try assumption; try reflexivity.
    + rewrite firstn_skipn. reflexivity.
    + unfold len. rewrite Hplen. lia.
    + lia.
    + unfold len. rewrite Hplen. lia.
    + unfold slice. rewrite skipn_firstn_comm. reflexivity.
Qed.

End ParseVersion2Short.

(* ------------------------------------------------------------------ *)
(** ** The version 2 codec: formatting what was parsed *)

(** Computes [formatVersion2] on a header with two IP endpoints whose
    addresses are lists of known length. *)
Ltac format_ip :=
  unfold formatVersion2;
  cbn [TransportProtocol]; reduce_transport;
  unfold IPs, TCPAddrs, UDPAddrs;
  cbn [TransportProtocol SourceAddr DestinationAddr];
  reduce_transport; cbn [negb To4 To16 length Nat.eqb];
  rewrite lengthWithTLVs_fits
    by (cbn [rawTLVs]; unfold lengthV4, lengthV6; lia);
  unfold appendPorts, Ports, TCPAddrs, UDPAddrs;
  cbn [TransportProtocol SourceAddr DestinationAddr rawTLVs Command];
  reduce_transport; cbn [negb];
  rewrite appendTLVs_app; cbn [rawTLVs];
  rewrite !uint16_small by assumption;
  unfold lengthV4, lengthV6;
  repeat rewrite <- app_assoc; cbn [app]; reflexivity.

Section FormatParsed.

Variables (cmd : byte) (sp dp : Z) (raw : list byte).
Hypothesis Hcmd : supportedCommand cmd = true.
Hypotheses (Hsp : 0 <= sp <= MaxUint16) (Hdp : 0 <= dp <= MaxUint16).

Lemma formatVersion2_TCPv4 (sip dip : list byte) :
  length sip = 4%nat -> length dip = 4%nat ->
  12 + len raw <= MaxUint16 ->
  formatVersion2
    {| Version := 2; Command := cmd; TransportProtocol := TCPv4;
       SourceAddr := Some (TCPAddr sip sp);
       DestinationAddr := Some (TCPAddr dip dp); rawTLVs := raw |}
  = Some (Ok (SIGV2 ++ cmd :: TCPv4 :: PutUint16 (12 + len raw)
                ++ sip ++ dip ++ PutUint16 sp ++ PutUint16 dp ++ raw)).
Proof.
  intros Hs Hd Hfit. explode sip Hs. explode dip Hd.
  rewrite <- (toByte_supported cmd Hcmd) at 2. format_ip.
Qed.

Lemma formatVersion2_UDPv4 (sip dip : list byte) :
  length sip = 4%nat -> length dip = 4%nat ->
  12 + len raw <= MaxUint16 ->
  formatVersion2
    {| Version := 2; Command := cmd; TransportProtocol := UDPv4;
       SourceAddr := Some (UDPAddr sip sp);
       DestinationAddr := Some (UDPAddr dip dp); rawTLVs := raw |}
  = Some (Ok (SIGV2 ++ cmd :: UDPv4 :: PutUint16 (12 + len raw)
                ++ sip ++ dip ++ PutUint16 sp ++ PutUint16 dp ++ raw)).
Proof.
  intros Hs Hd Hfit. explode sip Hs. explode dip Hd.
  rewrite <- (toByte_supported cmd Hcmd) at 2. format_ip.
Qed.

Lemma formatVersion2_TCPv6 (sip dip : list byte) :
  length sip = 16%nat -> length dip = 16%nat ->
  36 + len raw <= MaxUint16 ->
  formatVersion2
    {| Version := 2; Command := cmd; TransportProtocol := TCPv6;
       SourceAddr := Some (TCPAddr sip sp);
       DestinationAddr := Some (TCPAddr dip dp); rawTLVs := raw |}
  = Some (Ok (SIGV2 ++ cmd :: TCPv6 :: PutUint16 (36 + len raw)
                ++ sip ++ dip ++ PutUint16 sp ++ PutUint16 dp ++ raw)).
Proof.
  intros Hs Hd Hfit. explode sip Hs. explode dip Hd.
  rewrite <- (toByte_supported cmd Hcmd) at 2. format_ip.
Qed.

Lemma formatVersion2_UDPv6 (sip dip : list byte) :
  length sip = 16%nat -> length dip = 16%nat ->
  36 + len raw <= MaxUint16 ->
  formatVersion2
    {| Version := 2; Command := cmd; TransportProtocol := UDPv6;
       SourceAddr := Some (UDPAddr sip sp);
       DestinationAddr := Some (UDPAddr dip dp); rawTLVs := raw |}
  = Some (Ok (SIGV2 ++ cmd :: UDPv6 :: PutUint16 (36 + len raw)
                ++ sip ++ dip ++ PutUint16 sp ++ PutUint16 dp ++ raw)).
Proof.
  intros Hs Hd Hfit. explode sip Hs. explode dip Hd.
  rewrite <- (toByte_supported cmd Hcmd) at 2. format_ip.
Qed.

End FormatParsed.

Lemma len_cons {A} (a : A) (l : list A) : len (a :: l) = 1 + len l.
Proof. unfold len. cbn [length]. lia. Qed.

(** Closes the re-encoding of a parsed header with two IP endpoints: [L]
    is the lemma that computes [formatVersion2]. *)
Ltac reencode_ip L payload hi lo Hlen Hfix Hcmd :=
  repeat (destruct payload as [|? payload];
          [solve [exfalso; unfold len in Hfix; cbn [length] in Hfix; lia]|]);
  cbn [firstn skipn Z.eqb];
  unfold decodeBlock, newIPAddr; reduce_transport;
  repeat match goal with
         | |- context [Byte.eqb ?a ?b] => reduce_closed (Byte.eqb a) b
         end;
  cbn [negb fst snd slice firstn skipn idx nth Nat.sub];
  rewrite L;
  [ eexists; split; [reflexivity|];
    repeat rewrite len_cons in Hlen;
    match goal with
    | |- context [PutUint16 (?c + len payload)] =>
      replace (c + len payload) with (Uint16 hi lo) by lia
    end;
    rewrite !PutUint16_Uint16; repeat rewrite <- app_assoc; reflexivity
  | exact Hcmd
  | apply Uint16_range
  | apply Uint16_range
  | reflexivity
  | reflexivity
  | repeat rewrite len_cons in Hlen;
    pose proof (Uint16_range hi lo); lia ].

(** Formatting a parsed header gives back the bytes that were parsed, for
    the transports UNSPEC, TCP and UDP over IPv4 and IPv6. *)
Lemma formatVersion2_parsed (size : nat) (e : error) (p : list byte)
      (h : Header) (r' : Reader) :
  parseVersion2 (mkReader size p e) = (Ok h, r') ->
  firstn 12 p = SIGV2 ->
  In (TransportProtocol h) [UNSPEC; TCPv4; UDPv4; TCPv6; UDPv6] ->
  exists out, formatVersion2 h = Some (Ok out) /\ p = out ++ pending r'.
Proof.
  intros Hparse Hsig Htp.
  destruct (parseVersion2_Ok_shape size e p h r' Hparse)
    as (sig & hi & lo & payload & -> & Hsl & Hlen & _ & Hv & Hcmd & Hlocal
        & Hfix & Hsrc & Hdst & Hraw & _).
  rewrite <- Hsl, firstn_prefix in Hsig. subst sig.
  destruct h as [v cmd tp src dst raw].
  cbn [Version Command TransportProtocol SourceAddr DestinationAddr rawTLVs]
    in *.
  subst v src dst raw.
  cbn [In] in Htp.
  destruct Htp as [<-|[<-|[<-|[<-|[<-|[]]]]]].
  - rewrite (Hlocal eq_refl).
    change (fixedLength UNSPEC) with 0. cbn [Z.eqb Z.to_nat skipn].
    rewrite formatVersion2_no_family by reflexivity.
    cbn [Command TransportProtocol rawTLVs].
    eexists; split; [reflexivity|].
    rewrite Hlen, uint16_small by apply Uint16_range.
    rewrite PutUint16_Uint16. repeat rewrite <- app_assoc. reflexivity.
  - change (fixedLength TCPv4) with 12 in *.
    change (Z.to_nat 12) with 12%nat.
    reencode_ip formatVersion2_TCPv4 payload hi lo Hlen Hfix Hcmd.
  - change (fixedLength UDPv4) with 12 in *.
    change (Z.to_nat 12) with 12%nat.
    reencode_ip formatVersion2_UDPv4 payload hi lo Hlen Hfix Hcmd.
  - change (fixedLength TCPv6) with 36 in *.
    change (Z.to_nat 36) with 36%nat.
    reencode_ip formatVersion2_TCPv6 payload hi lo Hlen Hfix Hcmd.
  - change (fixedLength UDPv6) with 36 in *.
    change (Z.to_nat 36) with 36%nat.
    reencode_ip formatVersion2_UDPv6 payload hi lo Hlen Hfix Hcmd.
Qed.

(** X7. A stream that ends within the first sixteen bytes of a version 2
    header makes [parseVersion2] fail with an error that depends only on
    where the stream ends and on the command and transport bytes; the
    error of the source (end of stream, deadline, ...) is not returned. *)
Theorem parseVersion2_truncated (r : Reader) :
  (length (pending r) < 16)%nat ->
  fst (parseVersion2 r)
  = Err (if (length (pending r) <? 13)%nat
         then ErrCantReadProtocolVersionAndCommand
         else if negb (supportedCommand (idx (pending r) 12))
         then ErrUnsupportedProtocolVersionAndCommand
         else if (length (pending r) <? 14)%nat
         then ErrCantReadAddressFamilyAndProtocol
         else if Byte.eqb (idx (pending r) 13) UNSPEC
                 && negb (Byte.eqb (idx (pending r) 12) LOCAL)
         then ErrUnsupportedAddressFamilyAndProtocol
         else ErrCantReadLength).
Proof.
  destruct r as [size p e]. cbn [pending]. apply parseVersion2_short.
Qed.

Lemma parseVersion2_truncated_witness :
  fst (parseVersion2 (mkReader 4096 (SIGV2 ++ [PROXY; TCPv4; x00])
                        ErrDeadlineExceeded))
  = Err ErrCantReadLength.
Proof.
  apply (parseVersion2_truncated
           (mkReader 4096 (SIGV2 ++ [PROXY; TCPv4; x00]) ErrDeadlineExceeded)).
  simpl. lia.
Defined.

(** X8. Whatever the stream and the buffer, an error of [parseVersion2]
    is one of the six errors it names for the leading bytes and the
    length: it never returns [ErrInvalidAddress] nor an error of the
    source, since it reads the payload only after a peek of its whole
    length has succeeded. *)
Theorem parseVersion2_errors (r : Reader) (err : error) :
  fst (parseVersion2 r) = Err err -> v2ParseError err = true.
Proof.
  destruct r as [size p e]. apply parseVersion2_error_set.
Qed.

Lemma parseVersion2_errors_witness : v2ParseError ErrInvalidLength = true.
Proof.
  apply (parseVersion2_errors
           (mkReader 4096 (SIGV2 ++ [PROXY; TCPv4; x00; x0c; x0a; x00]) (ErrIO 5))).
  vm_compute. reflexivity.
Defined.

(** X9. A successful [parseVersion2] consumes exactly the sixteen leading
    bytes and the payload whose length they declare, which fits the
    buffer, and nothing of what follows; the header has version 2, a
    supported command, UNSPEC only with LOCAL, the addresses decoded from
    the address block of its family, and as its TLV vector the bytes of
    the payload after that block. *)
Theorem parseVersion2_consumes (r r' : Reader) (h : Header) :
  parseVersion2 r = (Ok h, r') ->
  exists sig hi lo payload,
    pending r = sig ++ Command h :: TransportProtocol h :: hi :: lo
                    :: payload ++ pending r'
    /\ length sig = 12%nat
    /\ len payload = Uint16 hi lo
    /\ (length payload <= bufSize r)%nat
    /\ Version h = 2
    /\ supportedCommand (Command h) = true
    /\ (TransportProtocol h = UNSPEC -> Command h = LOCAL)
    /\ fixedLength (TransportProtocol h) <= len payload
    /\ SourceAddr h
       = (if fixedLength (TransportProtocol h) =? 0 then None
          else fst (decodeBlock (TransportProtocol h)
                      (firstn (Z.to_nat (fixedLength (TransportProtocol h)))
                         payload)))
    /\ DestinationAddr h
       = (if fixedLength (TransportProtocol h) =? 0 then None
          else snd (decodeBlock (TransportProtocol h)
                      (firstn (Z.to_nat (fixedLength (TransportProtocol h)))
                         payload)))
    /\ rawTLVs h
       = skipn (Z.to_nat (fixedLength (TransportProtocol h))) payload
    /\ bufSize r' = bufSize r
    /\ srcErr r' = srcErr r.
Proof.
  destruct r as [size p e]. intros H.
  destruct (parseVersion2_Ok_shape size e p h r' H)
    as (sig & hi & lo & payload & H1 & H2 & H3 & H4 & H5 & H6 & H7 & H8 & H9
        & H10 & H11 & H12).
  exists sig, hi, lo, payload. cbn [pending bufSize srcErr].
  rewrite H12. cbn [pending bufSize srcErr].
  repeat (split; [assumption|]). split; reflexivity.
Qed.

Lemma parseVersion2_consumes_witness :
  exists sig hi lo payload,
    tcp4HeaderBytes ++ helo
    = sig ++ PROXY :: TCPv4 :: hi :: lo :: payload ++ helo
    /\ length sig = 12%nat
    /\ len payload = Uint16 hi lo
    /\ (length payload <= 4096)%nat
    /\ Version tcp4Header = 2
    /\ supportedCommand PROXY = true
    /\ (TCPv4 = UNSPEC -> PROXY = LOCAL)
    /\ fixedLength TCPv4 <= len payload
    /\ SourceAddr tcp4Header
       = (if fixedLength TCPv4 =? 0 then None
          else fst (decodeBlock TCPv4
                      (firstn (Z.to_nat (fixedLength TCPv4)) payload)))
    /\ DestinationAddr tcp4Header
       = (if fixedLength TCPv4 =? 0 then None
          else snd (decodeBlock TCPv4
                      (firstn (Z.to_nat (fixedLength TCPv4)) payload)))
    /\ rawTLVs tcp4Header = skipn (Z.to_nat (fixedLength TCPv4)) payload
    /\ 4096%nat = 4096%nat
    /\ EOF = EOF.
Proof.
  apply (parseVersion2_consumes (mkReader 4096 (tcp4HeaderBytes ++ helo) EOF)
           (mkReader 4096 helo EOF) tcp4Header).
  vm_compute. reflexivity.
Defined.

(** X10. Parsing and formatting are inverse on the wire as well: when
    [parseVersion2] succeeds on a stream that opens with the version 2
    signature and the transport is UNSPEC, TCP or UDP over IPv4 or IPv6,
    [formatVersion2] of the header it returns succeeds and gives back
    exactly the bytes that were consumed. *)
Theorem formatVersion2_parseVersion2 (r r' : Reader) (h : Header) :
  parseVersion2 r = (Ok h, r') ->
  firstn 12 (pending r) = SIGV2 ->
  In (TransportProtocol h) [UNSPEC; TCPv4; UDPv4; TCPv6; UDPv6] ->
  exists out,
    formatVersion2 h = Some (Ok out) /\ pending r = out ++ pending r'.
Proof.
  destruct r as [size p e]. cbn [pending]. apply formatVersion2_parsed.
Qed.

Lemma formatVersion2_parseVersion2_witness :
  exists out,
    formatVersion2 tcp4Header = Some (Ok out)
    /\ tcp4HeaderBytes ++ helo = out ++ helo.
Proof.
  apply (formatVersion2_parseVersion2
           (mkReader 4096 (tcp4HeaderBytes ++ helo) EOF)
           (mkReader 4096 helo EOF) tcp4Header).
  - vm_compute. reflexivity.
  - reflexivity.
  - right. left. reflexivity.
Defined.

(* ------------------------------------------------------------------ *)
(** ** Unix socket paths *)

Lemma parseUnixName_zeros (name : list byte) (k : nat) :
  parseUnixName (name ++ repeat x00 k) = parseUnixName name.
Proof.
  induction name as [|c name IH].
  - destruct k; reflexivity.
  - cbn [app parseUnixName]. destruct (Byte.eqb c x00); [reflexivity|].
    rewrite IH. reflexivity.
Qed.

Lemma length_parseUnixName (b : list byte) :
  (length (parseUnixName b) <= length b)%nat.
Proof.
  induction b as [|c b IH]; [reflexivity|].
  cbn [parseUnixName]. destruct (Byte.eqb c x00); cbn [length]; lia.
Qed.

Lemma parseUnixName_formatUnixNameZeroCopy (name : list byte) :
  parseUnixName (formatUnixNameZeroCopy name) = unixPath name.
Proof.
  unfold formatUnixNameZeroCopy, unixPath. rewrite parseUnixName_zeros.
  f_equal. destruct (Nat.le_ge_cases 108 (length name)) as [H|H].
  - rewrite Nat.min_l by exact H. reflexivity.
  - rewrite Nat.min_r by exact H. rewrite !firstn_all2 by lia. reflexivity.
Qed.

(** X11. The 108-byte field that [formatUnixNameZeroCopy] makes of a
    socket path reads back, with [parseUnixName], as the part of the path
    that comes before its first NUL among its first 108 bytes: a longer
    path is cut silently, and a path of at most 108 bytes without NUL comes
    back as it is. *)
Theorem parseUnixName_formatUnixNameZeroCopy_field (name : list byte) :
  length (formatUnixNameZeroCopy name) = 108%nat
  /\ parseUnixName (formatUnixNameZeroCopy name)
     = parseUnixName (firstn 108 name)
  /\ (validUnixName name = true ->
      parseUnixName (formatUnixNameZeroCopy name) = name)
  /\ ((108 < length name)%nat ->
      parseUnixName (formatUnixNameZeroCopy name) <> name).
Proof.
  split; [apply length_formatUnixNameZeroCopy|].
  split; [apply parseUnixName_formatUnixNameZeroCopy|].
  split.
  - intros Hv. unfold validUnixName in Hv.
    apply andb_prop in Hv as [Hnul Hlen]. apply Nat.leb_le in Hlen.
    rewrite formatUnixNameZeroCopy_short by exact Hlen.
    apply parseUnixName_padded. exact Hnul.
  - intros Hlong E.
    assert (Hl : (length (parseUnixName (formatUnixNameZeroCopy name)) <= 108)%nat).
    { rewrite parseUnixName_formatUnixNameZeroCopy. unfold unixPath.
      etransitivity; [apply length_parseUnixName|].
      rewrite length_firstn. lia. }
    rewrite E in Hl. lia.
Qed.

Section UnixHeaders.

Variables (size : nat) (e : error) (rest : list byte).

(** A header that carries the two path fields of [formatUnixNameZeroCopy]
    for a Unix transport, whatever the two paths are, is parsed to a header
    in which each path is cut at its first NUL and at 108 bytes and the
    network name of the two addresses is that of the transport. *)
Lemma parseVersion2_Unix_fields (tp cmd : byte)
        (sname dname raw : list byte) :
  tp = UnixStream \/ tp = UnixDatagram ->
  supportedCommand cmd = true ->
  216 + len raw <= MaxUint16 ->
  (216 + length raw <= size)%nat ->
  parseVersion2
    (mkReader size
       (SIGV2 ++ cmd :: tp :: PutUint16 (216 + len raw)
          ++ (formatUnixNameZeroCopy sname ++ formatUnixNameZeroCopy dname)
          ++ raw ++ rest) e)
  = (Ok {| Version := 2; Command := cmd; TransportProtocol := tp;
           SourceAddr := Some (UnixAddr (unixNetwork tp) (unixPath sname));
           DestinationAddr :=
             Some (UnixAddr (unixNetwork tp) (unixPath dname));
           rawTLVs := raw |},
     mkReader size rest e).
Proof.
  intros Htp Hcmd Hfit Hsize.
  set (block := formatUnixNameZeroCopy sname ++ formatUnixNameZeroCopy dname).
  assert (Hlen : length block = 216%nat).
  { unfold block. rewrite length_app, !length_formatUnixNameZeroCopy.
    reflexivity. }
  assert (Hdec : decodeBlock tp block
                 = (Some (UnixAddr (unixNetwork tp) (unixPath sname)),
                    Some (UnixAddr (unixNetwork tp) (unixPath dname)))).
  { assert (H1 : slice block 0 108 = formatUnixNameZeroCopy sname).
    { unfold block.
      rewrite <- (length_formatUnixNameZeroCopy sname) at 1.
      apply slice_first. }
    assert (H2 : slice block 108 216 = formatUnixNameZeroCopy dname).
    { unfold block. change 216%nat with (108 + 108)%nat.
      rewrite <- (length_formatUnixNameZeroCopy sname) at 1 2.
      rewrite <- (length_formatUnixNameZeroCopy dname) at 1.
      apply slice_second. }
    unfold decodeBlock. rewrite H1, H2.
    rewrite !parseUnixName_formatUnixNameZeroCopy.
    unfold unixNetwork.
    destruct Htp as [->| ->]; reduce_transport; reflexivity. }
  assert (Hblock : len block = fixedLength tp).
  { unfold len. rewrite Hlen. destruct Htp as [->| ->]; reflexivity. }
  assert (Hfam : Transport.IsIPv4 tp || Transport.IsIPv6 tp
                 || Transport.IsUnix tp || Transport.IsUnspec tp = true)
    by (destruct Htp as [->| ->]; reflexivity).
  assert (Hguard : Byte.eqb tp UNSPEC && negb (Byte.eqb cmd LOCAL) = false)
    by (destruct Htp as [->| ->]; reflexivity).
  assert (HL := parseVersion2_layout size e SIGV2 cmd tp block raw rest
                  eq_refl Hcmd Hguard Hfam Hblock).
  assert (Hlb : len block = 216) by (unfold len; rewrite Hlen; reflexivity).
  rewrite Hlb, Hlen in HL.
  specialize (HL Hfit Hsize).
  rewrite Hdec in HL. cbn [fst snd] in HL.
  replace (fixedLength tp =? 0) with false in HL
    by (destruct Htp as [->| ->]; reflexivity).
  exact HL.
Qed.

End UnixHeaders.

(** For a header of a Unix transport with two Unix addresses the outcome of
    [formatVersion2] is not defined: its result is computed, and then the
    two path fields go back to their pool through [putUnixAddrSlice]. *)
Lemma formatVersion2_Unix (h : Header) (n1 n2 : string)
      (sname dname : list byte) :
  Transport.IsUnix (TransportProtocol h) = true ->
  SourceAddr h = Some (UnixAddr n1 sname) ->
  DestinationAddr h = Some (UnixAddr n2 dname) ->
  formatVersion2 h = None.
Proof.
  intros HU Hs Hd. unfold formatVersion2.
  assert (H4 : Transport.IsIPv4 (TransportProtocol h) = false).
  { revert HU. unfold Transport.IsUnix, Transport.IsIPv4.
    destruct (TransportProtocol h); vm_compute; congruence. }
  assert (H6 : Transport.IsIPv6 (TransportProtocol h) = false).
  { revert HU. unfold Transport.IsUnix, Transport.IsIPv6.
    destruct (TransportProtocol h); vm_compute; congruence. }
  rewrite H4, H6, HU. unfold UnixAddrs. rewrite HU, Hs, Hd. cbn [negb].
  unfold putUnixAddrSlice. rewrite length_formatUnixNameZeroCopy.
  reflexivity.
Qed.

(* ------------------------------------------------------------------ *)
(** ** The length field *)

(** X12. For the IPv4 and IPv6 families, [formatVersion2] fails with
    [errUint16Overflow] exactly when the address block (12 or 36 bytes)
    plus the TLV vector exceeds 65535 bytes; the test comes before the
    addresses are looked at, so the answer does not depend on them. *)
Theorem formatVersion2_overflow_iff (h : Header) :
  Transport.IsIPv4 (TransportProtocol h)
  || Transport.IsIPv6 (TransportProtocol h) = true ->
  (formatVersion2 h = Some (Err errUint16Overflow)
   <-> fixedLength (TransportProtocol h) + len (rawTLVs h) > MaxUint16).
Proof.
  intros Hfam. split; [|apply formatVersion2_overflow_IP; exact Hfam].
  intros Hov.
  destruct (Z_gt_le_dec (fixedLength (TransportProtocol h) + len (rawTLVs h))
              MaxUint16) as [Hgt|Hle]; [exact Hgt|exfalso].
  revert Hov Hle. unfold formatVersion2, fixedLength.
  destruct (Transport.IsIPv4 (TransportProtocol h)).
  - destruct (IPs h) as [[sip dip] ok]. intros Hov Hle.
    rewrite lengthWithTLVs_fits in Hov by (unfold lengthV4 in *; lia).
    destruct (To4 sip); [destruct (To4 dip)|]; discriminate.
  - destruct (Transport.IsIPv6 (TransportProtocol h)); [|discriminate].
    destruct (IPs h) as [[sip dip] ok]. intros Hov Hle.
    rewrite lengthWithTLVs_fits in Hov by (unfold lengthV6 in *; lia).
    destruct (To16 sip); [destruct (To16 dip)|]; discriminate.
Qed.

Lemma formatVersion2_overflow_iff_witness :
  formatVersion2 tcp4Header = Some (Err errUint16Overflow)
  <-> fixedLength TCPv4 + len (rawTLVs tcp4Header) > MaxUint16.
Proof.
  apply (formatVersion2_overflow_iff tcp4Header). reflexivity.
Defined.

(** X13. [addTLVLen] on a two-byte length field and a non-negative TLV
    length does not panic; it fails with [errUint16Overflow] exactly when
    the sum of the two exceeds 65535, and otherwise returns the two bytes
    of the sum in big-endian order. *)
Theorem addTLVLen_sum (hi lo : byte) (tlvLen : Z) :
  0 <= tlvLen ->
  addTLVLen [hi; lo] tlvLen
  = Some (if Uint16 hi lo + tlvLen >? MaxUint16 then Err errUint16Overflow
          else Ok (PutUint16 (Uint16 hi lo + tlvLen))).
Proof.
  intros Hn. unfold addTLVLen, MaxUint16. cbn [length idx nth Nat.ltb Nat.leb].
  pose proof (Uint16_range hi lo) as Hr. unfold MaxUint16 in Hr.
  destruct (Z.eqb_spec tlvLen 0) as [->|Hne].
  - rewrite Z.add_0_r.
    destruct (Z.gtb_spec (Uint16 hi lo) 65535) as [|_]; [lia|].
    rewrite PutUint16_Uint16. reflexivity.
  - destruct (Z.geb_spec (Uint16 hi lo + tlvLen) 65536) as [Hge|Hlt];
      destruct (Z.gtb_spec (Uint16 hi lo + tlvLen) 65535) as [Hgt|Hle];
      try lia; [reflexivity|].
    rewrite uint16_small by (unfold MaxUint16; lia). reflexivity.
Qed.

Lemma addTLVLen_sum_witness :
  addTLVLen [x00; x0c] 65524
  = Some (if Uint16 x00 x0c + 65524 >? MaxUint16 then Err errUint16Overflow
          else Ok (PutUint16 (Uint16 x00 x0c + 65524))).
Proof. apply (addTLVLen_sum x00 x0c 65524). lia. Defined.

(* ------------------------------------------------------------------ *)
(** ** The buffer of the platform *)

Lemma GetOptimalBufferSize_bounds (arch : GOARCH) (os : GOOS) :
  4096 <= Z.of_nat (GetOptimalBufferSize arch os) <= 16384.
Proof. destruct arch, os; vm_compute; split; discriminate. Qed.

(** X14. The reader that [NewConn] takes from the pool decides which
    headers can be received: on every platform a well-formed header (UNSPEC
    only with LOCAL, and not for a Unix transport) sent to a wrapped
    connection is parsed back if and only if its payload (address block and
    TLV vector) fits the buffer of the platform, and is refused with
    [ErrInvalidLength] otherwise.  The buffer is between 4096 and 16384
    bytes, so that a payload of at most 4096 bytes is accepted everywhere
    and one above 16384 bytes nowhere. *)
Theorem parseVersion2_platform_buffer (arch : GOARCH) (os : GOOS)
        (h : Header) (c : NetConn) (out rest : list byte) :
  wellFormedV2 h = true ->
  localIfUnspec h = true ->
  Transport.IsUnix (TransportProtocol h) = false ->
  formatVersion2 h = Some (Ok out) ->
  connStream c = out ++ rest ->
  let payload := fixedLength (TransportProtocol h) + len (rawTLVs h) in
  let size := GetOptimalBufferSize arch os in
  (payload <= Z.of_nat size ->
   parseVersion2 (getReader arch os c)
   = (Ok h, mkReader size rest (connStreamErr c)))
  /\ (Z.of_nat size < payload ->
      fst (parseVersion2 (getReader arch os c)) = Err ErrInvalidLength)
  /\ 4096 <= Z.of_nat size <= 16384.
Proof.
  intros Hwf Hlocal Hnu Hfmt Hstream payload size.
  unfold getReader. rewrite Hstream. fold size.
  split; [|split; [|apply GetOptimalBufferSize_bounds]].
  - intros Hfit.
    destruct (roundTrips_wellFormed h size (connStreamErr c) rest Hwf Hlocal
                Hnu Hfit) as (out' & Hfmt' & Hparse).
    rewrite Hfmt in Hfmt'. inversion Hfmt'; subst out'. exact Hparse.
  - intros Hbig.
    assert (Hmax : payload <= Z.of_nat (Z.to_nat MaxUint16)).
    { unfold wellFormedV2 in Hwf. apply andb_prop in Hwf as [_ Hle].
      apply Z.leb_le in Hle. unfold payload. rewrite Z2Nat.id; [exact Hle|].
      unfold MaxUint16. lia. }
    destruct (roundTrips_wellFormed h (Z.to_nat MaxUint16) (connStreamErr c) rest
                Hwf Hlocal Hnu Hmax) as (out' & Hfmt' & Hparse).
    rewrite Hfmt in Hfmt'. inversion Hfmt'; subst out'.
    destruct (parseVersion2_Ok_shape _ _ _ _ _ Hparse)
      as (sig & hi & lo & pl & Hshape & Hsig & Hlen & _ & _ & Hcmd & Hloc
          & Hfix & _ & _ & Hraw & _).
    cbn [pending] in Hshape.
    assert (Hpl : len pl = payload).
    { unfold payload. rewrite Hraw. unfold len. rewrite length_skipn.
      pose proof (fixedLength_nonneg (TransportProtocol h)).
      unfold len in Hfix. lia. }
    rewrite Hshape in Hparse |- *.
    rewrite (parseVersion2_body _ _ sig _ _ hi lo (pl ++ rest) Hsig) in Hparse.
    rewrite (parseVersion2_body _ _ sig _ _ hi lo (pl ++ rest) Hsig).
    cbv zeta in Hparse |- *.
    destruct (negb (supportedCommand (Command h))); [discriminate|].
    destruct (Byte.eqb (TransportProtocol h) UNSPEC
              && negb (Byte.eqb (Command h) LOCAL)); [discriminate|].
    destruct (negb (validateLength _ _)); [reflexivity|].
    destruct (Z.eqb_spec (Uint16 hi lo) 0) as [E0|_].
    { exfalso. pose proof (fixedLength_nonneg (TransportProtocol h)).
      pose proof (len_nonneg (rawTLVs h)). unfold payload in *. lia. }
    assert (Hs : (size <? Z.to_nat (Uint16 hi lo))%nat = true).
    { apply Nat.ltb_lt. lia. }
    rewrite Hs. reflexivity.
Qed.

Lemma parseVersion2_platform_buffer_witness :
  (fixedLength TCPv4 + len (rawTLVs tcp4Header)
   <= Z.of_nat (GetOptimalBufferSize arm64 darwin) ->
   parseVersion2 (getReader arm64 darwin (socket (tcp4HeaderBytes ++ helo) EOF))
   = (Ok tcp4Header, mkReader (GetOptimalBufferSize arm64 darwin) helo EOF))
  /\ (Z.of_nat (GetOptimalBufferSize arm64 darwin)
      < fixedLength TCPv4 + len (rawTLVs tcp4Header) ->
      fst (parseVersion2
             (getReader arm64 darwin (socket (tcp4HeaderBytes ++ helo) EOF)))
      = Err ErrInvalidLength)
  /\ 4096 <= Z.of_nat (GetOptimalBufferSize arm64 darwin) <= 16384.
Proof.
  apply (parseVersion2_platform_buffer arm64 darwin tcp4Header
           (socket (tcp4HeaderBytes ++ helo) EOF) tcp4HeaderBytes helo);
    reflexivity.
Defined.

(* ------------------------------------------------------------------ *)
(** ** The connection wrapper: addresses, payload and errors *)

Section WrapperUse.

Variables (arch : GOARCH) (os : GOOS) (v1 : M Header).

(** What the first query on a wrapper finds, in terms of the header
    read. *)
Lemma onceReadHeader_result (now : Time) (p : Conn) (err : option error)
      (q : Conn) :
  once p = false ->
  readHeader v1 now p = (err, q) ->
  readErr (onceReadHeader v1 now p) = err
  /\ header (onceReadHeader v1 now p) = header q
  /\ conn (onceReadHeader v1 now p) = conn q
  /\ bufReader (onceReadHeader v1 now p) = bufReader q
  /\ trace (onceReadHeader v1 now p) = trace q.
Proof.
  intros Ho Hr. unfold onceReadHeader. rewrite Ho, Hr. cbn. tauto.
Qed.

(** X15. The addresses of a proxied connection.  When the header read of a
    wrapper with policy USE or REQUIRE gives a header that the validator, if
    there is one, accepts, [ProxyHeader] returns this header; [RemoteAddr]
    and [LocalAddr] return its source and its destination address if its
    command is PROXY, and the addresses of the socket if it is LOCAL. *)
Theorem proxied_addresses (now : Time) (p : Conn) (h : Header) (br : Reader) :
  once p = false ->
  installable p ->
  ProxyHeaderPolicy p = USE \/ ProxyHeaderPolicy p = REQUIRE ->
  (forall validate, Validate p = Some validate -> validate h = None) ->
  Read v1 (bufReader p) = (Ok h, br) ->
  fst (Conn_ProxyHeader v1 now p) = Some h
  /\ fst (Conn_RemoteAddr v1 now p)
     = (if Command.IsLocal (Command h) then connRemoteAddr (conn p)
        else SourceAddr h)
  /\ fst (Conn_LocalAddr v1 now p)
     = (if Command.IsLocal (Command h) then connLocalAddr (conn p)
        else DestinationAddr h).
Proof.
  intros Ho Hi Hpol Hval Hread.
  pose proof (readHeader_populate v1 now p h br Hi Hpol Hval Hread) as Hrh.
  destruct (onceReadHeader_result now p _ _ Ho Hrh) as (HE & HH & HC & _).
  destruct (attempted_fields now p br)
    as ((_ & _ & _ & _ & Hl & Hr & _) & _).
  cbn [setHeader header conn] in HH, HC.
  unfold Conn_ProxyHeader, Conn_RemoteAddr, Conn_LocalAddr.
  rewrite HH, HE, HC, Hl, Hr. cbn [fst snd].
  destruct (Command.IsLocal (Command h)); repeat split; reflexivity.
Qed.

(** X16. The policies IGNORE and SKIP of a wrapper.  A header on the
    stream is read and consumed, but it is neither validated nor stored:
    there is no error, [ProxyHeader] returns nothing, the addresses are
    those of the socket, and the bytes left to read are those after the
    header. *)
Theorem ignored_header (now : Time) (p : Conn) (h : Header) (br : Reader) :
  fresh p ->
  installable p ->
  ProxyHeaderPolicy p = IGNORE \/ ProxyHeaderPolicy p = SKIP ->
  Read v1 (bufReader p) = (Ok h, br) ->
  readErr (onceReadHeader v1 now p) = None
  /\ fst (Conn_ProxyHeader v1 now p) = None
  /\ fst (Conn_RemoteAddr v1 now p) = connRemoteAddr (conn p)
  /\ fst (Conn_LocalAddr v1 now p) = connLocalAddr (conn p)
  /\ bufReader (onceReadHeader v1 now p) = br.
Proof.
  intros (Ho & He & Hh & Ht) Hi Hpol Hread.
  destruct (attempted_fields now p br)
    as ((HP & _ & _ & _ & Hl & Hr & _) & Hhd & _ & _ & Hb & _).
  assert (Hrh : readHeader v1 now p = (None, attempted now p br)).
  { rewrite (readHeader_installable v1 now p _ br Hi Hread).
    cbn [headerOf errorOf]. rewrite translateTimeout_None.
    unfold applyPolicy. rewrite HP.
    destruct Hpol as [-> | ->]; reflexivity. }
  destruct (onceReadHeader_result now p _ _ Ho Hrh) as (HE & HH & HC & HB & _).
  unfold Conn_ProxyHeader, Conn_RemoteAddr, Conn_LocalAddr.
  rewrite HH, Hhd, Hh, HE, HC, Hl, Hr, HB, Hb. cbn [fst snd].
  repeat split; reflexivity.
Qed.

(** Once the latch is closed a call leaves the latch, the error and the
    header as they are, and when there is an error it leaves the reader as
    it is, too. *)
Lemma call_latched (now : Time) (c : Call) (p : Conn) :
  once p = true ->
  once (call v1 now c p) = true
  /\ readErr (call v1 now c p) = readErr p
  /\ header (call v1 now c p) = header p
  /\ headerReads (trace (call v1 now c p)) = headerReads (trace p)
  /\ (readErr p <> None -> bufReader (call v1 now c p) = bufReader p).
Proof.
  intros Ho.
  destruct c as [n| | | |t|t]; cbn [call].
  - unfold Conn_Read. rewrite (onceReadHeader_done v1 now p Ho).
    destruct (readErr p) as [e|] eqn:ER; cbn [snd];
      [repeat split; try assumption; reflexivity|].
    destruct ((0 <? n)%nat && (length (pending (bufReader p)) =? 0)%nat);
      cbn [snd]; unfold setBufReader; fields;
      rewrite headerReads_app; cbn [headerReads filter length];
      rewrite Nat.add_0_r; repeat split; try assumption; congruence.
  - unfold Conn_ProxyHeader. rewrite (onceReadHeader_done v1 now p Ho).
    cbn [snd]. tauto.
  - assert (E : snd (Conn_LocalAddr v1 now p) = p).
    { unfold Conn_LocalAddr. rewrite (onceReadHeader_done v1 now p Ho).
      destruct (header p) as [h|]; destruct (readErr p);
        try destruct (Command.IsLocal (Command h)); reflexivity. }
    rewrite E. tauto.
  - assert (E : snd (Conn_RemoteAddr v1 now p) = p).
    { unfold Conn_RemoteAddr. rewrite (onceReadHeader_done v1 now p Ho).
      destruct (header p) as [h|]; destruct (readErr p);
        try destruct (Command.IsLocal (Command h)); reflexivity. }
    rewrite E. tauto.
  - unfold Conn_SetReadDeadline, NetConn_SetReadDeadline, setReadDeadlineField.
    fields.
    destruct (connDeadlineErr (conn p)); cbn [snd]; unfold setConn; fields;
      rewrite headerReads_app; cbn [headerReads filter length];
      rewrite Nat.add_0_r; tauto.
  - unfold Conn_SetDeadline, Conn_SetReadDeadline, NetConn_SetReadDeadline,
      setReadDeadlineField.
    fields.
    destruct (connDeadlineErr (conn p)); cbn [snd]; unfold setConn; fields;
      rewrite headerReads_app; cbn [headerReads filter length];
      rewrite Nat.add_0_r; tauto.
Qed.

Lemma calls_latched (cs : list (Time * Call)) :
  forall p,
    once p = true ->
    once (calls v1 cs p) = true
    /\ readErr (calls v1 cs p) = readErr p
    /\ header (calls v1 cs p) = header p
    /\ headerReads (trace (calls v1 cs p)) = headerReads (trace p)
    /\ (readErr p <> None -> bufReader (calls v1 cs p) = bufReader p).
Proof.
  induction cs as [|[now c] cs IH]; intros p Ho.
  - cbn. tauto.
  - rewrite calls_cons.
    destruct (call_latched now c p Ho) as (Ho1 & He1 & Hh1 & Ht1 & Hb1).
    destruct (IH _ Ho1) as (Ho2 & He2 & Hh2 & Ht2 & Hb2).
    repeat split; try congruence.
    intros Hne. rewrite Hb2 by congruence. apply Hb1. exact Hne.
Qed.

(** X17. An error of the header read is permanent.  Once the header read
    of a wrapper has failed, whatever is called afterwards, every [Read]
    returns this same error, nothing more is read from the stream, no
    header appears and the header is not read again. *)
Theorem failed_header_read_is_permanent (p : Conn) (now : Time) (e : error)
        (cs : list (Time * Call)) (t : Time) (n : nat) :
  readErr (onceReadHeader v1 now p) = Some e ->
  let q := calls v1 cs (onceReadHeader v1 now p) in
  fst (Conn_Read v1 t n q) = Err e
  /\ bufReader (snd (Conn_Read v1 t n q)) = bufReader (onceReadHeader v1 now p)
  /\ header (snd (Conn_Read v1 t n q)) = header (onceReadHeader v1 now p)
  /\ headerReads (trace (snd (Conn_Read v1 t n q)))
     = headerReads (trace (onceReadHeader v1 now p)).
Proof.
  intros He q.
  destruct (calls_latched cs _ (onceReadHeader_once v1 now p))
    as (Ho & Hre & Hh & Ht & Hb).
  fold q in Ho, Hre, Hh, Ht, Hb.
  unfold Conn_Read. rewrite (onceReadHeader_done v1 t q Ho), Hre, He.
  cbn [fst snd]. repeat split; try assumption.
  apply Hb. congruence.
Qed.


End WrapperUse.

(* ------------------------------------------------------------------ *)
(** ** The deadline of the socket and the listener *)

Section ListenerUse.

Variables (arch : GOARCH) (os : GOOS) (v1 : M Header).

Lemma deadlineSets_app (a b : list Event) :
  deadlineSets (a ++ b) = (deadlineSets a + deadlineSets b)%nat.
Proof. unfold deadlineSets. rewrite filter_app, length_app. reflexivity. Qed.

(** X19. Without a positive header-read timeout (a wrapper made by
    [NewConn] without [SetReadHeaderTimeout], or accepted by a listener
    whose [ReadHeaderTimeout] is negative) the header read does nothing to
    the socket: it sets no deadline, so that the deadline set by the user,
    if any, is the one in force while the header is read. *)
Theorem readHeader_without_timeout (now : Time) (p : Conn) :
  readHeaderTimeout p <= 0 ->
  conn (snd (readHeader v1 now p)) = conn p
  /\ deadlineSets (trace (snd (readHeader v1 now p))) = deadlineSets (trace p)
  /\ headerReads (trace (snd (readHeader v1 now p)))
     = S (headerReads (trace p)).
Proof.
  intros Hle. unfold readHeader, origDeadlineOf, installDeadline.
  destruct (Z.gtb_spec (readHeaderTimeout p) 0) as [Hgt|_]; [lia|].
  destruct (Read v1 (bufReader p)) as [res br].
  set (p2 := setBufReader p br [EvReadHeader]).
  assert (Hr : restoreDeadline p2 zeroTime = p2).
  { unfold restoreDeadline. unfold p2. fields.
    destruct (Z.gtb_spec (readHeaderTimeout p) 0) as [Hgt|_]; [lia|].
    reflexivity. }
  rewrite Hr.
  destruct (applyPolicy_conn p2 (headerOf res) (translateTimeout p2 (errorOf res)))
    as (_ & Hc & _ & Ht & _).
  rewrite Hc, Ht. unfold p2, setBufReader. fields.
  rewrite deadlineSets_app, headerReads_app. cbn. repeat split; lia.
Qed.

(** X20. When the socket refuses the temporary deadline of the header
    read (as a closed connection does), the stream is not read at all: the
    error of [SetReadDeadline] is what the first [Read] returns, no header
    is stored and the reader is as it was. *)
Theorem readHeader_deadline_refused (now : Time) (n : nat) (p : Conn)
        (err : error) :
  fresh p ->
  0 < readHeaderTimeout p ->
  connDeadlineErr (conn p) = Some err ->
  fst (Conn_Read v1 now n p) = Err err
  /\ fst (Conn_ProxyHeader v1 now p) = None
  /\ bufReader (snd (Conn_Read v1 now n p)) = bufReader p
  /\ headerReads (trace (snd (Conn_Read v1 now n p))) = 0%nat.
Proof.
  intros (Ho & He & Hh & Ht) Hpos Herr.
  destruct (readHeader_not_installable v1 now p err Hpos Herr)
    as (Hf & (_ & Hhd & _ & _ & Htr) & Hb & _).
  destruct (onceReadHeader_first v1 now p Ho) as (HE & HH & _ & HB & HT & _).
  unfold Conn_Read, Conn_ProxyHeader.
  rewrite HE, Hf, HH, Hhd, Hh. cbn [fst snd].
  rewrite HB, Hb, HT, Htr, Ht. repeat split; reflexivity.
Qed.

Lemma isInvalidUpstream_eq (err : error) :
  isInvalidUpstream err = true <-> err = ErrInvalidUpstream.
Proof.
  unfold isInvalidUpstream. split; [|intros ->; reflexivity].
  destruct err; cbn; intros H; try discriminate H; reflexivity.
Qed.

(** One turn of the loop of [Accept], by what the policy function says. *)
Lemma Accept_turn (l : Listener) (c : NetConn) (rest : list (result NetConn))
      (closed : list NetConn) :
  Listener_Policy l = None \/ Listener_ConnPolicy l = None ->
  Accept arch os l (Ok c :: rest) closed
  = match listenerPolicy l c with
    | (_, Some err) =>
      if isInvalidUpstream err then Accept arch os l rest (closed ++ [c])
      else (AcceptErr err, closed ++ [c])
    | (policy, None) =>
      if match Listener_Policy l, Listener_ConnPolicy l with
         | None, None => false
         | _, _ => match policy with SKIP => true | _ => false end
         end
      then (Raw c, closed)
      else (Wrapped
              (setReadHeaderTimeout
                 (NewConn arch os c
                    [WithPolicy policy;
                     ValidateHeader (Listener_ValidateHeader l)])
                 (listenerTimeout l)), closed)
    end.
Proof.
  intros Hone. unfold listenerPolicy, listenerTimeout. cbn [Accept].
  destruct (Listener_Policy l) as [f|], (Listener_ConnPolicy l) as [g|].
  - destruct Hone; discriminate.
  - destruct (f (connRemoteAddr c)) as [policy [err|]]; [reflexivity|].
    destruct policy; reflexivity.
  - destruct (g _) as [policy [err|]]; [reflexivity|].
    destruct policy; reflexivity.
  - reflexivity.
Qed.

(** X21. The connection that [Accept] wraps.  It is one that the
    underlying listener returned and for which the policy function of the
    listener, if there is one, gave no error and a policy other than SKIP;
    the wrapper is fresh, reads from a pooled reader over this connection,
    and carries that policy (USE without a function), the validator of the
    listener and its header-read timeout, ten seconds if the listener has
    none: the timeout of a wrapper made by [Accept] is never zero. *)
Theorem Accept_Wrapped (l : Listener) (incoming : list (result NetConn))
        (closed closed' : list NetConn) (p : Conn) :
  Accept arch os l incoming closed = (Wrapped p, closed') ->
  In (Ok (conn p)) incoming
  /\ listenerPolicy l (conn p) = (ProxyHeaderPolicy p, None)
  /\ (ProxyHeaderPolicy p = SKIP ->
      Listener_Policy l = None /\ Listener_ConnPolicy l = None)
  /\ fresh p
  /\ bufReader p = getReader arch os (conn p)
  /\ Validate p = Listener_ValidateHeader l
  /\ readHeaderTimeout p = listenerTimeout l
  /\ readHeaderTimeout p <> 0.
Proof.
  revert closed. induction incoming as [|[c|err] rest IH]; intros closed H.
  - discriminate H.
  - destruct (Listener_Policy l) as [f|] eqn:EP,
             (Listener_ConnPolicy l) as [g|] eqn:EC.
    { cbn [Accept] in H. rewrite EP, EC in H. discriminate H. }
    all: rewrite Accept_turn in H by (rewrite ?EP, ?EC; tauto).
    all: destruct (listenerPolicy l c) as [policy [e|]] eqn:ELP.
    all: try (destruct (isInvalidUpstream e);
              [destruct (IH _ H) as (Hin & Hrest); split;
               [right; exact Hin | exact Hrest]
              | discriminate H]).
    all: rewrite ?EP, ?EC in H.
    all: destruct (NewConn_fresh arch os c policy (Listener_ValidateHeader l)
                     (listenerTimeout l))
           as (Hfresh & Hpol & Hval & Ht & Hc & Hb & _).
    all: assert (Hnz : listenerTimeout l <> 0)
           by (unfold listenerTimeout;
               destruct (Z.eqb_spec (ReadHeaderTimeout l) 0);
               [discriminate | assumption]).
    all: destruct policy; try discriminate H; inversion H; subst p closed';
         rewrite Hc, Hpol, Ht;
         (split; [left; reflexivity|]);
         (split; [exact ELP|]);
         (split; [intros Hs; try discriminate Hs; tauto|]);
         (split; [exact Hfresh|]);
         (split; [rewrite Hb; reflexivity|]);
         (split; [exact Hval|]);
         (split; [reflexivity | exact Hnz]).
  - discriminate H.
Qed.

(** X22. What [Accept] closes.  The connections it closes are those for
    which the policy function returned an error, in the order they came:
    it goes on past every connection refused with [ErrInvalidUpstream], and
    stops at the first one refused with another error, which it returns.
    A connection that it returns, wrapped or raw, has not been closed by
    this call. *)
Theorem Accept_closes_refused (l : Listener) (incoming : list (result NetConn))
        (closed closed' : list NetConn) (res : Accepted) :
  Listener_Policy l = None \/ Listener_ConnPolicy l = None ->
  Accept arch os l incoming closed = (res, closed') ->
  exists skipped rest,
    incoming = map Ok skipped ++ rest
    /\ Forall (fun c => snd (listenerPolicy l c) = Some ErrInvalidUpstream)
              skipped
    /\ match res with
       | Wrapped p =>
         closed' = closed ++ skipped
         /\ exists rest', rest = Ok (conn p) :: rest'
                          /\ snd (listenerPolicy l (conn p)) = None
       | Raw c =>
         closed' = closed ++ skipped
         /\ exists rest', rest = Ok c :: rest'
                          /\ listenerPolicy l c = (SKIP, None)
       | AcceptErr err =>
         (closed' = closed ++ skipped
          /\ exists rest', rest = Err err :: rest')
         \/ (exists c rest',
               rest = Ok c :: rest'
               /\ closed' = closed ++ skipped ++ [c]
               /\ snd (listenerPolicy l c) = Some err
               /\ err <> ErrInvalidUpstream)
       | AcceptPanic _ => False
       | AcceptBlocked => closed' = closed ++ skipped /\ rest = []
       end.
Proof.
  intros Hone. revert closed.
  induction incoming as [|[c|err] incoming IH]; intros closed H.
  - cbn [Accept] in H. inversion H; subst.
    exists [], []. rewrite !app_nil_r.
    split; [reflexivity|]. split; [constructor|]. split; reflexivity.
  - rewrite (Accept_turn l c incoming closed Hone) in H.
    destruct (listenerPolicy l c) as [policy [e|]] eqn:ELP.
    + destruct (isInvalidUpstream e) eqn:EI.
      * apply isInvalidUpstream_eq in EI. subst e.
        destruct (IH _ H) as (skipped & rest & Hinc & Hall & Hres).
        exists (c :: skipped), rest. split; [cbn; rewrite Hinc; reflexivity|].
        split; [constructor; [rewrite ELP; reflexivity | exact Hall]|].
        destruct res as [p|c'|err'|msg|]; try exact Hres.
        -- destruct Hres as (-> & Hr). rewrite <- app_assoc. split; [reflexivity|exact Hr].
        -- destruct Hres as (-> & Hr). rewrite <- app_assoc. split; [reflexivity|exact Hr].
        -- destruct Hres as [(-> & Hr)|(c' & rest' & Hr & -> & Hp & Hne)].
           ++ left. rewrite <- app_assoc. split; [reflexivity|exact Hr].
           ++ right. exists c', rest'. rewrite <- !app_assoc.
              repeat split; assumption.
        -- destruct Hres as (-> & Hr). rewrite <- app_assoc. split; [reflexivity|exact Hr].
      * inversion H; subst. exists [], (Ok c :: incoming).
        split; [reflexivity|]. split; [constructor|].
        right. exists c, incoming. rewrite ELP. cbn [snd app].
        repeat split; try reflexivity.
        intros E. subst e. discriminate EI.
    + destruct (match Listener_Policy l, Listener_ConnPolicy l with
                | None, None => false
                | _, _ => match policy with SKIP => true | _ => false end
                end) eqn:ES.
      * inversion H; subst. exists [], (Ok c :: incoming).
        split; [reflexivity|]. split; [constructor|].
        rewrite app_nil_r. split; [reflexivity|].
        exists incoming. split; [reflexivity|].
        assert (Hskip : policy = SKIP)
          by (destruct (Listener_Policy l), (Listener_ConnPolicy l);
              destruct policy; try discriminate ES; reflexivity).
        rewrite ELP, Hskip. reflexivity.
      * inversion H; subst. exists [], (Ok c :: incoming).
        split; [reflexivity|]. split; [constructor|].
        rewrite app_nil_r. split; [reflexivity|].
        destruct (NewConn_fresh arch os c policy (Listener_ValidateHeader l)
                     (listenerTimeout l)) as (_ & _ & _ & _ & Hc & _).
        rewrite Hc. exists incoming. rewrite ELP. split; reflexivity.
  - cbn [Accept] in H. inversion H; subst. exists [], (Err err :: incoming).
    split; [reflexivity|]. split; [constructor|].
    left. rewrite app_nil_r. split; [reflexivity|]. exists incoming. reflexivity.
Qed.

End ListenerUse.

(** *** The properties of the wrapper and of the listener on the sample
    connections *)

Lemma proxied_addresses_witness :
  fst (Conn_ProxyHeader noVersion1 1 proxiedWrapper) = Some tcp4Header
  /\ fst (Conn_RemoteAddr noVersion1 1 proxiedWrapper)
     = (if Command.IsLocal (Command tcp4Header)
        then connRemoteAddr (conn proxiedWrapper)
        else SourceAddr tcp4Header)
  /\ fst (Conn_LocalAddr noVersion1 1 proxiedWrapper)
     = (if Command.IsLocal (Command tcp4Header)
        then connLocalAddr (conn proxiedWrapper)
        else DestinationAddr tcp4Header).
Proof.
  apply (proxied_addresses noVersion1 1 proxiedWrapper tcp4Header
           (mkReader 4096 helo EOF)).
  - reflexivity.
  - right. reflexivity.
  - left. reflexivity.
  - intros validate H. discriminate H.
  - vm_compute. reflexivity.
Defined.

Lemma ignored_header_witness :
  readErr (onceReadHeader noVersion1 1 ignoringWrapper) = None
  /\ fst (Conn_ProxyHeader noVersion1 1 ignoringWrapper) = None
  /\ fst (Conn_RemoteAddr noVersion1 1 ignoringWrapper)
     = connRemoteAddr (conn ignoringWrapper)
  /\ fst (Conn_LocalAddr noVersion1 1 ignoringWrapper)
     = connLocalAddr (conn ignoringWrapper)
  /\ bufReader (onceReadHeader noVersion1 1 ignoringWrapper)
     = mkReader 4096 helo EOF.
Proof.
  apply (ignored_header noVersion1 1 ignoringWrapper tcp4Header
           (mkReader 4096 helo EOF)).
  - repeat split; reflexivity.
  - left. vm_compute. discriminate.
  - left. reflexivity.
  - vm_compute. reflexivity.
Defined.

Lemma failed_header_read_is_permanent_witness :
  let q := calls noVersion1 [(2, CallRemoteAddr); (3, CallSetReadDeadline 9)]
             (onceReadHeader noVersion1 1 requiringWrapper) in
  fst (Conn_Read noVersion1 4 4 q) = Err ErrNoProxyProtocol
  /\ bufReader (snd (Conn_Read noVersion1 4 4 q))
     = bufReader (onceReadHeader noVersion1 1 requiringWrapper)
  /\ header (snd (Conn_Read noVersion1 4 4 q))
     = header (onceReadHeader noVersion1 1 requiringWrapper)
  /\ headerReads (trace (snd (Conn_Read noVersion1 4 4 q)))
     = headerReads (trace (onceReadHeader noVersion1 1 requiringWrapper)).
Proof.
  apply (failed_header_read_is_permanent noVersion1 requiringWrapper 1
           ErrNoProxyProtocol
           [(2, CallRemoteAddr); (3, CallSetReadDeadline 9)] 4 4).
  vm_compute. reflexivity.
Defined.


Lemma readHeader_without_timeout_witness :
  conn (snd (readHeader noVersion1 1 requiringWrapper)) = conn requiringWrapper
  /\ deadlineSets (trace (snd (readHeader noVersion1 1 requiringWrapper)))
     = deadlineSets (trace requiringWrapper)
  /\ headerReads (trace (snd (readHeader noVersion1 1 requiringWrapper)))
     = S (headerReads (trace requiringWrapper)).
Proof.
  apply (readHeader_without_timeout noVersion1 1 requiringWrapper).
  vm_compute. discriminate.
Defined.

Lemma readHeader_deadline_refused_witness :
  fst (Conn_Read noVersion1 1 4 closedWrapper) = Err (ErrIO 9)
  /\ fst (Conn_ProxyHeader noVersion1 1 closedWrapper) = None
  /\ bufReader (snd (Conn_Read noVersion1 1 4 closedWrapper))
     = bufReader closedWrapper
  /\ headerReads (trace (snd (Conn_Read noVersion1 1 4 closedWrapper))) = 0%nat.
Proof.
  apply (readHeader_deadline_refused noVersion1 1 4 closedWrapper (ErrIO 9)).
  - repeat split; reflexivity.
  - reflexivity.
  - reflexivity.
Defined.

Lemma Accept_Wrapped_witness :
  let p := setReadHeaderTimeout
             (NewConn amd64 linux (socket plainStream EOF)
                [WithPolicy REQUIRE; ValidateHeader None])
             DefaultReadHeaderTimeout in
  In (Ok (conn p)) [Ok strangerSocket; Ok (socket plainStream EOF)]
  /\ listenerPolicy guardedListener (conn p) = (ProxyHeaderPolicy p, None)
  /\ (ProxyHeaderPolicy p = SKIP ->
      Listener_Policy guardedListener = None
      /\ Listener_ConnPolicy guardedListener = None)
  /\ fresh p
  /\ bufReader p = getReader amd64 linux (conn p)
  /\ Validate p = Listener_ValidateHeader guardedListener
  /\ readHeaderTimeout p = listenerTimeout guardedListener
  /\ readHeaderTimeout p <> 0.
Proof.
  apply (Accept_Wrapped amd64 linux guardedListener
           [Ok strangerSocket; Ok (socket plainStream EOF)] [] [strangerSocket]).
  vm_compute. reflexivity.
Defined.

Lemma Accept_closes_refused_witness :
  exists skipped rest,
    [Ok strangerSocket; Ok (socket plainStream EOF)] = map Ok skipped ++ rest
    /\ Forall (fun c => snd (listenerPolicy guardedListener c)
                        = Some ErrInvalidUpstream) skipped
    /\ [strangerSocket] = [] ++ skipped
    /\ exists rest',
         rest = Ok (socket plainStream EOF) :: rest'
         /\ snd (listenerPolicy guardedListener (socket plainStream EOF)) = None.
Proof.
  apply (Accept_closes_refused amd64 linux guardedListener
           [Ok strangerSocket; Ok (socket plainStream EOF)] [] [strangerSocket]
           (Wrapped (setReadHeaderTimeout
                       (NewConn amd64 linux (socket plainStream EOF)
                          [WithPolicy REQUIRE; ValidateHeader None])
                       DefaultReadHeaderTimeout))).
  - left. reflexivity.
  - vm_compute. reflexivity.
Defined.

(* ------------------------------------------------------------------ *)
(** ** The version 1 codec: reading the line *)

Section ReadLine.

Variables (more : list (byte * list byte)) (e : error).

Lemma noLF_app (a b : list byte) : noLF (a ++ b) = noLF a && noLF b.
Proof. unfold noLF. apply forallb_app. Qed.

(** A line that is in the buffer is read up to its line feed, which is
    among the first 107 bytes. *)
Lemma readLine_buffered (line : list byte) :
  forall (fuel : nat) (buf tail : list byte),
    noLF line = true ->
    (length buf + length line < 107)%nat ->
    (length line < fuel)%nat ->
    readLine fuel buf (mkBufReader (line ++ x0a :: tail) more e)
    = (OkV1 (buf ++ line ++ [x0a]), mkBufReader tail more e).
Proof.
  induction line as [|c line IH]; intros fuel buf tail Hlf Hlen Hfuel.
  - destruct fuel as [|fuel]; [simpl in Hfuel; lia|]. reflexivity.
  - destruct fuel as [|fuel]; [simpl in Hfuel; lia|].
    cbn [noLF forallb] in Hlf. apply andb_prop in Hlf as [Hc Hlf].
    cbn [app readLine BufReader_ReadByte buffered incoming endErr].
    apply negb_true_iff in Hc. rewrite Hc.
    cbn [length] in Hlen, Hfuel.
    destruct (Nat.eqb_spec (length (buf ++ [c])) 107) as [E|_].
    { rewrite length_app in E. cbn [length] in E. lia. }
    unfold Buffered. cbn [buffered].
    destruct (Nat.eqb_spec (length (line ++ x0a :: tail)) 0) as [E|_].
    { rewrite length_app in E. cbn [length] in E. lia. }
    rewrite (IH fuel (buf ++ [c]) tail Hlf).
    + rewrite <- app_assoc. reflexivity.
    + rewrite length_app. cbn [length]. lia.
    + lia.
Qed.

(** Without a line feed among the bytes that bring [buf] to 107 bytes, the
    loop gives up when it has read them. *)
Lemma readLine_too_long (data : list byte) :
  forall (fuel : nat) (buf tail : list byte),
    noLF data = true ->
    (length buf + length data = 107)%nat ->
    (0 < length data)%nat ->
    (length data <= fuel)%nat ->
    readLine fuel buf (mkBufReader (data ++ tail) more e)
    = (ErrV1 (V1 ErrVersion1HeaderTooLong), mkBufReader tail more e).
Proof.
  induction data as [|c data IH]; intros fuel buf tail Hlf Hlen Hpos Hfuel.
  - simpl in Hpos. lia.
  - destruct fuel as [|fuel]; [simpl in Hfuel; lia|].
    cbn [noLF forallb] in Hlf. apply andb_prop in Hlf as [Hc Hlf].
    cbn [app readLine BufReader_ReadByte buffered incoming endErr].
    apply negb_true_iff in Hc. rewrite Hc.
    cbn [length] in Hlen, Hfuel.
    destruct (Nat.eqb_spec (length (buf ++ [c])) 107) as [E|Hne].
    + rewrite length_app in E. cbn [length] in E.
      assert (data = []) by (destruct data; [reflexivity|simpl in *; lia]).
      subst data. reflexivity.
    + rewrite length_app in Hne. cbn [length] in Hne.
      unfold Buffered. cbn [buffered].
      destruct (Nat.eqb_spec (length (data ++ tail)) 0) as [E|_].
      { rewrite length_app in E. lia. }
      apply IH; try assumption.
      * rewrite length_app. cbn [length]. lia.
      * lia.
      * lia.
Qed.

(** A buffer that runs out before the line feed and before 107 bytes:
    the loop does not wait for the rest of the line. *)
Lemma readLine_split (data : list byte) :
  forall (fuel : nat) (buf : list byte),
    noLF data = true ->
    (length buf + length data < 107)%nat ->
    (0 < length data)%nat ->
    (length data <= fuel)%nat ->
    readLine fuel buf (mkBufReader data more e)
    = (ErrV1 (V1 ErrCantReadVersion1Header), mkBufReader [] more e).
Proof.
  induction data as [|c data IH]; intros fuel buf Hlf Hlen Hpos Hfuel.
  - simpl in Hpos. lia.
  - destruct fuel as [|fuel]; [simpl in Hfuel; lia|].
    cbn [noLF forallb] in Hlf. apply andb_prop in Hlf as [Hc Hlf].
    cbn [readLine BufReader_ReadByte buffered incoming endErr].
    apply negb_true_iff in Hc. rewrite Hc.
    cbn [length] in Hlen, Hfuel.
    destruct (Nat.eqb_spec (length (buf ++ [c])) 107) as [E|_].
    { rewrite length_app in E. cbn [length] in E. lia. }
    unfold Buffered. cbn [buffered].
    destruct data as [|d data]; [reflexivity|].
    cbn [length Nat.eqb].
    apply IH; try assumption.
    + rewrite length_app. cbn [length] in *. lia.
    + cbn [length]. lia.
    + lia.
Qed.

(** An empty buffer is filled by the next read of the source that returns
    a byte. *)
Lemma readLine_fill (fuel : nat) (buf : list byte) (b : byte)
      (chunk : list byte) :
  readLine (S fuel) buf (mkBufReader [] ((b, chunk) :: more) e)
  = readLine (S fuel) buf (mkBufReader (b :: chunk) more e).
Proof. reflexivity. Qed.

End ReadLine.

(* ------------------------------------------------------------------ *)
(** ** The version 1 codec: numbers *)

Section Decimal.

Lemma digitValue_digit (d : Z) :
  0 <= d <= 9 -> digitValue (byte_of_Z (48 + d)) = Some d.
Proof.
  intros Hd. unfold digitValue. rewrite byte_to_of_Z.
  rewrite Z.mod_small by lia.
  replace (48 + d - 48) with d by lia.
  destruct (Z.leb_spec 0 d); [|lia].
  destruct (Z.leb_spec d 9); [reflexivity|lia].
Qed.

Lemma digitsValue_app (l1 l2 : list byte) (acc : Z) :
  digitsValue (l1 ++ l2) acc
  = match digitsValue l1 acc with
    | Some m => digitsValue l2 m
    | None => None
    end.
Proof.
  revert acc. induction l1 as [|c l1 IH]; intros acc; [reflexivity|].
  cbn [app digitsValue]. destruct (digitValue c); [apply IH | reflexivity].
Qed.

Lemma isDigit_digit (d : Z) : 0 <= d <= 9 -> isDigit (byte_of_Z (48 + d)).
Proof. intros H. exists d. apply digitValue_digit. exact H. Qed.

(** The digits that [utoa] writes read back as the number, when the fuel
    covers its digits. *)
Lemma utoa_digits (fuel : nat) :
  forall n,
    0 <= n < 10 ^ Z.of_nat (S fuel) ->
    digitsValue (utoa (S fuel) n) 0 = Some n
    /\ Forall isDigit (utoa (S fuel) n)
    /\ (0 < length (utoa (S fuel) n) <= S fuel)%nat.
Proof.
  induction fuel as [|fuel IH]; intros n Hn.
  - change (10 ^ Z.of_nat 1) with 10 in Hn. cbn [utoa].
    destruct (Z.ltb_spec n 10) as [Hlt|Hge]; [|lia].
    cbn [digitsValue]. rewrite digitValue_digit by lia.
    split; [f_equal; lia|]. split; [|cbn [length]; lia].
    constructor; [apply isDigit_digit; lia | constructor].
  - remember (S fuel) as k eqn:Hk. cbn [utoa].
    destruct (Z.ltb_spec n 10) as [Hlt|Hge].
    + cbn [digitsValue]. rewrite digitValue_digit by lia.
      split; [f_equal; lia|]. split; [|cbn [length]; lia].
      constructor; [apply isDigit_digit; lia | constructor].
    + assert (Hq : 0 <= n / 10 < 10 ^ Z.of_nat k).
      { split; [apply Z.div_pos; lia|].
        apply Z.div_lt_upper_bound; [lia|].
        replace (10 * 10 ^ Z.of_nat k) with (10 ^ Z.of_nat (S k)); [lia|].
        rewrite Nat2Z.inj_succ, Z.pow_succ_r by lia. reflexivity. }
      destruct (IH (n / 10) Hq) as (Hv & Hd & Hl).
      pose proof (Z.mod_pos_bound n 10 ltac:(lia)) as Hr.
      split; [|split].
      * rewrite digitsValue_app, Hv. cbn [digitsValue].
        rewrite digitValue_digit by lia. f_equal.
        pose proof (Z.div_mod n 10 ltac:(lia)). lia.
      * apply Forall_app. split; [exact Hd|].
        constructor; [apply isDigit_digit; lia | constructor].
      * rewrite length_app. cbn [length]. lia.
Qed.

Lemma isDigit_not_sign (c : byte) :
  isDigit c -> Byte.eqb c x2d = false /\ Byte.eqb c x2b = false.
Proof.
  intros [d Hd]. split.
  - destruct (Byte.eqb c x2d) eqn:E; [|reflexivity].
    apply Byte.byte_dec_bl in E. subst c. discriminate Hd.
  - destruct (Byte.eqb c x2b) eqn:E; [|reflexivity].
    apply Byte.byte_dec_bl in E. subst c. discriminate Hd.
Qed.

Lemma isDigit_plain (c : byte) :
  isDigit c -> Byte.eqb c separator = false /\ Byte.eqb c x0a = false.
Proof.
  intros [d Hd]. split.
  - destruct (Byte.eqb c separator) eqn:E; [|reflexivity].
    apply Byte.byte_dec_bl in E. subst c. discriminate Hd.
  - destruct (Byte.eqb c x0a) eqn:E; [|reflexivity].
    apply Byte.byte_dec_bl in E. subst c. discriminate Hd.
Qed.

Lemma pow_10_19 : 2 ^ 63 < 10 ^ Z.of_nat 19.
Proof. reflexivity. Qed.

(** [Atoi] reads back what [Itoa] writes, for every 64-bit integer. *)
Lemma Atoi_Itoa (i : Z) : - 2 ^ 63 <= i < 2 ^ 63 -> Atoi (Itoa i) = Some i.
Proof.
  intros Hi. pose proof pow_10_19 as Hp. unfold Itoa.
  destruct (Z.ltb_spec i 0) as [Hneg|Hpos].
  - destruct (utoa_digits 18 (- i) ltac:(lia)) as (Hv & Hd & Hl).
    unfold Atoi. change (Byte.eqb x2d x2d) with true. cbn [orb].
    destruct (utoa 19 (- i)) as [|c s] eqn:E; [simpl in Hl; lia|].
    rewrite Hv. replace (- - i) with i by lia.
    destruct (Z.leb_spec (- 2 ^ 63) i); [|lia].
    destruct (Z.ltb_spec i (2 ^ 63)); [reflexivity|lia].
  - destruct (utoa_digits 18 i ltac:(lia)) as (Hv & Hd & Hl).
    unfold Atoi.
    destruct (utoa 19 i) as [|c s] eqn:E; [simpl in Hl; lia|].
    inversion Hd as [|? ? Hc _]; subst.
    destruct (isDigit_not_sign c Hc) as [Hm Hplus].
    rewrite Hm, Hplus. cbn [orb]. rewrite Hv.
    destruct (Z.leb_spec (- 2 ^ 63) i); [|lia].
    destruct (Z.ltb_spec i (2 ^ 63)); [reflexivity|lia].
Qed.

Lemma digitsValue_zeros (k : nat) (s : list byte) :
  digitsValue (repeat x30 k ++ s) 0 = digitsValue s 0.
Proof.
  induction k as [|k IH]; [reflexivity|].
  cbn [repeat app digitsValue]. exact IH.
Qed.

Lemma parseV1PortNumber_valid (port : Z) :
  0 <= port <= 65535 -> parseV1PortNumber (Itoa port) = Ok port.
Proof.
  intros Hp. unfold parseV1PortNumber.
  rewrite Atoi_Itoa by (change (2 ^ 63) with 9223372036854775808; lia).
  destruct (Z.ltb_spec port 0), (Z.gtb_spec port 65535); try lia.
  reflexivity.
Qed.

(** X23. The port numbers of a version 1 line.  For every 64-bit integer,
    [parseV1PortNumber] reads the text that [strconv.Itoa] writes for it
    back to the same number if it is between 0 and 65535, and refuses it
    with [ErrInvalidPortNumber] otherwise.  It also accepts forms that
    [Itoa] never writes: a leading plus sign and leading zeros. *)
Theorem parseV1PortNumber_Itoa (port : Z) (zeros : nat) :
  - 2 ^ 63 <= port < 2 ^ 63 ->
  parseV1PortNumber (Itoa port)
  = (if (0 <=? port) && (port <=? 65535) then Ok port
     else Err ErrInvalidPortNumber)
  /\ (0 <= port <= 65535 ->
      parseV1PortNumber (x2b :: repeat x30 zeros ++ Itoa port) = Ok port).
Proof.
  intros Hi. split.
  - unfold parseV1PortNumber. rewrite (Atoi_Itoa port Hi).
    destruct (Z.ltb_spec port 0), (Z.gtb_spec port 65535),
      (Z.leb_spec 0 port), (Z.leb_spec port 65535); try lia; reflexivity.
  - intros Hp. pose proof pow_10_19 as Hpow.
    unfold parseV1PortNumber, Atoi.
    change (Byte.eqb x2b x2d) with false. change (Byte.eqb x2b x2b) with true.
    cbn [orb]. unfold Itoa.
    destruct (Z.ltb_spec port 0) as [|_]; [lia|].
    destruct (utoa_digits 18 port ltac:(lia)) as (Hv & _ & Hl).
    rewrite digitsValue_zeros, Hv.
    destruct (repeat x30 zeros ++ utoa 19 port) as [|c s] eqn:E.
    { apply app_eq_nil in E. destruct E as [_ E]. rewrite E in Hl.
      simpl in Hl. lia. }
    destruct (Z.leb_spec (- 2 ^ 63) port); [|lia].
    destruct (Z.ltb_spec port (2 ^ 63)); [|lia]. cbn [andb].
    destruct (Z.ltb_spec port 0), (Z.gtb_spec port 65535); try lia.
    reflexivity.
Qed.

Lemma parseV1PortNumber_Itoa_witness :
  parseV1PortNumber (Itoa 443)
  = (if (0 <=? 443) && (443 <=? 65535) then Ok 443
     else Err ErrInvalidPortNumber)
  /\ (0 <= 443 <= 65535 ->
      parseV1PortNumber (x2b :: repeat x30 2 ++ Itoa 443) = Ok 443).
Proof. apply (parseV1PortNumber_Itoa 443 2). lia. Defined.

End Decimal.

(* ------------------------------------------------------------------ *)
(** ** The version 1 codec: the line *)

Section Version1Line.

Variable ParseAddr : list byte -> option netipAddr.
Variable IPString : IP -> list byte.

Lemma Split_token (t rest : list byte) :
  noSeparator t = true ->
  Split (t ++ separator :: rest) separator = t :: Split rest separator.
Proof.
  induction t as [|c t IH]; intros Ht.
  - reflexivity.
  - cbn [noSeparator forallb] in Ht. apply andb_prop in Ht as [Hc Ht].
    apply negb_true_iff in Hc.
    cbn [app Split]. rewrite Hc, (IH Ht). reflexivity.
Qed.

Lemma Split_last (t : list byte) :
  noSeparator t = true -> Split t separator = [t].
Proof.
  induction t as [|c t IH]; intros Ht.
  - reflexivity.
  - cbn [noSeparator forallb] in Ht. apply andb_prop in Ht as [Hc Ht].
    apply negb_true_iff in Hc.
    cbn [Split]. rewrite Hc, (IH Ht). reflexivity.
Qed.

Lemma noSeparator_digits (s : list byte) :
  Forall isDigit s -> noSeparator s = true /\ noLF s = true.
Proof.
  induction 1 as [|c s Hc _ [IH1 IH2]]; [split; reflexivity|].
  destruct (isDigit_plain c Hc) as [H1 H2].
  cbn [noSeparator noLF forallb]. fold (noSeparator s). fold (noLF s).
  rewrite H1, H2, IH1, IH2. split; reflexivity.
Qed.

(** What [Itoa] writes for a port: at most five digits. *)
Lemma Itoa_port (port : Z) :
  0 <= port <= 65535 ->
  noSeparator (Itoa port) = true /\ noLF (Itoa port) = true
  /\ (length (Itoa port) <= 5)%nat
  /\ parseV1PortNumber (Itoa port) = Ok port.
Proof.
  intros Hp.
  assert (H5 : Itoa port = utoa 5 port).
  { unfold Itoa. destruct (Z.ltb_spec port 0) as [|_]; [lia|].
    assert (Hstep : forall k n, n < 10 -> utoa (S k) n = [byte_of_Z (48 + n)]).
    { intros k n Hn. cbn [utoa]. destruct (Z.ltb_spec n 10); [reflexivity|lia]. }
    assert (Hdiv : forall n, 0 <= n -> 0 <= n / 10)
      by (intros; apply Z.div_pos; lia).
    assert (Hlt : forall n b, 0 < b -> n < 10 * b -> n / 10 < b)
      by (intros; apply Z.div_lt_upper_bound; lia).
    assert (H1 : port / 10 < 6554) by (apply Hlt; lia).
    assert (H2 : port / 10 / 10 < 656) by (apply Hlt; lia).
    assert (H3 : port / 10 / 10 / 10 < 66) by (apply Hlt; lia).
    assert (H4 : port / 10 / 10 / 10 / 10 < 7) by (apply Hlt; lia).
    change 19%nat with (S (S (S (S (S 14))))).
    change 5%nat with (S (S (S (S (S 0))))).
    cbn [utoa].
    destruct (port <? 10); [reflexivity|].
    destruct (port / 10 <? 10); [reflexivity|].
    destruct (port / 10 / 10 <? 10); [reflexivity|].
    destruct (port / 10 / 10 / 10 <? 10); [reflexivity|].
    destruct (Z.ltb_spec (port / 10 / 10 / 10 / 10) 10); [reflexivity|lia]. }
  destruct (utoa_digits 4 port ltac:(change (10 ^ Z.of_nat 5) with 100000; lia))
    as (_ & Hd & Hl).
  destruct (noSeparator_digits _ Hd) as [Hs Hlf].
  split; [rewrite H5; exact Hs|]. split; [rewrite H5; exact Hlf|].
  split; [rewrite H5; lia|]. apply parseV1PortNumber_valid. exact Hp.
Qed.

End Version1Line.

Section Version1Codec.

Variable ParseAddr : list byte -> option netipAddr.
Variable IPString : IP -> list byte.
Variables (more : list (byte * list byte)) (e : error).

Lemma parseLine_crlf (body : list byte) :
  parseLine ParseAddr (body ++ crlf)
  = parseTokens ParseAddr (Split body separator).
Proof.
  unfold parseLine, crlf. rewrite length_app. cbn [length].
  replace (length body + 2 - 2)%nat with (length body) by lia.
  destruct (Nat.ltb_spec (length body + 2) 2) as [H|_]; [lia|].
  rewrite <- (Nat.add_0_r (length body)) at 1.
  rewrite idx_prefix. cbn [idx nth orb].
  change (Byte.eqb x0d x0d) with true. cbn [negb].
  rewrite firstn_prefix. reflexivity.
Qed.

(** The line feed is not preceded by a carriage return. *)
Lemma parseLine_no_cr (line : list byte) :
  (forall body, line <> body ++ [x0d]) ->
  parseLine ParseAddr (line ++ [x0a]) = ErrV1 (V1 ErrLineMustEndWithCrlf).
Proof.
  intros Hno. unfold parseLine.
  destruct (Nat.ltb_spec (length (line ++ [x0a])) 2) as [_|Hlen];
    [reflexivity|].
  cbn [orb]. rewrite length_app in *. cbn [length] in *.
  destruct (exists_last (l := line)) as (l & x & ->).
  { intros ->. simpl in Hlen. lia. }
  rewrite length_app. cbn [length].
  replace (length l + 1 + 1 - 2)%nat with (length l + 0)%nat by lia.
  rewrite <- app_assoc, idx_prefix. cbn [app idx nth].
  destruct (Byte.eqb x x0d) eqn:E; [|reflexivity].
  apply Byte.byte_dec_bl in E. subst x. exfalso. exact (Hno l eq_refl).
Qed.

(** X24. How [parseVersion1] frames the line, by what the buffer holds.  A
    line feed among the first 107 bytes ends the line, which is consumed
    with it and nothing more, and must be preceded by a carriage return
    ([ErrLineMustEndWithCrlf] otherwise); 107 bytes without a line feed are
    consumed and refused with [ErrVersion1HeaderTooLong]; fewer bytes
    without a line feed are refused with [ErrCantReadVersion1Header], as
    the parser does not wait for a second read of the source; and on an
    empty buffer the failure of the source is reported by an error that is
    none of the error values of the package. *)
Theorem parseVersion1_framing (data : list byte) :
  (forall line tail,
      data = line ++ x0a :: tail -> noLF line = true ->
      (length line < 107)%nat ->
      parseVersion1 ParseAddr (mkBufReader data more e)
      = (parseLine ParseAddr (line ++ [x0a]), mkBufReader tail more e)
      /\ ((forall body, line <> body ++ [x0d]) ->
          parseLine ParseAddr (line ++ [x0a])
          = ErrV1 (V1 ErrLineMustEndWithCrlf)))
  /\ (forall long tail,
        data = long ++ tail -> noLF long = true -> length long = 107%nat ->
        parseVersion1 ParseAddr (mkBufReader data more e)
        = (ErrV1 (V1 ErrVersion1HeaderTooLong), mkBufReader tail more e))
  /\ (noLF data = true -> (0 < length data < 107)%nat ->
      parseVersion1 ParseAddr (mkBufReader data more e)
      = (ErrV1 (V1 ErrCantReadVersion1Header), mkBufReader [] more e))
  /\ (data = [] -> more = [] ->
      parseVersion1 ParseAddr (mkBufReader data more e)
      = (ErrV1 (V1ReadFailed e), mkBufReader [] [] e)).
Proof.
  split; [|split; [|split]].
  - intros line tail -> Hlf Hlen. split.
    + unfold parseVersion1.
      rewrite (readLine_buffered more e line 107 [] tail Hlf) by (simpl; lia).
      reflexivity.
    + apply parseLine_no_cr.
  - intros long tail -> Hlf Hlen. unfold parseVersion1.
    rewrite (readLine_too_long more e long 107 [] tail Hlf)
      by (simpl; lia).
    reflexivity.
  - intros Hlf Hlen. unfold parseVersion1.
    rewrite (readLine_split more e data 107 [] Hlf) by (simpl; lia).
    reflexivity.
  - intros -> ->. reflexivity.
Qed.

Lemma byte_neq_eqb (a b : byte) : a <> b -> Byte.eqb a b = false.
Proof.
  intros H. destruct (Byte.eqb a b) eqn:E; [|reflexivity].
  apply Byte.byte_dec_bl in E. contradiction.
Qed.

(** X25. A header whose transport is neither TCP over IPv4 nor TCP over
    IPv6 has no addresses in version 1: [formatVersion1] writes the line
    ["PROXY UNKNOWN"] for it, whatever its addresses and its command, and
    [parseVersion1] reads this line back as a LOCAL header with the
    transport UNSPEC and no address, leaving what follows the line. *)
Theorem parseVersion1_formatVersion1_UNKNOWN (h : Header) (tail : list byte) :
  TransportProtocol h <> TCPv4 ->
  TransportProtocol h <> TCPv6 ->
  exists line,
    formatVersion1 IPString h = Ok line
    /\ line = list_byte_of_string "PROXY UNKNOWN" ++ crlf
    /\ parseVersion1 ParseAddr (mkBufReader (line ++ tail) more e)
       = (OkV1 unknownHeader, mkBufReader tail more e).
Proof.
  intros H4 H6. exists (list_byte_of_string "PROXY UNKNOWN" ++ crlf).
  split; [|split; [reflexivity|]].
  - unfold formatVersion1.
    rewrite (byte_neq_eqb _ _ H4), (byte_neq_eqb _ _ H6). reflexivity.
  - unfold parseVersion1.
    pose proof (readLine_buffered more e
                  (list_byte_of_string "PROXY UNKNOWN" ++ [x0d]) 107 [] tail
                  eq_refl) as HR.
    cbn [app length] in HR.
    change ((list_byte_of_string "PROXY UNKNOWN" ++ crlf) ++ tail)
      with ((list_byte_of_string "PROXY UNKNOWN" ++ [x0d]) ++ x0a :: tail).
    rewrite HR by (vm_compute; lia). reflexivity.
Qed.

(** The tokens of a line with two addresses and two ports. *)
Lemma Split_TCP_line (tag s1 s2 p1 p2 : list byte) :
  noSeparator tag = true ->
  noSeparator s1 = true -> noSeparator s2 = true ->
  noSeparator p1 = true -> noSeparator p2 = true ->
  Split (SIGV1 ++ [separator] ++ tag ++ [separator] ++ s1 ++ [separator]
           ++ s2 ++ [separator] ++ p1 ++ [separator] ++ p2) separator
  = [SIGV1; tag; s1; s2; p1; p2].
Proof.
  intros Ht H1 H2 H3 H4.
  cbn [app]. rewrite (Split_token SIGV1) by reflexivity.
  rewrite (Split_token tag) by exact Ht.
  rewrite (Split_token s1) by exact H1.
  rewrite (Split_token s2) by exact H2.
  rewrite (Split_token p1) by exact H3.
  rewrite (Split_last p2) by exact H4.
  reflexivity.
Qed.

Lemma noLF_Forall (s : list byte) :
  noLF s = true <-> Forall (fun c => Byte.eqb c x0a = false) s.
Proof.
  unfold noLF. rewrite forallb_forall, Forall_forall.
  split; intros H x Hx; specialize (H x Hx);
    [apply negb_true_iff in H | apply negb_true_iff]; exact H.
Qed.

(** X26. The round trip of version 1 for TCP.  Take a header with version
    1, the command PROXY, the transport TCP over IPv4 (or IPv6), two TCP
    addresses of 4 (or 16) bytes and ports between 0 and 65535, and suppose
    that [net.IP.String] writes each address as a text without space and
    line feed of at most 39 bytes that [netip.ParseAddr] reads back as this
    address of the same family.  Then [formatVersion1] succeeds, and
    [parseVersion1], on a buffer that holds the line, returns the same
    header and leaves what follows the line. *)
Theorem parseVersion1_formatVersion1_TCP (tp : byte) (sip dip : list byte)
        (sp dp : Z) (tail : list byte) :
  (tp = TCPv4 /\ length sip = 4%nat /\ length dip = 4%nat
   /\ ParseAddr (IPString sip) = Some (Addr4 sip)
   /\ ParseAddr (IPString dip) = Some (Addr4 dip))
  \/ (tp = TCPv6 /\ length sip = 16%nat /\ length dip = 16%nat
      /\ ParseAddr (IPString sip) = Some (Addr6 sip)
      /\ ParseAddr (IPString dip) = Some (Addr6 dip)) ->
  addressText (IPString sip) = true ->
  addressText (IPString dip) = true ->
  0 <= sp <= 65535 ->
  0 <= dp <= 65535 ->
  let h := {| Version := 1; Command := PROXY; TransportProtocol := tp;
              SourceAddr := Some (TCPAddr sip sp);
              DestinationAddr := Some (TCPAddr dip dp); rawTLVs := [] |} in
  exists line,
    formatVersion1 IPString h = Ok line
    /\ parseVersion1 ParseAddr (mkBufReader (line ++ tail) more e)
       = (OkV1 h, mkBufReader tail more e).
Proof.
  intros Hfam Hs Hd Hsp Hdp h.
  unfold addressText in Hs, Hd.
  apply andb_prop in Hs as [Hs Hsl]. apply andb_prop in Hs as [Hss Hsn].
  apply andb_prop in Hd as [Hd Hdl]. apply andb_prop in Hd as [Hds Hdn].
  apply Nat.leb_le in Hsl, Hdl.
  destruct (Itoa_port sp Hsp) as (Hps & Hpn & Hpl & Hpv).
  destruct (Itoa_port dp Hdp) as (Hqs & Hqn & Hql & Hqv).
  set (tag := if Byte.eqb tp TCPv4 then TCP4 else TCP6).
  set (body := SIGV1 ++ [separator] ++ tag ++ [separator] ++ IPString sip
                 ++ [separator] ++ IPString dip ++ [separator] ++ Itoa sp
                 ++ [separator] ++ Itoa dp).
  assert (Htag : noSeparator tag = true /\ noLF tag = true
                 /\ length tag = 4%nat)
    by (unfold tag; destruct (Byte.eqb tp TCPv4); repeat split; reflexivity).
  destruct Htag as (Hts & Htn & Htl).
  assert (Hfmt : formatVersion1 IPString h = Ok (body ++ crlf)).
  { unfold formatVersion1, h.
    cbn [TransportProtocol SourceAddr DestinationAddr].
    destruct Hfam as [(-> & Hl1 & Hl2 & _)|(-> & Hl1 & Hl2 & _)].
    - change (Byte.eqb TCPv4 TCPv4) with true. cbn [negb andb].
      unfold To4. rewrite Hl1, Hl2. cbn [Nat.eqb].
      unfold body, tag. change (Byte.eqb TCPv4 TCPv4) with true.
      repeat rewrite <- app_assoc. reflexivity.
    - change (Byte.eqb TCPv6 TCPv4) with false.
      change (Byte.eqb TCPv6 TCPv6) with true. cbn [negb andb].
      unfold To16. rewrite Hl1, Hl2. cbn [Nat.eqb].
      unfold body, tag. change (Byte.eqb TCPv6 TCPv4) with false.
      repeat rewrite <- app_assoc. reflexivity. }
  exists (body ++ crlf). split; [exact Hfmt|].
  assert (Hbody_lf : noLF (body ++ [x0d]) = true).
  { unfold body. rewrite !noLF_app, Htn, Hsn, Hdn, Hpn, Hqn. reflexivity. }
  assert (Hbody_len : (length (body ++ [x0d]) < 107)%nat).
  { unfold body. rewrite !length_app, Htl.
    change (length SIGV1) with 5%nat. cbn [length]. lia. }
  unfold parseVersion1.
  replace ((body ++ crlf) ++ tail) with ((body ++ [x0d]) ++ x0a :: tail)
    by (unfold crlf; rewrite <- !app_assoc; reflexivity).
  rewrite (readLine_buffered more e (body ++ [x0d]) 107 [] tail Hbody_lf)
    by (cbn [length]; lia).
  cbn [app]. rewrite <- app_assoc.
  change ([x0d] ++ [x0a]) with crlf.
  rewrite parseLine_crlf. unfold body.
  rewrite Split_TCP_line by assumption.
  unfold parseTokens. cbn [length Nat.ltb Nat.leb nth].
  unfold parseV1IPAddress.
  destruct Hfam as [(-> & _ & _ & HP1 & HP2)|(-> & _ & _ & HP1 & HP2)];
    unfold tag; rewrite HP1, HP2, Hpv, Hqv; reflexivity.
Qed.

End Version1Codec.

(* ------------------------------------------------------------------ *)
(** ** The version 1 codec: how much is read *)

Section Version1Bound.

Variable ParseAddr : list byte -> option netipAddr.

Lemma fillByte_unread (chunks : list (byte * list byte)) (e : error) :
  (fillByte chunks e = (Err e, mkBufReader [] [] e) /\ chunks = [])
  \/ (exists b chunk rest,
        fillByte chunks e = (Ok b, mkBufReader chunk rest e)
        /\ chunks = (b, chunk) :: rest).
Proof.
  destruct chunks as [|[b chunk] rest].
  - left. split; reflexivity.
  - right. exists b, chunk, rest. split; reflexivity.
Qed.

(** One byte read: what is left to deliver, and whether the source was
    read. *)
Lemma ReadByte_unread (r : BufReader) :
  (exists err, BufReader_ReadByte r = (Err err, mkBufReader [] [] (endErr r))
               /\ unread r = [] /\ buffered r = [])
  \/ (exists b r1,
        BufReader_ReadByte r = (Ok b, r1)
        /\ unread r = b :: unread r1
        /\ endErr r1 = endErr r
        /\ (buffered r <> [] -> incoming r1 = incoming r)).
Proof.
  destruct r as [buf chunks e]. unfold BufReader_ReadByte, unread.
  cbn [buffered incoming endErr].
  destruct buf as [|b tl].
  - destruct (fillByte_unread chunks e) as [[Hf Hc]|(b & chunk & rest & Hf & Hc)].
    + left. exists e. rewrite Hf, Hc. repeat split; reflexivity.
    + right. exists b, (mkBufReader chunk rest e). rewrite Hf, Hc.
      cbn [buffered incoming endErr app map concat fst snd].
      repeat split; try reflexivity. intros H. contradiction.
  - right. exists b, (mkBufReader tl chunks e).
    cbn [buffered incoming endErr app]. repeat split; reflexivity.
Qed.

Lemma readLine_unread (fuel : nat) :
  forall (buf : list byte) (r : BufReader),
  exists consumed,
    unread r = consumed ++ unread (snd (readLine fuel buf r))
    /\ (length consumed <= fuel)%nat
    /\ endErr (snd (readLine fuel buf r)) = endErr r
    /\ (buffered r <> [] -> incoming (snd (readLine fuel buf r)) = incoming r).
Proof.
  induction fuel as [|fuel IH]; intros buf r.
  - exists []. cbn [readLine snd app length]. repeat split; try reflexivity; lia.
  - cbn [readLine].
    destruct (ReadByte_unread r)
      as [(err & HR & Hu & Hb)|(b & r1 & HR & Hu & He & Hi)]; rewrite HR.
    + exists []. cbn [snd app length unread buffered incoming endErr concat].
      rewrite Hu. repeat split; try reflexivity; try lia.
      intros H. contradiction.
    + destruct (Byte.eqb b x0a);
        [exists [b]; cbn [snd app length]; repeat split; try assumption; lia|].
      destruct (length (buf ++ [b]) =? 107)%nat;
        [exists [b]; cbn [snd app length]; repeat split; try assumption; lia|].
      destruct (Nat.eqb_spec (Buffered r1) 0) as [E|Hne];
        [exists [b]; cbn [snd app length]; repeat split; try assumption; lia|].
      destruct (IH (buf ++ [b]) r1) as (consumed & Hc & Hl & He1 & Hi1).
      exists (b :: consumed). cbn [app length]. split; [|split; [|split]].
      * rewrite Hu, Hc. reflexivity.
      * lia.
      * congruence.
      * intros Hb. rewrite Hi1; [apply Hi; exact Hb|].
        unfold Buffered in Hne. destruct (buffered r1); [simpl in Hne; lia|].
        discriminate.
Qed.

Lemma readLine_S (fuel : nat) (buf : list byte) (r : BufReader) :
  readLine (S fuel) buf r
  = match BufReader_ReadByte r with
    | (Err err, r1) => (ErrV1 (V1ReadFailed err), r1)
    | (Ok b, r1) =>
      if Byte.eqb b x0a then (OkV1 (buf ++ [b]), r1)
      else if (length (buf ++ [b]) =? 107)%nat
      then (ErrV1 (V1 ErrVersion1HeaderTooLong), r1)
      else if (Buffered r1 =? 0)%nat
      then (ErrV1 (V1 ErrCantReadVersion1Header), r1)
      else readLine fuel (buf ++ [b]) r1
    end.
Proof. reflexivity. Qed.

(** The loop of [readLine] ends before its [fuel] does: a turn more changes
    nothing. *)
Lemma readLine_fuel (fuel : nat) :
  forall (buf : list byte) (r : BufReader),
    (107 <= length buf + fuel)%nat -> (length buf < 107)%nat ->
    readLine (S fuel) buf r = readLine fuel buf r.
Proof.
  induction fuel as [|fuel IH]; intros buf r Hsum Hlen; [lia|].
  rewrite (readLine_S (S fuel)), (readLine_S fuel).
  destruct (BufReader_ReadByte r) as [[b|err] r1]; [|reflexivity].
  destruct (Byte.eqb b x0a); [reflexivity|].
  destruct (Nat.eqb_spec (length (buf ++ [b])) 107) as [|Hne]; [reflexivity|].
  destruct (Buffered r1 =? 0)%nat; [reflexivity|].
  apply IH; rewrite length_app in *; cbn [length] in *; lia.
Qed.

(** X27. Whatever the stream and whatever the outcome, [parseVersion1]
    consumes at most 107 bytes; and when the buffer holds at least one
    byte it does not read the source at all, so that it cannot be made to
    wait for a line that is sent piece by piece. *)
Theorem parseVersion1_bounded (r : BufReader) :
  exists consumed,
    unread r = consumed ++ unread (snd (parseVersion1 ParseAddr r))
    /\ (length consumed <= 107)%nat
    /\ endErr (snd (parseVersion1 ParseAddr r)) = endErr r
    /\ (buffered r <> [] ->
        incoming (snd (parseVersion1 ParseAddr r)) = incoming r).
Proof.
  destruct (readLine_unread 107 [] r) as (consumed & H).
  exists consumed. unfold parseVersion1.
  destruct (readLine 107 [] r) as [[buf|err] r1]; exact H.
Qed.

End Version1Bound.

(** *** The version 1 codec on sample lines *)

Lemma parseVersion1_formatVersion1_UNKNOWN_witness :
  exists line,
    formatVersion1 dottedQuad
      {| Version := 2; Command := PROXY; TransportProtocol := UDPv4;
         SourceAddr := Some (UDPAddr [x0a; x00; x00; x01] 53);
         DestinationAddr := Some (UDPAddr [x0a; x00; x00; x02] 53);
         rawTLVs := [] |}
    = Ok line
    /\ line = list_byte_of_string "PROXY UNKNOWN" ++ crlf
    /\ parseVersion1 parseDottedQuad (mkBufReader (line ++ helo) [] EOF)
       = (OkV1 unknownHeader, mkBufReader helo [] EOF).
Proof.
  apply (parseVersion1_formatVersion1_UNKNOWN parseDottedQuad dottedQuad [] EOF
           {| Version := 2; Command := PROXY; TransportProtocol := UDPv4;
              SourceAddr := Some (UDPAddr [x0a; x00; x00; x01] 53);
              DestinationAddr := Some (UDPAddr [x0a; x00; x00; x02] 53);
              rawTLVs := [] |} helo); discriminate.
Defined.

Lemma parseVersion1_formatVersion1_TCP_witness :
  exists line,
    formatVersion1 dottedQuad tcp4HeaderV1 = Ok line
    /\ parseVersion1 parseDottedQuad (mkBufReader (line ++ helo) [] EOF)
       = (OkV1 tcp4HeaderV1, mkBufReader helo [] EOF).
Proof.
  apply (parseVersion1_formatVersion1_TCP parseDottedQuad dottedQuad [] EOF
           TCPv4 [x0a; x00; x00; x01] [xc0; xa8; x00; x01] 1234 80 helo).
  - left. repeat split; vm_compute; reflexivity.
  - vm_compute. reflexivity.
  - vm_compute. reflexivity.
  - lia.
  - lia.
Defined.

(** The sample line is what [formatVersion1] writes for the sample
    header. *)
Example formatVersion1_tcp4HeaderV1 :
  formatVersion1 dottedQuad tcp4HeaderV1 = Ok tcp4LineV1.
Proof. vm_compute. reflexivity. Qed.

(** The longest line that is accepted has 107 bytes with its line end; one
    byte more and the line is too long, before its line end is seen. *)
Example parseVersion1_107_bytes :
  let pad := repeat x20 91 in
  fst (parseVersion1 parseDottedQuad
         (mkBufReader (list_byte_of_string "PROXY UNKNOWN " ++ pad ++ crlf)
            [] EOF))
  = OkV1 unknownHeader
  /\ fst (parseVersion1 parseDottedQuad
            (mkBufReader
               (list_byte_of_string "PROXY UNKNOWN " ++ x20 :: pad ++ crlf)
               [] EOF))
     = ErrV1 (V1 ErrVersion1HeaderTooLong).
Proof. split; vm_compute; reflexivity. Qed.

(** A line that comes in two reads is refused, although the source has the
    rest of it. *)
Example parseVersion1_two_reads :
  parseVersion1 parseDottedQuad
    (mkBufReader [] [(x50, list_byte_of_string "ROXY TCP4 10.0.0.1 ");
                     (x31, list_byte_of_string "92.168.0.1 1234 80" ++ crlf)]
       EOF)
  = (ErrV1 (V1 ErrCantReadVersion1Header),
     mkBufReader []
       [(x31, list_byte_of_string "92.168.0.1 1234 80" ++ crlf)] EOF).
Proof. vm_compute. reflexivity. Qed.

(** The first token is not looked at, and tokens after the sixth are
    ignored. *)
Example parseVersion1_tokens :
  fst (parseVersion1 parseDottedQuad
         (mkBufReader
            (list_byte_of_string "HELLO TCP4 10.0.0.1 192.168.0.1 1234 80 x"
               ++ crlf) [] EOF))
  = OkV1 tcp4HeaderV1.
Proof. vm_compute. reflexivity. Qed.
